(** * A shallow embedding of the spectrum simulator (src/lib/spectrum-simulator.ts)

    JavaScript numbers are modelled as real numbers, strings as Stdlib
    strings of ASCII characters.  [Math.random] is modelled by an explicit
    random source [g : nat -> R] read through a small reader/state monad [M]
    whose state is the index of the next draw; every call of [Math.random]
    in the source is one [random] draw here, in the source's evaluation
    order. *)

From Stdlib Require Import Reals Lra Psatz.
From Stdlib Require Import List String Ascii Bool Arith ZArith Sorting.Sorted Sorting.Permutation.
Import ListNotations.

Open Scope string_scope.
Open Scope R_scope.
Open Scope list_scope.

(* ------------------------------------------------------------------ *)
(** ** String helpers ([String.prototype.includes], [endsWith], regexes) *)

Definition char_in (c : ascii) (cs : string) : bool :=
  let fix go (cs : string) :=
    match cs with
    | EmptyString => false
    | String d cs' => Ascii.eqb c d || go cs'
    end in go cs.

(** [s.includes(pat)] *)
Fixpoint includes (s pat : string) : bool :=
  String.prefix pat s ||
  match s with
  | EmptyString => false
  | String _ s' => includes s' pat
  end.

(** [s.endsWith(suf)] *)
Fixpoint endsWith (s suf : string) : bool :=
  String.eqb s suf ||
  match s with
  | EmptyString => false
  | String _ s' => endsWith s' suf
  end.

(** [re.test(s)] for a pattern whose first atom is tried at every
    position: [at_pos] decides whether the pattern matches starting at the
    beginning of the given suffix. *)
Fixpoint test_at_some (at_pos : string -> bool) (s : string) : bool :=
  at_pos s ||
  match s with
  | EmptyString => false
  | String _ s' => test_at_some at_pos s'
  end.

Definition is_lower (c : ascii) : bool :=
  let n := nat_of_ascii c in (97 <=? n)%nat && (n <=? 122)%nat.
Definition is_upper (c : ascii) : bool :=
  let n := nat_of_ascii c in (65 <=? n)%nat && (n <=? 90)%nat.
Definition is_digit (c : ascii) : bool :=
  let n := nat_of_ascii c in (48 <=? n)%nat && (n <=? 57)%nat.
(** [\w] *)
Definition is_word (c : ascii) : bool :=
  is_lower c || is_upper c || is_digit c || Ascii.eqb c "_"%char.
(** [\s] restricted to ASCII: tab, line feed, vertical tab, form feed,
    carriage return, space *)
Definition is_space (c : ascii) : bool :=
  let n := nat_of_ascii c in ((9 <=? n)%nat && (n <=? 13)%nat) || (n =? 32)%nat.
(** the line terminators that [.] does not match (ASCII ones) *)
Definition is_lineterm (c : ascii) : bool :=
  Ascii.eqb c "010"%char || Ascii.eqb c "013"%char.

(** first character of a string satisfies [p] *)
Definition head_is (p : ascii -> bool) (s : string) : bool :=
  match s with EmptyString => false | String c _ => p c end.

(** [\w?X]: an optional word character, then [X] *)
Definition opt_word_then (x : string -> bool) (s : string) : bool :=
  match s with
  | String c s' => (is_word c && x s') || x s
  | EmptyString => x s
  end.

(** [/O(?![(=]|\w?C(=O)|\w?O\w)/] *)
Definition re_OH_at (s : string) : bool :=
  match s with
  | String "O" r =>
      negb (head_is (fun c => char_in c "(=") r
            || opt_word_then (String.prefix "C=O") r
            || opt_word_then (fun r' => match r' with
                                        | String "O" r'' => head_is is_word r''
                                        | _ => false end) r)
  | _ => false
  end.

(** [/N(?![(]?=|[#C])/] *)
Definition re_NH_at (s : string) : bool :=
  match s with
  | String "N" r =>
      negb (String.prefix "=" r || String.prefix "(=" r
            || head_is (fun c => char_in c "#C") r)
  | _ => false
  end.

(** the lookahead [(?!=\S)] *)
Definition not_eq_nonspace (r : string) : bool :=
  negb (match r with
        | String "=" r' => head_is (fun c => negb (is_space c)) r'
        | _ => false end).

(** [/C(?!=\S)O(?!=\S)C/] *)
Definition re_COC_at (s : string) : bool :=
  match s with
  | String "C" r1 =>
      not_eq_nonspace r1 &&
      match r1 with
      | String "O" r2 => not_eq_nonspace r2 && head_is (Ascii.eqb "C"%char) r2
      | _ => false
      end
  | _ => false
  end.

(** [.*] followed by [x] *)
Fixpoint dotstar_then (x : string -> bool) (s : string) : bool :=
  x s ||
  match s with
  | EmptyString => false
  | String c s' => negb (is_lineterm c) && dotstar_then x s'
  end.

(** [/c1.*c1/] *)
Definition re_c1c1_at (s : string) : bool :=
  match s with
  | String "c" (String "1" r) => dotstar_then (String.prefix "c1") r
  | _ => false
  end.

(** [/C(?![=a-z#])/] *)
Definition re_sp3_at (s : string) : bool :=
  match s with
  | String "C" r => negb (head_is (fun c => Ascii.eqb c "="%char || is_lower c
                                             || Ascii.eqb c "#"%char) r)
  | _ => false
  end.

(* ------------------------------------------------------------------ *)
(** ** Molecule feature analysis ([analyzeMolecule]) *)

Record MoleculeFeatures := {
  hasOH : bool; hasCOOH : bool; hasNH : bool; hasAmideNH : bool;
  hasCarbonyl : bool; hasKetoneAldehyde : bool; hasEster : bool;
  hasAmide : bool; hasEther : bool; hasAlkene : bool; hasAlkyne : bool;
  hasAromatic : bool; hasSp3CH : bool; hasSp2CH : bool }.

Definition noFeatures : MoleculeFeatures := {|
  hasOH := false; hasCOOH := false; hasNH := false; hasAmideNH := false;
  hasCarbonyl := false; hasKetoneAldehyde := false; hasEster := false;
  hasAmide := false; hasEther := false; hasAlkene := false; hasAlkyne := false;
  hasAromatic := false; hasSp3CH := false; hasSp2CH := false |}.

(** the features of a descriptor that matches no functional-group pattern
    but contains a carbon: only the saturated C-H flag is set *)
Definition sp3Only : MoleculeFeatures := {|
  hasOH := false; hasCOOH := false; hasNH := false; hasAmideNH := false;
  hasCarbonyl := false; hasKetoneAldehyde := false; hasEster := false;
  hasAmide := false; hasEther := false; hasAlkene := false; hasAlkyne := false;
  hasAromatic := false; hasSp3CH := true; hasSp2CH := false |}.

(** no functional-group flag is set *)
Definition noPattern (f : MoleculeFeatures) : Prop := f = noFeatures \/ f = sp3Only.

(** The source assigns the fields one after the other, overwriting [hasOH]
    and [hasNH]; the lets below follow those assignments in order. *)
Definition analyzeMolecule (smiles : string) : MoleculeFeatures :=
  if String.eqb smiles "" then noFeatures else
  let hasCarbonyl := includes smiles "C=O" || includes smiles "C(=O)" in
  let hasEster := includes smiles "C(=O)O" || includes smiles "OC=O" in
  let hasAmide := includes smiles "C(=O)N" || includes smiles "NC=O" in
  let hasCOOH := includes smiles "C(=O)O" &&
                 (includes smiles "(=O)OH" || includes smiles "O=CO") in
  let hasOH0 := test_at_some re_OH_at smiles || endsWith smiles "OH" in
  let hasOH := if hasCOOH then false else hasOH0 in
  let hasNH0 := test_at_some re_NH_at smiles in
  let hasAmideNH := if hasAmide then hasNH0 else false in
  let hasNH := if hasAmide then false else hasNH0 in
  let hasKetoneAldehyde := hasCarbonyl && negb hasEster && negb hasAmide && negb hasCOOH in
  let hasEther := test_at_some re_COC_at smiles || includes smiles "cOc" in
  let hasAlkene := includes smiles "C=C" in
  let hasAlkyne := includes smiles "C#C" in
  let hasAromatic := test_at_some (head_is is_lower) smiles
                     || test_at_some re_c1c1_at smiles
                     || includes smiles "C1=CC=CC=C1" in
  let hasSp3CH := test_at_some re_sp3_at smiles || includes smiles "CH"
                  || includes smiles "C" in
  let hasSp2CH := hasAlkene || hasAromatic in
  {| hasOH := hasOH; hasCOOH := hasCOOH; hasNH := hasNH; hasAmideNH := hasAmideNH;
     hasCarbonyl := hasCarbonyl; hasKetoneAldehyde := hasKetoneAldehyde;
     hasEster := hasEster; hasAmide := hasAmide; hasEther := hasEther;
     hasAlkene := hasAlkene; hasAlkyne := hasAlkyne; hasAromatic := hasAromatic;
     hasSp3CH := hasSp3CH; hasSp2CH := hasSp2CH |}.

(* ------------------------------------------------------------------ *)
(** ** Real-number helpers for the JavaScript comparisons and [Math] *)

Definition Rltb (x y : R) : bool := if Rlt_dec x y then true else false.
Definition Rleb (x y : R) : bool := if Rle_dec x y then true else false.
Definition Reqb (x y : R) : bool := if Req_EM_T x y then true else false.

(** [Math.floor]: [up x] is the least integer strictly above [x]. *)
Definition Math_floor (x : R) : Z := (up x - 1)%Z.

(** [x.toFixed(0)] for the magnitudes that occur here: the sign, then the
    magnitude rounded half away from zero (so the string ["-0"] of a small
    negative number stays distinct from ["0"]). *)
Definition toFixed0 (x : R) : bool * Z :=
  if Rlt_dec x 0 then (true, Math_floor (- x + / 2)) else (false, Math_floor (x + / 2)).

(* ------------------------------------------------------------------ *)
(** ** The random source: a reader/state monad *)

(** [g] gives the value of every call of [Math.random]; the state is the
    number of calls made so far. *)
Definition M (A : Type) : Type := (nat -> R) -> nat -> A * nat.

Definition ret {A : Type} (a : A) : M A := fun _ n => (a, n).

Definition bind {A B : Type} (m : M A) (k : A -> M B) : M B :=
  fun g n => let (a, n') := m g n in k a g n'.

Notation "x <- m ;; k" := (bind m (fun x => k))
  (at level 61, m at next level, right associativity).

(** [Math.random()] *)
Definition random : M R := fun g n => (g n, S n).

(** the values [Math.random] can return *)
Definition valid_source (g : nat -> R) : Prop := forall n, 0 <= g n < 1.

(* ------------------------------------------------------------------ *)
(** ** Lineshape ([lorentzianPeak]) *)

Definition lorentzianPeak (x x0 fwhm amplitude : R) : R :=
  let gamma := fwhm / 2 in
  if Rle_dec gamma 0 then 0 else
  let denominator := (x - x0) ^ 2 + gamma ^ 2 in
  if Req_EM_T denominator 0 then (if Rlt_dec 0 amplitude then amplitude else 0)
  else amplitude * (gamma ^ 2 / denominator).

(* ------------------------------------------------------------------ *)
(** ** IR simulation: characteristic peaks *)

Module IRPeakInfo.
Record t := mk {
  wavenumber : R;
  targetTransmittance : R;
  width : R;
  assignment : string }.
End IRPeakInfo.

Module IRSpectrumPeak.
Record t := mk {
  wavenumber : R;
  transmittance : R;
  assignment : string }.
End IRSpectrumPeak.

(** [{ wavenumber: wn + Math.random() * dwn, targetTransmittance: tt +
    Math.random() * dtt, width: w + Math.random() * dw, assignment: a }];
    the three draws happen in field order. *)
Definition irPeak (wn dwn tt dtt w dw : R) (a : string) : M IRPeakInfo.t :=
  r1 <- random ;; r2 <- random ;; r3 <- random ;;
  ret (IRPeakInfo.mk (wn + r1 * dwn) (tt + r2 * dtt) (w + r3 * dw) a).

(** the acetone entries: [wavenumber: wn + (Math.random() - 0.5) * dwn] *)
Definition irPeakC (wn dwn tt dtt w dw : R) (a : string) : M IRPeakInfo.t :=
  r1 <- random ;; r2 <- random ;; r3 <- random ;;
  ret (IRPeakInfo.mk (wn + (r1 - / 2) * dwn) (tt + r2 * dtt) (w + r3 * dw) a).

(** [characteristicPeaks.push(...)] of the entries drawn by [m] *)
Definition pushAll (ps : list IRPeakInfo.t) (m : M (list IRPeakInfo.t))
  : M (list IRPeakInfo.t) :=
  qs <- m ;; ret (ps ++ qs).

Definition when_push (b : bool) (ps : list IRPeakInfo.t) (m : M (list IRPeakInfo.t))
  : M (list IRPeakInfo.t) :=
  if b then pushAll ps m else ret ps.

(** the "Define Characteristic Peaks" block of [simulateIRSpectrum] *)
Definition irCharacteristicPeaks (smiles : string) (f : MoleculeFeatures)
  : M (list IRPeakInfo.t) :=
  ps <- when_push (hasOH f) []
          (p <- irPeak 3350 250 30 40 100 200 "O-H stretch (Alcohol/Phenol)" ;; ret [p]) ;;
  ps <- when_push (hasCOOH f) ps
          (p1 <- irPeak 2800 400 40 40 300 300 "O-H stretch (Carboxylic Acid)" ;;
           p2 <- irPeak 1710 20 10 20 25 15 "C=O stretch (Carboxylic Acid)" ;;
           ret [p1; p2]) ;;
  ps <- when_push (hasNH f) ps
          (p1 <- irPeak 3350 150 45 35 50 50 "N-H stretch" ;;
           if negb (includes smiles "N(") then
             (p2 <- irPeak 3400 100 50 30 40 40 "N-H stretch" ;; ret [p1; p2])
           else ret [p1]) ;;
  ps <- when_push (hasAmideNH f) ps
          (p <- irPeak 3200 200 40 30 60 60 "N-H stretch (Amide)" ;; ret [p]) ;;
  ps <- when_push (hasSp3CH f) ps
          (p1 <- irPeak 2960 40 40 30 25 15 "C-H stretch (sp3)" ;;
           p2 <- irPeak 2870 40 50 30 30 15 "C-H stretch (sp3)" ;;
           p3 <- irPeak 1450 30 50 30 20 10 "C-H bend (sp3)" ;;
           p4 <- irPeak 1375 15 55 25 15 10 "C-H bend (sp3)" ;;
           ret [p1; p2; p3; p4]) ;;
  ps <- when_push (hasSp2CH f) ps
          (p <- irPeak 3050 70 70 20 15 10 "C-H stretch (sp2)" ;; ret [p]) ;;
  ps <- (if hasAlkyne f && negb (includes smiles "C#N") then
           pushAll ps (p1 <- irPeak 3300 30 50 20 20 10 "C-H stretch (sp)" ;;
                       p2 <- irPeak 2120 40 70 20 15 10 "C#C stretch" ;;
                       ret [p1; p2])
         else when_push (hasAlkyne f) ps
                (p <- irPeak 2200 60 85 10 15 10 "C#C stretch (Internal)" ;; ret [p])) ;;
  ps <- when_push (hasEster f && negb (hasCOOH f)) ps
          (p1 <- irPeak 1740 20 10 15 20 10 "C=O stretch (Ester)" ;;
           p2 <- irPeak 1180 100 20 30 30 20 "C-O stretch (Ester)" ;;
           ret [p1; p2]) ;;
  ps <- when_push (hasAmide f) ps
          (p1 <- irPeak 1660 30 15 20 30 15 "C=O stretch (Amide I)" ;;
           if hasAmideNH f then
             (p2 <- irPeak 1550 50 40 30 30 20 "N-H bend (Amide II)" ;; ret [p1; p2])
           else ret [p1]) ;;
  ps <- when_push (hasKetoneAldehyde f) ps
          (p1 <- irPeak 1715 25 10 15 20 10 "C=O stretch (Ketone/Aldehyde)" ;;
           if includes smiles "C(=O)H" || includes smiles "C=O)H" then
             (p2 <- irPeak 2720 20 70 15 15 5 "C-H stretch (Aldehyde)" ;;
              p3 <- irPeak 2820 20 75 15 15 5 "C-H stretch (Aldehyde)" ;;
              ret [p1; p2; p3])
           else ret [p1]) ;;
  ps <- when_push (hasAlkene f) ps
          (p1 <- irPeak 1650 30 65 25 15 10 "C=C stretch (Alkene)" ;;
           p2 <- irPeak 910 80 40 30 20 15 "C-H oop bend (Alkene)" ;;
           ret [p1; p2]) ;;
  ps <- when_push (hasAromatic f) ps
          (p1 <- irPeak 1600 15 60 25 15 10 "C=C stretch (Aromatic)" ;;
           p2 <- irPeak 1475 50 55 30 20 15 "C=C stretch (Aromatic)" ;;
           p3 <- irPeak 750 100 30 30 25 15 "C-H oop bend (Aromatic)" ;;
           ret [p1; p2; p3]) ;;
  ps <- when_push ((hasEther f || (hasOH f && negb (hasCOOH f))
                    || (hasEster f && negb (hasCOOH f)))
                   && negb (existsb (fun p => String.eqb (IRPeakInfo.assignment p)
                                                         "C-O stretch (Ester)") ps)) ps
          (p <- irPeak 1100 150 35 40 40 30 "C-O stretch" ;; ret [p]) ;;
  ps <- when_push (includes smiles "C#N") ps
          (p <- irPeak 2250 20 50 30 15 10 "C#N stretch" ;; ret [p]) ;;
  ret ps.

(** one iteration of the fingerprint loop per remaining count *)
Fixpoint fingerprintLoop (n : nat) (ps : list IRPeakInfo.t) : M (list IRPeakInfo.t) :=
  match n with
  | O => ret ps
  | S n' =>
      r <- random ;;
      let fpWavenumber := 600 + r * 750 in
      let isTooClose :=
        existsb (fun p => Rltb (Rabs (IRPeakInfo.wavenumber p - fpWavenumber)) 40
                          && Rltb (IRPeakInfo.targetTransmittance p) 50) ps in
      ps' <- (if isTooClose then ret ps else
                r2 <- random ;; r3 <- random ;;
                ret (ps ++ [IRPeakInfo.mk fpWavenumber (45 + r2 * 45) (15 + r3 * 15)
                                          "Fingerprint region"])) ;;
      fingerprintLoop n' ps'
  end.

(** [const fingerprintCount = 3 + Math.floor(Math.random() * 5)] and the loop *)
Definition fingerprintRegion (ps : list IRPeakInfo.t) : M (list IRPeakInfo.t) :=
  r <- random ;;
  let fingerprintCount := (3 + Math_floor (r * 5))%Z in
  fingerprintLoop (Z.to_nat fingerprintCount) ps.

(** the filter of the acetone override ("Remove conflicting generics") *)
Definition acetoneKeep (p : IRPeakInfo.t) : bool :=
  negb (includes (IRPeakInfo.assignment p) "C=O"
        && Rltb (Rabs (IRPeakInfo.wavenumber p - 1715)) 50)
  && negb (includes (IRPeakInfo.assignment p) "C-H stretch (sp3)")
  && negb (includes (IRPeakInfo.assignment p) "C-H bend (sp3)")
  && negb (String.eqb (IRPeakInfo.assignment p) "Fingerprint region"
           && Rltb (Rabs (IRPeakInfo.wavenumber p - 1220)) 50).

(** the curated acetone peaks *)
Definition acetoneIRPeaks : M (list IRPeakInfo.t) :=
  p1 <- irPeakC 1715 5 5 5 18 5 "C=O" ;;
  p2 <- irPeakC 2965 10 50 10 20 10 "C-H" ;;
  p3 <- irPeakC 2925 10 55 15 20 10 "C-H" ;;
  p4 <- irPeakC 1430 10 40 10 15 8 "CH3 bend" ;;
  p5 <- irPeakC 1360 5 45 10 12 5 "CH3 bend" ;;
  p6 <- irPeakC 1220 10 40 15 20 8 "C-C stretch" ;;
  ret [p1; p2; p3; p4; p5; p6].

Definition acetoneOverride (smiles : string) (ps : list IRPeakInfo.t)
  : M (list IRPeakInfo.t) :=
  if String.eqb smiles "CC(=O)C" then pushAll (filter acetoneKeep ps) acetoneIRPeaks
  else ret ps.

(** all the characteristic peaks of [simulateIRSpectrum] *)
Definition irAllPeaks (smiles : string) : M (list IRPeakInfo.t) :=
  ps <- irCharacteristicPeaks smiles (analyzeMolecule smiles) ;;
  ps <- fingerprintRegion ps ;;
  acetoneOverride smiles ps.

(* ------------------------------------------------------------------ *)
(** ** IR simulation: curve, minima tracking and labelled peaks *)

(** The key [`${peak.assignment}_${peak.wavenumber.toFixed(0)}`] of the
    [peakMinima] map, kept as the pair it is built from: the assignments
    used here contain no ['_'] and the digits of [toFixed(0)] none either,
    so the string determines the pair and
    [key.substring(0, key.lastIndexOf('_'))] is its first component. *)
Definition IRKey : Type := (string * (bool * Z))%type.

Definition irKey (p : IRPeakInfo.t) : IRKey :=
  (IRPeakInfo.assignment p, toFixed0 (IRPeakInfo.wavenumber p)).

Definition key_eq_dec (k1 k2 : IRKey) : {k1 = k2} + {k1 <> k2}.
Proof.
  destruct k1 as [a1 [b1 z1]], k2 as [a2 [b2 z2]].
  destruct (string_dec a1 a2), (bool_dec b1 b2), (Z.eq_dec z1 z2);
    first [left; congruence | right; congruence].
Defined.

(** A JavaScript [Map] keeps its entries in insertion order, [set] on a
    present key updates the entry in place. Values are
    [(wavenumber, transmittance)]. *)
Definition Minima : Type := list (IRKey * (R * R)).

Fixpoint map_get (k : IRKey) (m : Minima) : option (R * R) :=
  match m with
  | [] => None
  | (k', v) :: m' => if key_eq_dec k k' then Some v else map_get k m'
  end.

Fixpoint map_set (k : IRKey) (v : R * R) (m : Minima) : Minima :=
  match m with
  | [] => [(k, v)]
  | (k', v') :: m' => if key_eq_dec k k' then (k', v) :: m' else (k', v') :: map_set k v m'
  end.

Definition irMinWavenumber : R := 400.
Definition irMaxWavenumber : R := 4000.
(** [(maxWavenumber - minWavenumber) * 2 + 1]: a point every 0.5 cm-1 *)
Definition irNumPoints : Z := ((4000 - 400) * 2 + 1)%Z.
Definition irStep : R := (irMaxWavenumber - irMinWavenumber) / (IZR irNumPoints - 1).
Definition baselineLevel : R := 98.
Definition irNoiseAmplitude : R := 0.8.
Definition noiseFrequency : R := 0.08.

(** [totalPeakContribution] at wavenumber [x] *)
Definition irTotalContribution (ps : list IRPeakInfo.t) (x : R) : R :=
  fold_left (fun acc p =>
               let amplitude := Rmax 0 (baselineLevel - IRPeakInfo.targetTransmittance p) in
               acc + lorentzianPeak x (IRPeakInfo.wavenumber p) (IRPeakInfo.width p) amplitude)
            ps 0.

(** the clamped transmittance at [x], given the two draws [r1], [r2] of the
    noise *)
Definition irTransmittance (ps : list IRPeakInfo.t) (x r1 r2 : R) : R :=
  let noise := (r1 - 0.5) * 2 * irNoiseAmplitude in
  let noise := noise + sin (x * noiseFrequency + r2 * PI) * irNoiseAmplitude * 0.4 in
  let transmittance := baselineLevel + noise in
  let transmittance := transmittance - irTotalContribution ps x in
  Rmax 0.1 (Rmin 100 transmittance).

(** "Track minima near characteristic peak centers" *)
Definition trackMinima (ps : list IRPeakInfo.t) (x t : R) (mm : Minima) : Minima :=
  fold_left (fun mm p =>
      let checkWindow := Rmax 5 (IRPeakInfo.width p / 3) in
      if Rltb (Rabs (x - IRPeakInfo.wavenumber p)) checkWindow then
        let key := irKey p in
        match map_get key mm with
        | None => map_set key (x, t) mm
        | Some (_, t0) => if Rltb t t0 then map_set key (x, t) mm else mm
        end
      else mm) ps mm.

(** wavenumber of sample [i] *)
Definition irX (i : nat) : R := irMinWavenumber + INR i * irStep.

(** iteration [i] of the curve loop *)
Definition irSample (ps : list IRPeakInfo.t) (i : nat) (acc : list (R * R) * Minima)
  : M (list (R * R) * Minima) :=
  let wavenumber := irX i in
  r1 <- random ;; r2 <- random ;;
  let transmittance := irTransmittance ps wavenumber r1 r2 in
  ret (fst acc ++ [(wavenumber, transmittance)],
       trackMinima ps wavenumber transmittance (snd acc)).

(** iterations [0 .. n-1] of the curve loop *)
Fixpoint irCurve (ps : list IRPeakInfo.t) (n : nat) : M (list (R * R) * Minima) :=
  match n with
  | O => ret ([], [])
  | S n' => acc <- irCurve ps n' ;; irSample ps n' acc
  end.

Definition irThreshold : R := baselineLevel - irNoiseAmplitude * 2.5.

(** "Format Output Peaks": [peakMinima.forEach] in insertion order *)
Definition formatPeaks (mm : Minima) : list IRSpectrumPeak.t :=
  fold_left (fun labeledPeaks (e : IRKey * (R * R)) =>
      let '(key, (x, t)) := e in
      let assignment := fst key in
      if Rltb t irThreshold then
        if existsb (fun lp => Rltb (Rabs (IRSpectrumPeak.wavenumber lp - x)) 15
                              && String.eqb (IRSpectrumPeak.assignment lp) assignment)
                   labeledPeaks
        then labeledPeaks
        else labeledPeaks ++ [IRSpectrumPeak.mk x t assignment]
      else labeledPeaks) mm [].

(** [Array.prototype.sort] with a numeric comparator. The sort is stable,
    and so is this insertion sort: an element is put before the first
    element that the comparator ranks strictly after it. *)
Section Sort.
Context {A : Type} (cmp : A -> A -> R).

Fixpoint insert_by (x : A) (l : list A) : list A :=
  match l with
  | [] => [x]
  | y :: l' => if Rlt_dec 0 (cmp y x) then x :: l else y :: insert_by x l'
  end.

Definition sort_by (l : list A) : list A := fold_left (fun acc x => insert_by x acc) l [].
End Sort.

Definition irByWavenumber (a b : IRSpectrumPeak.t) : R :=
  IRSpectrumPeak.wavenumber a - IRSpectrumPeak.wavenumber b.

(** the acetone label simplification ([{...p, assignment: ...}]) *)
Definition relabel (p : IRSpectrumPeak.t) (a : string) : IRSpectrumPeak.t :=
  IRSpectrumPeak.mk (IRSpectrumPeak.wavenumber p) (IRSpectrumPeak.transmittance p) a.

Definition simplifyLabel (p : IRSpectrumPeak.t) : IRSpectrumPeak.t :=
  let a := IRSpectrumPeak.assignment p in
  if includes a "C-C" then relabel p "C-C"
  else if includes a "CH3 bend" then relabel p "CH3"
  else if includes a "C=O" then relabel p "C=O"
  else if includes a "C-H" then relabel p "C-H"
  else p.

(** [Array.prototype.findIndex], [-1] when absent *)
Fixpoint findIndex {A : Type} (f : A -> bool) (l : list A) : Z :=
  match l with
  | [] => (-1)%Z
  | x :: l' => if f x then 0%Z else
                 match findIndex f l' with
                 | Z.neg _ => (-1)%Z
                 | i => (i + 1)%Z
                 end
  end.

(** [.filter((p, index, self) => index === self.findIndex(t => t.assignment === p.assignment))] *)
Definition firstOccurrences (self : list IRSpectrumPeak.t) : list IRSpectrumPeak.t :=
  map fst (filter (fun '(p, index) =>
                     Z.eqb (Z.of_nat index)
                       (findIndex (fun t => String.eqb (IRSpectrumPeak.assignment t)
                                                       (IRSpectrumPeak.assignment p)) self))
                  (combine self (seq 0 (List.length self)))).

Module IRSpectrumData.
Record t := mk {
  spectrum : list (R * R);
  peaks : list IRSpectrumPeak.t }.
End IRSpectrumData.

Definition simulateIRSpectrum (smiles : string) : M IRSpectrumData.t :=
  characteristicPeaks <- irAllPeaks smiles ;;
  acc <- irCurve characteristicPeaks (Z.to_nat irNumPoints) ;;
  let spectrum := fst acc in
  let labeledPeaks := sort_by irByWavenumber (formatPeaks (snd acc)) in
  if String.eqb smiles "CC(=O)C" then
    let simpleLabels := firstOccurrences (map simplifyLabel labeledPeaks) in
    ret (IRSpectrumData.mk spectrum (sort_by irByWavenumber simpleLabels))
  else ret (IRSpectrumData.mk spectrum labeledPeaks).

(* ------------------------------------------------------------------ *)
(** ** UV-Vis simulation *)

Module UVPoint.
Record t := mk { wavelength : R; absorbance : R }.
End UVPoint.

Module UVPeak.
Record t := mk { wavelength : R; absorbance : R; assignment : string; transition : string }.
End UVPeak.

Module UVSpectrumData.
Record t := mk { spectrum : list UVPoint.t; peaks : list UVPeak.t }.
End UVSpectrumData.

(** the objects of the [transitions] array *)
Module Transition.
Record t := mk { lambdaMax : R; intensity : R; width : R; type : string }.
End Transition.

Definition gaussianPeak (x x0 width amplitude : R) : R :=
  if Rle_dec width 0 then 0 else
  let exponent := - (x - x0) ^ 2 / (2 * width ^ 2) in
  amplitude * exp exponent.

Definition uvTransition (l dl i di w dw : R) (ty : string) : M Transition.t :=
  r1 <- random ;; r2 <- random ;; r3 <- random ;;
  ret (Transition.mk (l + r1 * dl) (i + r2 * di) (w + r3 * dw) ty).

Definition when_add (b : bool) (ts : list Transition.t) (m : M (list Transition.t))
  : M (list Transition.t) :=
  if b then (qs <- m ;; ret (ts ++ qs)) else ret ts.

(** "Define potential transitions" *)
Definition uvTransitions (f : MoleculeFeatures) : M (list Transition.t) :=
  ts <- when_add (hasAromatic f) []
          (t1 <- uvTransition 255 15 0.6 0.4 15 10 "π→π* (aromatic, B band)" ;;
           t2 <- uvTransition 205 15 0.8 0.5 12 8 "π→π* (aromatic, E band)" ;;
           ret [t1; t2]) ;;
  ts <- when_add (hasCarbonyl f) ts
          (t <- uvTransition 270 30 0.1 0.2 20 10 "n→π* (carbonyl)" ;; ret [t]) ;;
  ts <- when_add (hasEster f) ts
          (t <- uvTransition 205 10 0.3 0.2 15 5 "π→π* (ester)" ;; ret [t]) ;;
  ts <- when_add (hasAmide f) ts
          (t <- uvTransition 210 15 0.4 0.3 18 7 "π→π* (amide)" ;; ret [t]) ;;
  ts <- when_add (hasAlkene f) ts
          (t <- uvTransition 195 15 0.7 0.4 10 5 "π→π* (alkene)" ;; ret [t]) ;;
  ret ts.

Definition uvMinWavelength : R := 200.
Definition uvMaxWavelength : R := 800.
(** [(maxWavelength - minWavelength) * 2 + 1]: a point every 0.5 nm *)
Definition uvNumPoints : Z := ((800 - 200) * 2 + 1)%Z.
Definition uvStep : R := (uvMaxWavelength - uvMinWavelength) / (IZR uvNumPoints - 1).
Definition baselineAbsorbance : R := 0.03.
Definition uvNoiseAmplitude : R := 0.005.

Definition uvX (i : nat) : R := uvMinWavelength + INR i * uvStep.

(** the clamped absorbance at [x] given the noise draw [r] *)
Definition uvAbsorbance (ts : list Transition.t) (x r : R) : R :=
  let noise := (r - 0.5) * 2 * uvNoiseAmplitude in
  let absorbance := baselineAbsorbance + noise in
  let absorbance := fold_left (fun a tr => a + gaussianPeak x (Transition.lambdaMax tr)
                                                 (Transition.width tr) (Transition.intensity tr))
                              ts absorbance in
  Rmax 0 absorbance.

(** iterations [0 .. n-1] of the curve loop *)
Fixpoint uvCurve (ts : list Transition.t) (n : nat) : M (list UVPoint.t) :=
  match n with
  | O => ret []
  | S n' =>
      spectrum <- uvCurve ts n' ;;
      let wavelength := uvX n' in
      r <- random ;;
      ret (spectrum ++ [UVPoint.mk wavelength (uvAbsorbance ts wavelength r)])
  end.

(** the closest transition within twice its width; [None] is [Infinity] *)
Definition closestTransition (ts : list Transition.t) (x : R) : string :=
  fst (fold_left (fun (acc : string * option R) tr =>
                    let dist := Rabs (x - Transition.lambdaMax tr) in
                    if match snd acc with None => true | Some m => Rltb dist m end
                       && Rltb dist (Transition.width tr * 2)
                    then (Transition.type tr, Some dist) else acc)
                 ts ("Electronic transition", None)).

Definition uvThreshold : R := baselineAbsorbance + uvNoiseAmplitude * 3.

Definition defaultPoint : UVPoint.t := UVPoint.mk 0 0.

(** iteration [i] of the lambda-max loop *)
Definition uvPeakStep (ts : list Transition.t) (spectrum : list UVPoint.t)
  (identifiedPeaks : list UVPeak.t) (i : nat) : list UVPeak.t :=
  let prev := nth (i - 1) spectrum defaultPoint in
  let curr := nth i spectrum defaultPoint in
  let next := nth (i + 1) spectrum defaultPoint in
  if Rltb (UVPoint.absorbance prev) (UVPoint.absorbance curr)
     && Rltb (UVPoint.absorbance next) (UVPoint.absorbance curr)
     && Rltb uvThreshold (UVPoint.absorbance curr) then
    let closest := closestTransition ts (UVPoint.wavelength curr) in
    if existsb (fun p => Rltb (Rabs (UVPeak.wavelength p - UVPoint.wavelength curr)) 10)
               identifiedPeaks
    then identifiedPeaks
    else identifiedPeaks ++ [UVPeak.mk (UVPoint.wavelength curr) (UVPoint.absorbance curr)
                                       closest closest]
  else identifiedPeaks.

(** [for (let i = 1; i < spectrum.length - 1; i++)] *)
Definition uvFindPeaks (ts : list Transition.t) (spectrum : list UVPoint.t) : list UVPeak.t :=
  fold_left (uvPeakStep ts spectrum) (seq 1 (List.length spectrum - 2)) [].

Definition uvByWavelength (a b : UVPeak.t) : R := UVPeak.wavelength a - UVPeak.wavelength b.

Definition simulateUVSpectrum (smiles : string) : M UVSpectrumData.t :=
  transitions <- uvTransitions (analyzeMolecule smiles) ;;
  spectrum <- uvCurve transitions (Z.to_nat uvNumPoints) ;;
  ret (UVSpectrumData.mk spectrum
         (sort_by uvByWavelength (uvFindPeaks transitions spectrum))).

(* ------------------------------------------------------------------ *)
(** ** NMR simulation *)

Module NMRPeak.
Record t := mk {
  shift : R;
  intensity : R;
  multiplicity : string;
  assignment : string;
  coupling : option R;
  atomIds : option (list nat) }.
End NMRPeak.

Inductive Nucleus := H1 | C13.

(** the peak list and [atomIdCounter] *)
Definition NMRState : Type := (list NMRPeak.t * nat)%type.

(** [peaks.push({ shift: s + Math.random() * ds, intensity: i + Math.random() * di,
    multiplicity, assignment, atomIds: [++atomIdCounter] })] *)
Definition nmrPush (s ds i di : R) (mult a : string) (st : NMRState) : M NMRState :=
  r1 <- random ;; r2 <- random ;;
  let c := S (snd st) in
  ret (fst st ++ [NMRPeak.mk (s + r1 * ds) (i + r2 * di) mult a None (Some [c])], c).

Definition nmrWhen (b : bool) (m : NMRState -> M NMRState) (st : NMRState) : M NMRState :=
  if b then m st else ret st.

Definition protonPeaks (smiles : string) (f : MoleculeFeatures) : M (list NMRPeak.t) :=
  st <- nmrWhen (hasAromatic f) (nmrPush 7.2 1.3 0.5 0.5 "m" "Aromatic H") ([], 0%nat) ;;
  st <- nmrWhen (hasAlkene f) (nmrPush 5.5 1.0 0.4 0.4 "m" "Alkene H") st ;;
  st <- nmrWhen (hasKetoneAldehyde f && (includes smiles "C(=O)H" || includes smiles "C=O)H"))
                (nmrPush 9.5 0.5 0.3 0.3 "s" "Aldehyde H") st ;;
  st <- nmrWhen (hasCOOH f) (nmrPush 10.0 2.0 0.2 0.2 "bs" "Acid OH") st ;;
  st <- nmrWhen (hasOH f) (nmrPush 3.0 2.5 0.2 0.3 "bs" "Alcohol/Phenol OH") st ;;
  st <- nmrWhen (hasNH f) (nmrPush 2.0 3.0 0.2 0.3 "bs" "Amine NH") st ;;
  st <- nmrWhen (hasAmideNH f) (nmrPush 6.0 2.5 0.2 0.3 "bs" "Amide NH") st ;;
  st <- nmrWhen (hasCarbonyl f || hasEther f || hasOH f)
                (nmrPush 2.2 1.8 0.6 0.4 "m" "H alpha to heteroatom/C=O") st ;;
  st <- nmrWhen (hasSp3CH f)
                (fun st => st <- nmrPush 1.3 0.8 0.8 0.2 "m" "Aliphatic CHx" st ;;
                           nmrPush 0.9 0.4 1.0 0.3 "m" "Aliphatic CHx (upfield)" st) st ;;
  (* Acetone Specific Example: [peaks.length = 0] then one curated peak *)
  if String.eqb smiles "CC(=O)C" then
    r <- random ;;
    ret [NMRPeak.mk (2.1 + (r - 0.5) * 0.1) 1.0 "s" "CH3" None (Some [1%nat; 2%nat])]
  else ret (fst st).

(** the carbonyl carbon: [shift] and [assignment] chosen by sub-type *)
Definition carbonylCarbon (f : MoleculeFeatures) (st : NMRState) : M NMRState :=
  sa <- (if hasKetoneAldehyde f then (r <- random ;; ret (195 + r * 15, "C=O (Ketone/Aldehyde)"))
         else if hasEster f then (r <- random ;; ret (165 + r * 15, "C=O (Ester)"))
         else if hasAmide f then (r <- random ;; ret (160 + r * 15, "C=O (Amide)"))
         else if hasCOOH f then (r <- random ;; ret (170 + r * 15, "C=O (Acid)"))
         else ret (170, "Carbonyl C")) ;;
  r2 <- random ;;
  let c := S (snd st) in
  ret (fst st ++ [NMRPeak.mk (fst sa) (0.3 + r2 * 0.2) "s" (snd sa) None (Some [c])], c).

Definition carbonPeaks (smiles : string) (f : MoleculeFeatures) : M (list NMRPeak.t) :=
  st <- nmrWhen (hasCarbonyl f) (carbonylCarbon f) ([], 0%nat) ;;
  st <- nmrWhen (hasAromatic f)
                (fun st => st <- nmrPush 128 20 0.6 0.3 "s" "Aromatic C" st ;;
                           nmrPush 115 15 0.5 0.3 "s" "Aromatic C" st) st ;;
  st <- nmrWhen (hasAlkene f) (nmrPush 110 30 0.5 0.3 "s" "Alkene C=C") st ;;
  st <- nmrWhen (hasAlkyne f) (nmrPush 70 20 0.4 0.3 "s" "Alkyne C#C") st ;;
  st <- nmrWhen (hasOH f || hasEther f || hasEster f) (nmrPush 55 25 0.7 0.2 "s" "C-O") st ;;
  st <- nmrWhen (hasNH f || hasAmide f) (nmrPush 40 20 0.6 0.2 "s" "C-N") st ;;
  st <- nmrWhen (hasSp3CH f)
                (fun st => st <- nmrPush 25 20 0.9 0.1 "s" "Aliphatic C" st ;;
                           nmrPush 15 10 1.0 0.1 "s" "Aliphatic C (upfield)" st) st ;;
  if String.eqb smiles "CC(=O)C" then
    r1 <- random ;; r2 <- random ;;
    ret [NMRPeak.mk (206 + (r1 - 0.5) * 2) 0.4 "s" "C=O" None (Some [1%nat]);
         NMRPeak.mk (30 + (r2 - 0.5) * 1) 1.0 "s" "CH3" None (Some [2%nat; 3%nat])]
  else ret (fst st).

Definition nmrByShiftDesc (a b : NMRPeak.t) : R := NMRPeak.shift b - NMRPeak.shift a.

Definition simulateNMRSpectrum (smiles : string) (type : Nucleus) : M (list NMRPeak.t) :=
  let features := analyzeMolecule smiles in
  peaks <- (match type with
            | H1 => protonPeaks smiles features
            | C13 => carbonPeaks smiles features
            end) ;;
  ret (sort_by nmrByShiftDesc peaks).

(* ------------------------------------------------------------------ *)
(** ** The chart components that call the simulator

    The IR, UV-Vis and NMR components turn a simulation result into SVG
    coordinates. Only the numbers are modelled: the path strings built with
    [toFixed(2)] and the JSX around them are not. *)

(** [Math.ceil] *)
Definition Math_ceil (x : R) : Z := (- Math_floor (- x))%Z.

(** the [padding] objects *)
Record Padding := { top : R; right : R; bottom : R; left : R }.

(** the IR component (IRSpectrum): reversed wavenumber axis *)
Module IRChart.
Definition width : R := 800.
Definition height : R := 450.
Definition padding : Padding := {| top := 50; right := 40; bottom := 60; left := 60 |}.
Definition chartWidth : R := width - left padding - right padding.
Definition chartHeight : R := height - top padding - bottom padding.
Definition xMin : R := 400.
Definition xMax : R := 4000.
Definition xRange : R := xMax - xMin.
Definition yMin : R := 0.
Definition yMax : R := 100.
Definition yRange : R := yMax - yMin.
Definition getX (wavenumber : R) : R :=
  left padding + chartWidth * (1 - (wavenumber - xMin) / xRange).
Definition getY (transmittance : R) : R :=
  top padding + chartHeight * (1 - (transmittance - yMin) / yRange).
(** the coordinates of the points of [linePath] *)
Definition linePoints (d : IRSpectrumData.t) : list (R * R) :=
  map (fun '(wavenumber, transmittance) => (getX wavenumber, getY transmittance))
      (IRSpectrumData.spectrum d).
(** [renderedPeaks]: each peak with its [x] and [y] *)
Definition renderedPeaks (d : IRSpectrumData.t) : list (IRSpectrumPeak.t * R * R) :=
  map (fun peak => (peak, getX (IRSpectrumPeak.wavenumber peak),
                    getY (IRSpectrumPeak.transmittance peak)))
      (IRSpectrumData.peaks d).
(** the chart is drawn, not the "Could not generate" placeholder *)
Definition drawsChart (d : IRSpectrumData.t) : bool :=
  negb (Nat.eqb (List.length (IRSpectrumData.spectrum d)) 0).
End IRChart.

(** the UV-Vis component (UVSpectrum): the absorbance axis is scaled to the
    data *)
Module UVChart.
Definition width : R := 800.
Definition height : R := 450.
Definition padding : Padding := {| top := 50; right := 40; bottom := 85; left := 60 |}.
Definition chartWidth : R := width - left padding - right padding.
Definition chartHeight : R := height - top padding - bottom padding.
Definition xMin : R := 200.
Definition xMax : R := 800.
Definition xRange : R := xMax - xMin.
Definition yMin : R := 0.
(** [Math.max(...spectrum.map(p => p.absorbance), 0.1)] *)
Definition calculatedYMax (spectrum : list UVPoint.t) : R :=
  fold_right Rmax 0.1 (map UVPoint.absorbance spectrum).
(** [Math.ceil(calculatedYMax * 1.2 * 10) / 10] *)
Definition yMax (spectrum : list UVPoint.t) : R :=
  IZR (Math_ceil (calculatedYMax spectrum * 1.2 * 10)) / 10.
Definition yRange (spectrum : list UVPoint.t) : R := yMax spectrum - yMin.
Definition getX (wavelength : R) : R :=
  left padding + chartWidth * ((wavelength - xMin) / xRange).
Definition getY (spectrum : list UVPoint.t) (absorbance : R) : R :=
  top padding + chartHeight * (1 - (absorbance - yMin) / yRange spectrum).
Definition linePoints (d : UVSpectrumData.t) : list (R * R) :=
  map (fun point => (getX (UVPoint.wavelength point),
                     getY (UVSpectrumData.spectrum d) (UVPoint.absorbance point)))
      (UVSpectrumData.spectrum d).
(** the filter of [renderedPeaks] ("Ensure within plot bounds") *)
Definition inPlot (peak : UVPeak.t) : bool :=
  Rleb xMin (UVPeak.wavelength peak) && Rleb (UVPeak.wavelength peak) xMax
  && Rltb yMin (UVPeak.absorbance peak).
Definition renderedPeaks (d : UVSpectrumData.t) : list (UVPeak.t * R * R) :=
  map (fun peak => (peak, getX (UVPeak.wavelength peak),
                    getY (UVSpectrumData.spectrum d) (UVPeak.absorbance peak)))
      (filter inPlot (UVSpectrumData.peaks d)).
Definition drawsChart (d : UVSpectrumData.t) : bool :=
  negb (Nat.eqb (List.length (UVSpectrumData.spectrum d)) 0).
End UVChart.

(** the NMR component (NMRSpectrum): a curve rebuilt from the peak list *)
Module NMRChart.
Definition width : R := 800.
Definition height : R := 450.
Definition padding : Padding := {| top := 50; right := 40; bottom := 60; left := 60 |}.
Definition chartWidth : R := width - left padding - right padding.
Definition chartHeight : R := height - top padding - bottom padding.
Definition xMin (nmrType : Nucleus) : R := match nmrType with H1 => -0.5 | C13 => -10 end.
Definition xMax (nmrType : Nucleus) : R := match nmrType with H1 => 12.5 | C13 => 220 end.
Definition xRange (nmrType : Nucleus) : R := xMax nmrType - xMin nmrType.
Definition yMin : R := 0.
Definition yMax : R := 1.05.
Definition yRange : R := yMax - yMin.
Definition resolution : nat := 1000.
Definition peakWidth (nmrType : Nucleus) : R := match nmrType with H1 => 0.02 | C13 => 0.5 end.

(** [totalIntensityAtPoint] *)
Definition totalIntensityAt (nmrType : Nucleus) (peakData : list NMRPeak.t) (x : R) : R :=
  fold_left (fun total peak =>
               let distance := Rabs (x - NMRPeak.shift peak) in
               total + NMRPeak.intensity peak / (1 + (distance / peakWidth nmrType) ^ 2))
            peakData 0.

(** [curvePoints], for [i = 0 .. resolution] *)
Definition curvePoints (nmrType : Nucleus) (peakData : list NMRPeak.t) : list (R * R) :=
  map (fun i => let currentShift := xMin nmrType + INR i * (xMax nmrType - xMin nmrType)
                                                    / INR resolution in
                (currentShift, totalIntensityAt nmrType peakData currentShift))
      (seq 0 (S resolution)).

(** [maxYValue]: [0], raised by every larger point *)
Definition maxOf (pts : list (R * R)) : R :=
  fold_left (fun m pt => if Rltb m (snd pt) then snd pt else m) pts 0.

(** the curve is only computed for a non-empty peak list (after loading) *)
Definition maxYValue (nmrType : Nucleus) (peakData : list NMRPeak.t) : R :=
  match peakData with
  | [] => 0
  | _ => maxOf (curvePoints nmrType peakData)
  end.

Definition getX (nmrType : Nucleus) (shift : R) : R :=
  left padding + chartWidth * (1 - (shift - xMin nmrType) / xRange nmrType).

(** a point of [svgPoints] *)
Definition svgPoint (nmrType : Nucleus) (maxY : R) (point : R * R) : R * R :=
  let normalizedY := Rmin 1.0 (snd point / maxY) in
  (left padding + chartWidth * (1 - (fst point - xMin nmrType) / xRange nmrType),
   top padding + chartHeight * (1 - normalizedY / yRange)).

(** the points of [linePath] between the two baseline ends, when
    [maxYValue > 0]; [None] when the path stays the baseline *)
Definition svgPoints (nmrType : Nucleus) (peakData : list NMRPeak.t) : option (list (R * R)) :=
  let maxY := maxYValue nmrType peakData in
  if Rltb 0 maxY then Some (map (svgPoint nmrType maxY) (curvePoints nmrType peakData))
  else None.

(** a peak marker: [peakX] and the two ends [markerY1], [markerY2] *)
Definition marker (nmrType : Nucleus) (maxY : R) (peak : NMRPeak.t) : R * R * R :=
  let peakX := getX nmrType (NMRPeak.shift peak) in
  let normalizedPeakY := Rmin 1.0 (NMRPeak.intensity peak / (if Rltb 0 maxY then maxY else 1)) in
  (peakX, top padding + chartHeight * (1 - normalizedPeakY / yRange),
   top padding + chartHeight).
End NMRChart.

(* ================================================================== *)
(** * Predicates used in the statements below *)

Definition singlet (p : NMRPeak.t) : Prop :=
  NMRPeak.multiplicity p = "s" /\ NMRPeak.coupling p = None.

(** IR de-duplication: a labelled peak is only added when no peak with the
    same label lies within 15 cm-1 of it. *)
Definition irApart (a b : IRSpectrumPeak.t) : Prop :=
  IRSpectrumPeak.assignment a = IRSpectrumPeak.assignment b ->
  15 <= Rabs (IRSpectrumPeak.wavenumber a - IRSpectrumPeak.wavenumber b).

Definition uvApart (a b : UVPeak.t) : Prop :=
  10 <= Rabs (UVPeak.wavelength a - UVPeak.wavelength b).

Definition windowOf (p : IRPeakInfo.t) : R := Rmax 5 (IRPeakInfo.width p / 3).

(** [m2] holds, at key [k], a value no larger than [m1] does *)
Definition better (k : IRKey) (m1 m2 : Minima) : Prop :=
  forall v, map_get k m1 = Some v -> exists v', map_get k m2 = Some v' /\ snd v' <= snd v.

(** every entry of the map comes from a peak of [ps] near whose center its
    wavenumber lies *)
Definition entriesOK (ps : list IRPeakInfo.t) (mm : Minima) : Prop :=
  forall k x t, In (k, (x, t)) mm ->
    exists q, In q ps /\ irKey q = k /\ Rabs (x - IRPeakInfo.wavenumber q) < windowOf q.

Definition trackBody (x t : R) (mm : Minima) (p : IRPeakInfo.t) : Minima :=
  let checkWindow := Rmax 5 (IRPeakInfo.width p / 3) in
  if Rltb (Rabs (x - IRPeakInfo.wavenumber p)) checkWindow then
    let key := irKey p in
    match map_get key mm with
    | None => map_set key (x, t) mm
    | Some (_, t0) => if Rltb t t0 then map_set key (x, t) mm else mm
    end
  else mm.

(** after [k] samples: the map's keys are distinct, its entries are near
    their peak's center, and each sample [j] bounds the entry of every peak
    whose window contains it *)
Definition curveInv (ps : list IRPeakInfo.t) (k : nat) (acc : list (R * R) * Minima) : Prop :=
  NoDup (map fst (snd acc)) /\ entriesOK ps (snd acc) /\
  forall j, (j < k)%nat -> exists r1 r2, 0 <= r1 < 1 /\
    forall p, In p ps -> Rabs (irX j - IRPeakInfo.wavenumber p) < windowOf p ->
      exists v, map_get (irKey p) (snd acc) = Some v /\
                snd v <= irTransmittance ps (irX j) r1 r2.

Definition formatStep (labeledPeaks : list IRSpectrumPeak.t) (e : IRKey * (R * R))
  : list IRSpectrumPeak.t :=
  let '(key, (x, t)) := e in
  let assignment := fst key in
  if Rltb t irThreshold then
    if existsb (fun lp => Rltb (Rabs (IRSpectrumPeak.wavenumber lp - x)) 15
                          && String.eqb (IRSpectrumPeak.assignment lp) assignment)
               labeledPeaks
    then labeledPeaks
    else labeledPeaks ++ [IRSpectrumPeak.mk x t assignment]
  else labeledPeaks.

Definition countLabel (a : string) (l : list IRSpectrumPeak.t) : nat :=
  List.length (filter (fun lp => String.eqb (IRSpectrumPeak.assignment lp) a) l).

Definition fpSpec (q : IRPeakInfo.t) : Prop :=
  IRPeakInfo.assignment q = "Fingerprint region" /\
  600 <= IRPeakInfo.wavenumber q < 1350 /\
  45 <= IRPeakInfo.targetTransmittance q < 90 /\ 15 <= IRPeakInfo.width q < 30.

(** no entry of [ps] can make a fingerprint candidate "too close" *)
Definition farFromFingerprint (ps : list IRPeakInfo.t) : Prop :=
  forall p, In p ps -> 50 <= IRPeakInfo.targetTransmittance p \/
                       IRPeakInfo.wavenumber p <= 560 \/ 1390 <= IRPeakInfo.wavenumber p.

Definition acetoneFeatures : MoleculeFeatures := {|
  hasOH := true; hasCOOH := false; hasNH := false; hasAmideNH := false;
  hasCarbonyl := true; hasKetoneAldehyde := true; hasEster := false;
  hasAmide := false; hasEther := false; hasAlkene := false; hasAlkyne := false;
  hasAromatic := false; hasSp3CH := true; hasSp2CH := false |}.

Definition acetoneCO (q : IRPeakInfo.t) : Prop :=
  IRPeakInfo.assignment q = "C=O" /\ 1712.5 <= IRPeakInfo.wavenumber q <= 1717.5 /\
  5 <= IRPeakInfo.targetTransmittance q < 10 /\ 18 <= IRPeakInfo.width q < 23.

(** the [atomIds] of an NMR peak, none read as the empty list *)
Definition nmrIds (p : NMRPeak.t) : list nat :=
  match NMRPeak.atomIds p with Some l => l | None => [] end.

(** the ids handed out so far are [1 .. atomIdCounter], in order, and every
    peak has an id list *)
Definition idsInv (st : NMRState) : Prop :=
  flat_map nmrIds (fst st) = List.seq 1 (snd st) /\
  Forall (fun p => NMRPeak.atomIds p <> None) (fst st).

(** ** Feature detection on a few descriptors *)

Example analyze_acetone :
  analyzeMolecule "CC(=O)C" = {|
    hasOH := true; hasCOOH := false; hasNH := false; hasAmideNH := false;
    hasCarbonyl := true; hasKetoneAldehyde := true; hasEster := false;
    hasAmide := false; hasEther := false; hasAlkene := false; hasAlkyne := false;
    hasAromatic := false; hasSp3CH := true; hasSp2CH := false |}.
Proof. vm_compute. reflexivity. Qed.

Example analyze_S : analyzeMolecule "S" = noFeatures.
Proof. vm_compute. reflexivity. Qed.

Example analyze_ethanol :
  hasOH (analyzeMolecule "CCO") = true /\ hasEther (analyzeMolecule "CCOC") = true
  /\ hasAromatic (analyzeMolecule "c1ccccc1") = true
  /\ hasCOOH (analyzeMolecule "CC(=O)OH") = true /\ hasOH (analyzeMolecule "CC(=O)OH") = false
  /\ hasNH (analyzeMolecule "CCN") = true /\ hasAmideNH (analyzeMolecule "CC(=O)N") = true.
Proof. vm_compute. repeat split. Qed.

(* ================================================================== *)
(** * Generic facts *)

(** ** Reasoning about [M]: a property of the value a computation returns,
    for every random source satisfying [V] and every start index *)
Section Hoare.
Variable V : (nat -> R) -> Prop.

Definition holds {A : Type} (Q : A -> Prop) (m : M A) : Prop :=
  forall g n, V g -> Q (fst (m g n)).

Lemma holds_ret {A : Type} (Q : A -> Prop) (a : A) : Q a -> holds Q (ret a).
Proof. intros HQ g n _. exact HQ. Qed.

Lemma holds_bind {A B : Type} (P : A -> Prop) (Q : B -> Prop) (m : M A) (k : A -> M B) :
  holds P m -> (forall a, P a -> holds Q (k a)) -> holds Q (bind m k).
Proof.
  intros Hm Hk g n HV. unfold bind.
  destruct (m g n) as [a n'] eqn:E.
  apply Hk; [| exact HV].
  specialize (Hm g n HV). rewrite E in Hm. exact Hm.
Qed.

Lemma holds_conseq {A : Type} (P Q : A -> Prop) (m : M A) :
  holds P m -> (forall a, P a -> Q a) -> holds Q m.
Proof. intros Hm HPQ g n HV. apply HPQ, Hm, HV. Qed.

Lemma holds_random_any : holds (fun _ => True) random.
Proof. intros g n _. exact I. Qed.
End Hoare.

Lemma holds_random : holds valid_source (fun r => 0 <= r < 1) random.
Proof. intros g n HV. apply HV. Qed.

Lemma holds_weaken {A : Type} (Q : A -> Prop) (m : M A) :
  holds (fun _ => True) Q m -> holds valid_source Q m.
Proof. intros H g n _. apply H. exact I. Qed.

(** ** Sorting *)

Section SortFacts.
Context {A : Type} (cmp : A -> A -> R).

Lemma insert_by_perm (x : A) (l : list A) : Permutation.Permutation (insert_by cmp x l) (x :: l).
Proof.
  induction l as [| y l IH]; simpl; [reflexivity |].
  destruct (Rlt_dec 0 (cmp y x)); [reflexivity |].
  eapply Permutation.perm_trans; [apply Permutation.perm_skip, IH | apply Permutation.perm_swap].
Qed.

Lemma sort_by_perm_acc (l acc : list A) :
  Permutation.Permutation (fold_left (fun acc x => insert_by cmp x acc) l acc) (l ++ acc).
Proof.
  revert acc; induction l as [| x l IH]; intros acc; simpl; [reflexivity |].
  eapply Permutation.perm_trans; [apply IH |].
  eapply Permutation.perm_trans;
    [apply Permutation.Permutation_app_head, insert_by_perm |].
  apply Permutation.Permutation_sym, Permutation.Permutation_middle.
Qed.

Lemma sort_by_perm (l : list A) : Permutation.Permutation (sort_by cmp l) l.
Proof. unfold sort_by. rewrite <- (app_nil_r l) at 2. apply sort_by_perm_acc. Qed.

Lemma in_sort_by (x : A) (l : list A) : In x (sort_by cmp l) <-> In x l.
Proof.
  split; apply Permutation.Permutation_in;
    [apply sort_by_perm | apply Permutation.Permutation_sym, sort_by_perm].
Qed.

Variable key : A -> R.
Hypothesis cmp_key : forall a b, cmp a b = key a - key b.

Let le_key (a b : A) : Prop := key a <= key b.

Lemma insert_by_hd (y x : A) (l : list A) :
  HdRel le_key y l -> le_key y x -> HdRel le_key y (insert_by cmp x l).
Proof.
  intros Hl Hyx. destruct l as [| z l]; simpl.
  - constructor. exact Hyx.
  - destruct (Rlt_dec 0 (cmp z x)); constructor; [exact Hyx |].
    inversion Hl; assumption.
Qed.

Lemma insert_by_sorted (x : A) (l : list A) :
  Sorted le_key l -> Sorted le_key (insert_by cmp x l).
Proof.
  induction l as [| y l IH]; intros Hs; simpl.
  - repeat constructor.
  - destruct (Rlt_dec 0 (cmp y x)) as [Hlt | Hge].
    + constructor; [exact Hs |]. constructor. unfold le_key. rewrite cmp_key in Hlt. lra.
    + inversion Hs as [| ? ? Hs' Hhd]; subst.
      constructor; [apply IH, Hs' |].
      apply insert_by_hd; [exact Hhd |]. unfold le_key. rewrite cmp_key in Hge. lra.
Qed.

Lemma sort_by_sorted (l : list A) : Sorted (fun a b => key a <= key b) (sort_by cmp l).
Proof.
  unfold sort_by.
  assert (H : forall acc, Sorted le_key acc ->
                Sorted le_key (fold_left (fun acc x => insert_by cmp x acc) l acc)).
  { induction l as [| x l IH]; intros acc Hacc; simpl; [exact Hacc |].
    apply IH, insert_by_sorted, Hacc. }
  apply H. constructor.
Qed.
End SortFacts.

(** ** Pairwise properties of lists *)

Lemma ForallOrdPairs_app_one {A : Type} (P : A -> A -> Prop) (l : list A) (x : A) :
  ForallOrdPairs P l -> Forall (fun a => P a x) l -> ForallOrdPairs P (l ++ [x]).
Proof.
  induction l as [| a l IH]; intros Hl Hx; simpl.
  - repeat constructor.
  - inversion Hl as [| ? ? Ha Hl']; subst. inversion Hx as [| ? ? Hax Hx']; subst.
    constructor; [| apply IH; assumption].
    apply Forall_app; split; [exact Ha | constructor; [exact Hax | constructor]].
Qed.

Lemma ForallOrdPairs_perm {A : Type} (P : A -> A -> Prop) (l l' : list A) :
  (forall a b, P a b -> P b a) -> Permutation.Permutation l l' ->
  ForallOrdPairs P l -> ForallOrdPairs P l'.
Proof.
  intros Hsym Hp. induction Hp as [| x l l' Hp IH | x y l | l l' l'' _ IH1 _ IH2]; intros H.
  - constructor.
  - inversion H as [| ? ? Hx Hl]; subst. constructor; [| apply IH, Hl].
    rewrite Forall_forall in *. intros b Hb. apply Hx.
    apply (Permutation.Permutation_in _ (Permutation.Permutation_sym Hp) Hb).
  - inversion H as [| ? ? Hy Hl]; subst. inversion Hl as [| ? ? Hx Hl']; subst.
    inversion Hy as [| ? ? Hyx Hy']; subst.
    constructor; [constructor; [apply Hsym, Hyx | exact Hx] |].
    constructor; assumption.
  - apply IH2, IH1, H.
Qed.

Lemma ForallOrdPairs_filter {A : Type} (P : A -> A -> Prop) (f : A -> bool) (l : list A) :
  ForallOrdPairs P l -> ForallOrdPairs P (filter f l).
Proof.
  induction l as [| a l IH]; intros H; simpl; [constructor |].
  inversion H as [| ? ? Ha Hl]; subst.
  destruct (f a); [constructor |]; [| apply IH, Hl | apply IH, Hl].
  rewrite Forall_forall in *. intros b Hb. apply filter_In in Hb. apply Ha, Hb.
Qed.

Lemma ForallOrdPairs_map {A B : Type} (P : B -> B -> Prop) (f : A -> B) (l : list A) :
  ForallOrdPairs (fun a b => P (f a) (f b)) l -> ForallOrdPairs P (map f l).
Proof.
  induction l as [| a l IH]; intros H; simpl; [constructor |].
  inversion H as [| ? ? Ha Hl]; subst. constructor; [| apply IH, Hl].
  rewrite Forall_forall in *. intros b Hb. apply in_map_iff in Hb as [a' [<- Ha']].
  apply Ha, Ha'.
Qed.

Lemma ForallOrdPairs_impl {A : Type} (P Q : A -> A -> Prop) (l : list A) :
  (forall a b, P a b -> Q a b) -> ForallOrdPairs P l -> ForallOrdPairs Q l.
Proof.
  intros HPQ. induction l as [| a l IH]; intros H; [constructor |].
  inversion H as [| ? ? Ha Hl]; subst. constructor; [| apply IH, Hl].
  eapply Forall_impl; [| exact Ha]. intros b. apply HPQ.
Qed.

(** ** Clamping *)

Lemma clamp_ir_bounds (t : R) : 0.1 <= Rmax 0.1 (Rmin 100 t) <= 100.
Proof. unfold Rmax, Rmin. destruct (Rle_dec 100 t), (Rle_dec 0.1 _); lra. Qed.

Lemma clamp_uv_nonneg (a : R) : 0 <= Rmax 0 a.
Proof. unfold Rmax. destruct (Rle_dec 0 a); lra. Qed.

(* ================================================================== *)
(** * Feature detection *)

(** C9: the detector never reports a carboxylic acid together with a
    generic hydroxyl, nor an amide together with a generic amine N-H. *)
Theorem analyzeMolecule_exclusive_flags (smiles : string) :
  let f := analyzeMolecule smiles in
  ~ (hasCOOH f = true /\ hasOH f = true) /\ ~ (hasAmide f = true /\ hasNH f = true).
Proof.
  unfold analyzeMolecule; cbv zeta.
  destruct (smiles =? "")%string; [simpl; split; intros [? ?]; discriminate |].
  destruct (includes smiles "C(=O)O" && (includes smiles "(=O)OH" || includes smiles "O=CO"));
  destruct (includes smiles "C(=O)N" || includes smiles "NC=O");
  simpl; split; intros [? ?]; discriminate.
Qed.

(* ================================================================== *)
(** * Lineshape *)

Lemma lorentzian_pos_width (x c fwhm a : R) :
  0 < fwhm -> lorentzianPeak x c fwhm a = a * ((fwhm / 2) ^ 2 / ((x - c) ^ 2 + (fwhm / 2) ^ 2)).
Proof.
  intros H. unfold lorentzianPeak.
  destruct (Rle_dec (fwhm / 2) 0); [lra |].
  destruct (Req_EM_T ((x - c) ^ 2 + (fwhm / 2) ^ 2) 0) as [E |]; [| reflexivity].
  exfalso. assert (0 < (fwhm / 2) ^ 2) by (apply pow_lt; lra).
  assert (0 <= (x - c) ^ 2) by (apply pow2_ge_0). lra.
Qed.

Lemma lorentzian_nonpos_width (x c fwhm a : R) :
  fwhm <= 0 -> lorentzianPeak x c fwhm a = 0.
Proof.
  intros H. unfold lorentzianPeak. destruct (Rle_dec (fwhm / 2) 0); [reflexivity | lra].
Qed.

(** C8 (amended): with [gamma = fwhm/2], the Lorentzian returns
    [amplitude * gamma^2 / ((x-center)^2 + gamma^2)] when [fwhm > 0] and [0]
    when [fwhm <= 0]; for [fwhm > 0] and a non-zero amplitude it returns the
    full amplitude exactly when [x = center]. *)
Theorem lorentzian_spec (x center fwhm amplitude : R) :
  (0 < fwhm -> lorentzianPeak x center fwhm amplitude
               = amplitude * ((fwhm / 2) ^ 2 / ((x - center) ^ 2 + (fwhm / 2) ^ 2))) /\
  (fwhm <= 0 -> lorentzianPeak x center fwhm amplitude = 0) /\
  (0 < fwhm -> amplitude <> 0 ->
     (lorentzianPeak x center fwhm amplitude = amplitude <-> x = center)).
Proof.
  split; [apply lorentzian_pos_width |].
  split; [apply lorentzian_nonpos_width |].
  intros Hw Ha. rewrite lorentzian_pos_width by exact Hw.
  set (g2 := (fwhm / 2) ^ 2).
  assert (Hg : 0 < g2) by (apply pow_lt; lra).
  assert (Hd : 0 <= (x - center) ^ 2) by apply pow2_ge_0.
  split.
  - intros E.
    assert (E' : g2 / ((x - center) ^ 2 + g2) = 1).
    { apply (Rmult_eq_reg_l amplitude); [lra | exact Ha]. }
    assert (E2 : (x - center) ^ 2 = 0).
    { unfold Rdiv in E'. apply (Rmult_eq_compat_r ((x - center) ^ 2 + g2)) in E'.
      rewrite Rmult_assoc, Rinv_l in E' by lra. lra. }
    assert (E3 : (x - center) * (x - center) = 0) by (simpl in E2; lra).
    apply Rmult_integral in E3. lra.
  - intros ->. replace ((center - center) ^ 2 + g2) with g2 by ring.
    unfold Rdiv. rewrite Rinv_r by lra. ring.
Qed.

Lemma lorentzian_spec_witness :
  0 < 2 /\ (1 : R) <> 0 /\ lorentzianPeak 0 0 2 1 = 1.
Proof.
  split; [lra |]. split; [lra |].
  destruct (lorentzian_spec 0 0 2 1) as [_ [_ H]].
  apply H; lra.
Defined.

(** C8 as stated is false: at [x = 1], [center = 0], [fwhm = 2] and
    [amplitude = 0] the function returns the full (zero) amplitude although
    [x <> center]. *)
Lemma lorentzian_full_amplitude_off_center :
  lorentzianPeak 1 0 2 0 = 0 /\ (1 : R) <> 0.
Proof.
  split; [rewrite lorentzian_pos_width by lra; ring | lra].
Qed.

(* ================================================================== *)
(** * Shape of the results *)

Lemma simulateIRSpectrum_eq (smiles : string) (g : nat -> R) (n : nat) :
  exists ps n1 acc n2,
    irAllPeaks smiles g n = (ps, n1) /\
    irCurve ps (Z.to_nat irNumPoints) g n1 = (acc, n2) /\
    fst (simulateIRSpectrum smiles g n) =
      IRSpectrumData.mk (fst acc)
        (if String.eqb smiles "CC(=O)C"
         then sort_by irByWavenumber
                (firstOccurrences (map simplifyLabel
                                     (sort_by irByWavenumber (formatPeaks (snd acc)))))
         else sort_by irByWavenumber (formatPeaks (snd acc))).
Proof.
  unfold simulateIRSpectrum, bind.
  destruct (irAllPeaks smiles g n) as [ps n1] eqn:E1.
  destruct (irCurve ps (Z.to_nat irNumPoints) g n1) as [acc n2] eqn:E2.
  exists ps, n1, acc, n2. split; [reflexivity | split; [exact E2 |]].
  destruct (String.eqb smiles "CC(=O)C"); reflexivity.
Qed.

Lemma simulateUVSpectrum_eq (smiles : string) (g : nat -> R) (n : nat) :
  exists ts n1 sp n2,
    uvTransitions (analyzeMolecule smiles) g n = (ts, n1) /\
    uvCurve ts (Z.to_nat uvNumPoints) g n1 = (sp, n2) /\
    fst (simulateUVSpectrum smiles g n) =
      UVSpectrumData.mk sp (sort_by uvByWavelength (uvFindPeaks ts sp)).
Proof.
  unfold simulateUVSpectrum, bind.
  destruct (uvTransitions (analyzeMolecule smiles) g n) as [ts n1] eqn:E1.
  destruct (uvCurve ts (Z.to_nat uvNumPoints) g n1) as [sp n2] eqn:E2.
  exists ts, n1, sp, n2. split; [reflexivity | split; [exact E2 | reflexivity]].
Qed.

Lemma simulateNMRSpectrum_eq (smiles : string) (type : Nucleus) (g : nat -> R) (n : nat) :
  fst (simulateNMRSpectrum smiles type g n) =
  sort_by nmrByShiftDesc
    (fst (match type with
          | H1 => protonPeaks smiles (analyzeMolecule smiles)
          | C13 => carbonPeaks smiles (analyzeMolecule smiles)
          end g n)).
Proof.
  unfold simulateNMRSpectrum, bind. cbv zeta.
  destruct (match type with
            | H1 => protonPeaks smiles (analyzeMolecule smiles)
            | C13 => carbonPeaks smiles (analyzeMolecule smiles)
            end g n); reflexivity.
Qed.

(* ================================================================== *)
(** * NMR *)

Ltac chain I := eapply (holds_bind _ I); [| intros ?st ?Hst].

Section NMRInvariant.
Variable V : (nat -> R) -> Prop.
Variable P : NMRPeak.t -> Prop.
Let I (st : NMRState) : Prop := Forall P (fst st).

Lemma nmrPush_keeps (s ds i di : R) (mult a : string) (st : NMRState) :
  (forall r1 r2 c, P (NMRPeak.mk (s + r1 * ds) (i + r2 * di) mult a None (Some [c]))) ->
  I st -> holds V I (nmrPush s ds i di mult a st).
Proof.
  intros Hp Hst g n _. unfold nmrPush, bind, random, ret, I in *. simpl.
  apply Forall_app. split; [exact Hst | constructor; [apply Hp | constructor]].
Qed.

Lemma nmrWhen_keeps (b : bool) (m : NMRState -> M NMRState) (st : NMRState) :
  (forall st, I st -> holds V I (m st)) -> I st -> holds V I (nmrWhen b m st).
Proof. intros Hm Hst. unfold nmrWhen. destruct b; [apply Hm, Hst | apply holds_ret, Hst]. Qed.
End NMRInvariant.

Lemma carbonPeaks_singlets (smiles : string) (f : MoleculeFeatures) :
  holds (fun _ => True) (Forall singlet) (carbonPeaks smiles f).
Proof.
  assert (Hs : forall s ds i di a, forall r1 r2 c,
             singlet (NMRPeak.mk (s + r1 * ds) (i + r2 * di) "s" a None (Some [c])))
    by (intros; split; reflexivity).
  unfold carbonPeaks.
  chain (fun st : NMRState => Forall singlet (fst st)).
  { apply nmrWhen_keeps; [| constructor].
    intros st Hst g n _. unfold carbonylCarbon, bind, random, ret.
    destruct (hasKetoneAldehyde f); [| destruct (hasEster f);
      [| destruct (hasAmide f); [| destruct (hasCOOH f)]]];
    simpl; apply Forall_app; (split; [exact Hst | repeat constructor]). }
  chain (fun st : NMRState => Forall singlet (fst st)).
  { apply nmrWhen_keeps; [| exact Hst]. intros st' Hst'.
    chain (fun st : NMRState => Forall singlet (fst st)); [apply nmrPush_keeps; auto |].
    apply nmrPush_keeps; auto. }
  chain (fun st : NMRState => Forall singlet (fst st));
    [apply nmrWhen_keeps; [intros; apply nmrPush_keeps; auto | exact Hst0] |].
  chain (fun st : NMRState => Forall singlet (fst st));
    [apply nmrWhen_keeps; [intros; apply nmrPush_keeps; auto | exact Hst1] |].
  chain (fun st : NMRState => Forall singlet (fst st));
    [apply nmrWhen_keeps; [intros; apply nmrPush_keeps; auto | exact Hst2] |].
  chain (fun st : NMRState => Forall singlet (fst st));
    [apply nmrWhen_keeps; [intros; apply nmrPush_keeps; auto | exact Hst3] |].
  chain (fun st : NMRState => Forall singlet (fst st)).
  { apply nmrWhen_keeps; [| exact Hst4]. intros st' Hst'.
    chain (fun st : NMRState => Forall singlet (fst st)); [apply nmrPush_keeps; auto |].
    apply nmrPush_keeps; auto. }
  destruct (String.eqb smiles "CC(=O)C").
  - chain (fun _ : R => True); [apply holds_random_any |].
    chain (fun _ : R => True); [apply holds_random_any |].
    apply holds_ret. repeat constructor.
  - apply holds_ret. exact Hst5.
Qed.

(** C10: every peak of the 13C strategy is a singlet ("s") without a
    coupling constant, for every descriptor and every random source. *)
Theorem carbon13_all_singlets (smiles : string) (g : nat -> R) (n : nat) :
  Forall (fun p => NMRPeak.multiplicity p = "s" /\ NMRPeak.coupling p = None)
         (fst (simulateNMRSpectrum smiles C13 g n)).
Proof.
  rewrite simulateNMRSpectrum_eq.
  pose proof (carbonPeaks_singlets smiles (analyzeMolecule smiles) g n I) as H.
  rewrite Forall_forall in *. intros p Hp. apply in_sort_by in Hp. apply H, Hp.
Qed.

(** C4: for ["CC(=O)C"] and the 1H nucleus the result is exactly one peak,
    labelled "CH3", a singlet, with shift in [2.0, 2.2] ppm. *)
Theorem acetone_proton_nmr (g : nat -> R) (n : nat) :
  valid_source g ->
  match fst (simulateNMRSpectrum "CC(=O)C" H1 g n) with
  | [p] => NMRPeak.assignment p = "CH3" /\ 2.0 <= NMRPeak.shift p <= 2.2
           /\ NMRPeak.multiplicity p = "s"
  | _ => False
  end.
Proof.
  intros Hg. rewrite simulateNMRSpectrum_eq, analyze_acetone.
  unfold protonPeaks, nmrWhen, nmrPush, bind, random, ret. simpl.
  set (r := g _). assert (Hr : 0 <= r < 1) by apply Hg.
  repeat split; lra.
Qed.

Lemma acetone_proton_nmr_witness :
  valid_source (fun _ => 0) /\
  match fst (simulateNMRSpectrum "CC(=O)C" H1 (fun _ => 0) 0%nat) with
  | [p] => NMRPeak.assignment p = "CH3" /\ 2.0 <= NMRPeak.shift p <= 2.2
           /\ NMRPeak.multiplicity p = "s"
  | _ => False
  end.
Proof.
  assert (Hv : valid_source (fun _ => 0)) by (intros k; lra).
  split; [exact Hv | apply (acetone_proton_nmr (fun _ => 0) 0%nat Hv)].
Defined.

(* ================================================================== *)
(** * Curves, ordering and de-duplication *)

Lemma Rltb_true (x y : R) : Rltb x y = true -> x < y.
Proof. unfold Rltb. destruct (Rlt_dec x y); [auto | discriminate]. Qed.

Lemma Rltb_false (x y : R) : Rltb x y = false -> y <= x.
Proof. unfold Rltb. destruct (Rlt_dec x y); [discriminate | intros _; lra]. Qed.

Lemma Rltb_true_iff (x y : R) : Rltb x y = true <-> x < y.
Proof.
  unfold Rltb. destruct (Rlt_dec x y); split; intros H; auto; try discriminate; lra.
Qed.

Lemma existsb_false_forall {A : Type} (f : A -> bool) (l : list A) :
  existsb f l = false -> forall x, In x l -> f x = false.
Proof.
  intros H x Hx. destruct (f x) eqn:E; [| reflexivity].
  rewrite <- H. symmetry. apply existsb_exists. exists x. auto.
Qed.

Lemma irCurve_clamped (ps : list IRPeakInfo.t) (k : nat) (g : nat -> R) (m : nat) :
  Forall (fun pt => 0.1 <= snd pt <= 100) (fst (fst (irCurve ps k g m))).
Proof.
  revert m; induction k as [| k IH]; intros m; simpl; [constructor |].
  unfold bind. specialize (IH m). destruct (irCurve ps k g m) as [acc m'].
  unfold irSample, bind, random, ret. simpl in *.
  apply Forall_app. split; [exact IH | constructor; [apply clamp_ir_bounds | constructor]].
Qed.

Lemma uvCurve_nonneg (ts : list Transition.t) (k : nat) (g : nat -> R) (m : nat) :
  Forall (fun pt => 0 <= UVPoint.absorbance pt) (fst (uvCurve ts k g m)).
Proof.
  revert m; induction k as [| k IH]; intros m; simpl; [constructor |].
  unfold bind. specialize (IH m). destruct (uvCurve ts k g m) as [sp m'].
  unfold random, ret. simpl in *.
  apply Forall_app. split; [exact IH | constructor; [apply clamp_uv_nonneg | constructor]].
Qed.

(** C5: every IR curve point has a transmittance in [0.1, 100] and every
    UV-Vis curve point a non-negative absorbance, for every descriptor and
    every random source. *)
Theorem curves_within_range (smiles : string) (g : nat -> R) (n : nat) :
  Forall (fun pt => 0.1 <= snd pt <= 100)
         (IRSpectrumData.spectrum (fst (simulateIRSpectrum smiles g n))) /\
  Forall (fun pt => 0 <= UVPoint.absorbance pt)
         (UVSpectrumData.spectrum (fst (simulateUVSpectrum smiles g n))).
Proof.
  split.
  - destruct (simulateIRSpectrum_eq smiles g n) as (ps & n1 & acc & n2 & _ & E2 & ->).
    simpl. pose proof (irCurve_clamped ps (Z.to_nat irNumPoints) g n1) as H.
    rewrite E2 in H. exact H.
  - destruct (simulateUVSpectrum_eq smiles g n) as (ts & n1 & sp & n2 & _ & E2 & ->).
    simpl. pose proof (uvCurve_nonneg ts (Z.to_nat uvNumPoints) g n1) as H.
    rewrite E2 in H. exact H.
Qed.

Lemma Sorted_impl {A : Type} (P Q : A -> A -> Prop) (l : list A) :
  (forall a b, P a b -> Q a b) -> Sorted P l -> Sorted Q l.
Proof.
  intros HPQ H. induction H as [| a l Hs IH Hhd]; constructor; [exact IH |].
  destruct Hhd; constructor. apply HPQ. assumption.
Qed.

Lemma nmr_sorted (l : list NMRPeak.t) :
  Sorted (fun a b => NMRPeak.shift b <= NMRPeak.shift a) (sort_by nmrByShiftDesc l).
Proof.
  eapply Sorted_impl;
    [| apply (sort_by_sorted nmrByShiftDesc (fun p => - NMRPeak.shift p))].
  - intros a b H. simpl in H. lra.
  - intros a b. unfold nmrByShiftDesc. ring.
Qed.

(** C6: NMR peak lists (both nuclei) are sorted by non-increasing shift; IR
    and UV-Vis peak lists by non-decreasing wavenumber / wavelength. *)
Theorem peak_lists_sorted (smiles : string) (g : nat -> R) (n : nat) :
  Sorted (fun a b => NMRPeak.shift b <= NMRPeak.shift a)
         (fst (simulateNMRSpectrum smiles H1 g n)) /\
  Sorted (fun a b => NMRPeak.shift b <= NMRPeak.shift a)
         (fst (simulateNMRSpectrum smiles C13 g n)) /\
  Sorted (fun a b => IRSpectrumPeak.wavenumber a <= IRSpectrumPeak.wavenumber b)
         (IRSpectrumData.peaks (fst (simulateIRSpectrum smiles g n))) /\
  Sorted (fun a b => UVPeak.wavelength a <= UVPeak.wavelength b)
         (UVSpectrumData.peaks (fst (simulateUVSpectrum smiles g n))).
Proof.
  split; [rewrite simulateNMRSpectrum_eq; apply nmr_sorted |].
  split; [rewrite simulateNMRSpectrum_eq; apply nmr_sorted |].
  split.
  - destruct (simulateIRSpectrum_eq smiles g n) as (ps & n1 & acc & n2 & _ & _ & ->).
    simpl. destruct (String.eqb smiles "CC(=O)C");
      apply (sort_by_sorted irByWavenumber IRSpectrumPeak.wavenumber); reflexivity.
  - destruct (simulateUVSpectrum_eq smiles g n) as (ts & n1 & sp & n2 & _ & _ & ->).
    apply (sort_by_sorted uvByWavelength UVPeak.wavelength); reflexivity.
Qed.

Lemma irApart_sym (a b : IRSpectrumPeak.t) : irApart a b -> irApart b a.
Proof. unfold irApart. intros H E. rewrite Rabs_minus_sym. apply H. auto. Qed.

Lemma formatPeaks_apart (mm : Minima) : ForallOrdPairs irApart (formatPeaks mm).
Proof.
  unfold formatPeaks.
  assert (H : forall acc, ForallOrdPairs irApart acc ->
            ForallOrdPairs irApart
              (fold_left (fun labeledPeaks (e : IRKey * (R * R)) =>
                  let '(key, (x, t)) := e in
                  let assignment := fst key in
                  if Rltb t irThreshold then
                    if existsb (fun lp => Rltb (Rabs (IRSpectrumPeak.wavenumber lp - x)) 15
                                          && String.eqb (IRSpectrumPeak.assignment lp) assignment)
                               labeledPeaks
                    then labeledPeaks
                    else labeledPeaks ++ [IRSpectrumPeak.mk x t assignment]
                  else labeledPeaks) mm acc)).
  { induction mm as [| [key [x t]] mm IH]; intros acc Hacc; simpl; [exact Hacc |].
    apply IH. destruct (Rltb t irThreshold); [| exact Hacc].
    destruct (existsb _ acc) eqn:E; [exact Hacc |].
    apply ForallOrdPairs_app_one; [exact Hacc |].
    rewrite Forall_forall. intros lp Hlp Heq.
    pose proof (existsb_false_forall _ _ E lp Hlp) as F. simpl in F, Heq.
    rewrite Heq, String.eqb_refl, andb_true_r in F. apply Rltb_false in F. exact F. }
  apply H. constructor.
Qed.

Lemma combine_seq_increasing {A : Type} (l : list A) (k m : nat) :
  ForallOrdPairs (fun x y : A * nat => (snd x < snd y)%nat) (combine l (seq k m)).
Proof.
  revert k m; induction l as [| a l IH]; intros k m; [constructor |].
  destruct m as [| m]; simpl; [constructor |].
  constructor; [| apply IH].
  rewrite Forall_forall. intros [b j] Hin. apply in_combine_r, in_seq in Hin. simpl. lia.
Qed.

Lemma ForallOrdPairs_with {A : Type} (P Q : A -> A -> Prop) (K : A -> Prop) (l : list A) :
  (forall a b, K a -> K b -> P a b -> Q a b) ->
  Forall K l -> ForallOrdPairs P l -> ForallOrdPairs Q l.
Proof.
  intros HPQ. induction l as [| a l IH]; intros HK H; [constructor |].
  inversion HK as [| ? ? Ka Kl]; subst. inversion H as [| ? ? Ha Hl]; subst.
  constructor; [| apply IH; assumption].
  rewrite Forall_forall in *. intros b Hb. apply HPQ; auto.
Qed.

Lemma firstOccurrences_distinct (self : list IRSpectrumPeak.t) :
  ForallOrdPairs (fun a b => IRSpectrumPeak.assignment a <> IRSpectrumPeak.assignment b)
                 (firstOccurrences self).
Proof.
  unfold firstOccurrences. apply ForallOrdPairs_map.
  set (keep := fun pi : IRSpectrumPeak.t * nat =>
                 let '(p, index) := pi in
                 Z.eqb (Z.of_nat index)
                   (findIndex (fun t => String.eqb (IRSpectrumPeak.assignment t)
                                                   (IRSpectrumPeak.assignment p)) self)).
  apply (ForallOrdPairs_with (fun x y => (snd x < snd y)%nat) _ (fun x => keep x = true)).
  - intros [p i] [q j] Kp Kq Hij Heq. simpl in *.
    apply Z.eqb_eq in Kp, Kq. rewrite <- Heq in Kq. rewrite <- Kq in Kp.
    apply Nat2Z.inj in Kp. lia.
  - rewrite Forall_forall. intros x Hx. apply filter_In in Hx. apply Hx.
  - apply ForallOrdPairs_filter, combine_seq_increasing.
Qed.

Lemma uvFindPeaks_apart (ts : list Transition.t) (sp : list UVPoint.t) :
  ForallOrdPairs uvApart (uvFindPeaks ts sp).
Proof.
  unfold uvFindPeaks.
  assert (H : forall is acc, ForallOrdPairs uvApart acc ->
                ForallOrdPairs uvApart (fold_left (uvPeakStep ts sp) is acc)).
  { induction is as [| i is IH]; intros acc Hacc; simpl; [exact Hacc |].
    apply IH. unfold uvPeakStep.
    destruct (_ && _ && _); [| exact Hacc].
    destruct (existsb _ acc) eqn:E; [exact Hacc |].
    apply ForallOrdPairs_app_one; [exact Hacc |].
    rewrite Forall_forall. intros p Hp.
    apply (existsb_false_forall _ _ E), Rltb_false in Hp. exact Hp. }
  apply H. constructor.
Qed.

(** C7: no two labelled IR peaks with the same label lie within 15 cm-1 of
    each other, and no two UV-Vis peaks with the same label lie within
    10 nm of each other ("within" is the strict distance of the code's
    de-duplication tests). *)
Theorem no_same_label_nearby (smiles : string) (g : nat -> R) (n : nat) :
  ForallOrdPairs (fun a b => IRSpectrumPeak.assignment a = IRSpectrumPeak.assignment b ->
                             15 <= Rabs (IRSpectrumPeak.wavenumber a - IRSpectrumPeak.wavenumber b))
                 (IRSpectrumData.peaks (fst (simulateIRSpectrum smiles g n))) /\
  ForallOrdPairs (fun a b => UVPeak.assignment a = UVPeak.assignment b ->
                             10 <= Rabs (UVPeak.wavelength a - UVPeak.wavelength b))
                 (UVSpectrumData.peaks (fst (simulateUVSpectrum smiles g n))).
Proof.
  split.
  - destruct (simulateIRSpectrum_eq smiles g n) as (ps & n1 & acc & n2 & _ & _ & ->).
    simpl. change (ForallOrdPairs irApart
      (if String.eqb smiles "CC(=O)C"
       then sort_by irByWavenumber (firstOccurrences (map simplifyLabel
              (sort_by irByWavenumber (formatPeaks (snd acc)))))
       else sort_by irByWavenumber (formatPeaks (snd acc)))).
    destruct (String.eqb smiles "CC(=O)C").
    + eapply ForallOrdPairs_perm;
        [apply irApart_sym | apply Permutation_sym, sort_by_perm |].
      eapply ForallOrdPairs_impl; [| apply firstOccurrences_distinct].
      intros a b Hne Heq. contradiction.
    + eapply ForallOrdPairs_perm;
        [apply irApart_sym | apply Permutation_sym, sort_by_perm | apply formatPeaks_apart].
  - destruct (simulateUVSpectrum_eq smiles g n) as (ts & n1 & sp & n2 & _ & _ & ->).
    simpl. eapply ForallOrdPairs_impl; [intros a b H _; exact H |].
    eapply ForallOrdPairs_perm;
      [| apply Permutation_sym, sort_by_perm | apply uvFindPeaks_apart].
    unfold uvApart. intros a b H. rewrite Rabs_minus_sym. exact H.
Qed.

(* ================================================================== *)
(** * IR minima tracking *)

(** ** The [Map] model *)

Lemma map_get_set_same (k : IRKey) (v : R * R) (m : Minima) : map_get k (map_set k v m) = Some v.
Proof.
  induction m as [| [k' v'] m IH]; simpl.
  - destruct (key_eq_dec k k); [reflexivity | contradiction].
  - destruct (key_eq_dec k k') as [-> |]; simpl.
    + destruct (key_eq_dec k' k'); [reflexivity | contradiction].
    + destruct (key_eq_dec k k'); [contradiction | exact IH].
Qed.

Lemma map_get_set_other (k k' : IRKey) (v : R * R) (m : Minima) :
  k' <> k -> map_get k' (map_set k v m) = map_get k' m.
Proof.
  intros Hne. induction m as [| [k0 v0] m IH]; simpl.
  - destruct (key_eq_dec k' k); [contradiction | reflexivity].
  - destruct (key_eq_dec k k0) as [-> |]; simpl.
    + destruct (key_eq_dec k' k0); [contradiction | reflexivity].
    + destruct (key_eq_dec k' k0); [reflexivity | exact IH].
Qed.

Lemma map_in_set (e : IRKey * (R * R)) (k : IRKey) (v : R * R) (m : Minima) :
  In e (map_set k v m) -> e = (k, v) \/ In e m.
Proof.
  induction m as [| [k0 v0] m IH]; simpl.
  - intros [<- | []]. auto.
  - destruct (key_eq_dec k k0) as [-> |]; simpl.
    + intros [<- | H]; auto.
    + intros [<- | H]; auto. destruct (IH H); auto.
Qed.

Lemma map_keys_set (k k' : IRKey) (v : R * R) (m : Minima) :
  In k' (map fst (map_set k v m)) -> k' = k \/ In k' (map fst m).
Proof.
  intros H. apply in_map_iff in H as [[k0 v0] [<- H]].
  destruct (map_in_set _ _ _ _ H) as [E | H'].
  - inversion E. auto.
  - right. apply in_map_iff. exists (k0, v0). auto.
Qed.

Lemma map_set_nodup (k : IRKey) (v : R * R) (m : Minima) :
  NoDup (map fst m) -> NoDup (map fst (map_set k v m)).
Proof.
  induction m as [| [k0 v0] m IH]; simpl; intros Hnd.
  - repeat constructor. auto.
  - inversion Hnd as [| ? ? Hnin Hnd']; subst.
    destruct (key_eq_dec k k0) as [-> |]; simpl; [constructor; assumption |].
    constructor; [| apply IH, Hnd'].
    intros Hin. apply map_keys_set in Hin as [-> | Hin]; [congruence | contradiction].
Qed.

Lemma map_get_in (k : IRKey) (v : R * R) (m : Minima) :
  NoDup (map fst m) -> In (k, v) m -> map_get k m = Some v.
Proof.
  induction m as [| [k0 v0] m IH]; simpl; intros Hnd Hin; [contradiction |].
  inversion Hnd as [| ? ? Hnin Hnd']; subst.
  destruct Hin as [E | Hin].
  - inversion E; subst. destruct (key_eq_dec k k); [reflexivity | contradiction].
  - destruct (key_eq_dec k k0) as [-> |]; [| apply IH; assumption].
    exfalso. apply Hnin. apply in_map_iff. exists (k0, v). auto.
Qed.

(** ** One pass of [trackMinima] *)

Lemma trackMinima_fold (ps : list IRPeakInfo.t) (x t : R) (mm : Minima) :
  trackMinima ps x t mm = fold_left (trackBody x t) ps mm.
Proof. reflexivity. Qed.

Lemma better_refl (k : IRKey) (m : Minima) : better k m m.
Proof. intros v H. exists v. split; [exact H | lra]. Qed.

Lemma better_trans (k : IRKey) (m1 m2 m3 : Minima) :
  better k m1 m2 -> better k m2 m3 -> better k m1 m3.
Proof.
  intros H12 H23 v Hv. destruct (H12 v Hv) as [v' [Hv' Hle]].
  destruct (H23 v' Hv') as [v'' [Hv'' Hle']]. exists v''. split; [exact Hv'' | lra].
Qed.

Lemma trackBody_better (x t : R) (mm : Minima) (p : IRPeakInfo.t) (k : IRKey) :
  better k mm (trackBody x t mm p).
Proof.
  unfold trackBody. destruct (Rltb _ _); [| apply better_refl].
  destruct (key_eq_dec k (irKey p)) as [-> | Hne].
  - destruct (map_get (irKey p) mm) as [[x0 t0] |] eqn:E.
    + destruct (Rltb t t0) eqn:Et; [| apply better_refl].
      intros v Hv. rewrite E in Hv. inversion Hv; subst.
      exists (x, t). rewrite map_get_set_same. apply Rltb_true in Et. simpl. split; [reflexivity | lra].
    + intros v Hv. rewrite E in Hv. discriminate.
  - destruct (map_get (irKey p) mm) as [[x0 t0] |];
      [destruct (Rltb t t0) |];
      try apply better_refl;
      intros v Hv; exists v; rewrite map_get_set_other by exact Hne; split; auto; lra.
Qed.

Lemma fold_trackBody_better (x t : R) (l : list IRPeakInfo.t) (mm : Minima) (k : IRKey) :
  better k mm (fold_left (trackBody x t) l mm).
Proof.
  revert mm; induction l as [| p l IH]; intros mm; simpl; [apply better_refl |].
  eapply better_trans; [apply trackBody_better | apply IH].
Qed.

Lemma trackBody_hit (x t : R) (mm : Minima) (p : IRPeakInfo.t) :
  Rabs (x - IRPeakInfo.wavenumber p) < windowOf p ->
  exists v, map_get (irKey p) (trackBody x t mm p) = Some v /\ snd v <= t.
Proof.
  intros Hn. unfold trackBody. unfold windowOf in Hn.
  replace (Rltb _ _) with true by (symmetry; apply Rltb_true_iff; exact Hn).
  destruct (map_get (irKey p) mm) as [[x0 t0] |] eqn:E.
  - destruct (Rltb t t0) eqn:Et.
    + exists (x, t). rewrite map_get_set_same. simpl. split; [reflexivity | lra].
    + exists (x0, t0). apply Rltb_false in Et. simpl. split; [exact E | exact Et].
  - exists (x, t). rewrite map_get_set_same. simpl. split; [reflexivity | lra].
Qed.

Lemma fold_trackBody_hit (x t : R) (l : list IRPeakInfo.t) (mm : Minima) (p : IRPeakInfo.t) :
  In p l -> Rabs (x - IRPeakInfo.wavenumber p) < windowOf p ->
  exists v, map_get (irKey p) (fold_left (trackBody x t) l mm) = Some v /\ snd v <= t.
Proof.
  revert mm; induction l as [| q l IH]; intros mm Hin Hn; [contradiction |].
  simpl. destruct Hin as [E | Hin]; [subst q | apply IH; assumption].
  destruct (trackBody_hit x t mm p Hn) as [v [Hv Hle]].
  destruct (fold_trackBody_better x t l (trackBody x t mm p) (irKey p) v Hv) as [v' [Hv' Hle']].
  exists v'. split; [exact Hv' | lra].
Qed.

Lemma fold_trackBody_nodup (x t : R) (l : list IRPeakInfo.t) (mm : Minima) :
  NoDup (map fst mm) -> NoDup (map fst (fold_left (trackBody x t) l mm)).
Proof.
  revert mm; induction l as [| p l IH]; intros mm Hnd; simpl; [exact Hnd |].
  apply IH. unfold trackBody. destruct (Rltb _ _); [| exact Hnd].
  destruct (map_get _ _) as [[? ?] |]; [destruct (Rltb _ _) |];
    try apply map_set_nodup; exact Hnd.
Qed.

Lemma fold_trackBody_entries (ps : list IRPeakInfo.t) (x t : R) (l : list IRPeakInfo.t)
  (mm : Minima) :
  incl l ps -> entriesOK ps mm -> entriesOK ps (fold_left (trackBody x t) l mm).
Proof.
  revert mm; induction l as [| p l IH]; intros mm Hincl Hok; simpl; [exact Hok |].
  apply IH; [intros q Hq; apply Hincl; right; exact Hq |].
  unfold trackBody; cbv zeta. destruct (Rltb _ _) eqn:En; [| exact Hok].
  assert (Hset : entriesOK ps (map_set (irKey p) (x, t) mm)).
  { intros k x' t' Hin. apply map_in_set in Hin as [E | Hin]; [| exact (Hok _ _ _ Hin)].
    inversion E; subst. exists p. split; [apply Hincl; left; reflexivity |].
    split; [reflexivity |]. apply Rltb_true in En. exact En. }
  destruct (map_get _ _) as [[? ?] |]; [destruct (Rltb t _) |]; assumption.
Qed.

(** ** The curve loop *)

Lemma irCurve_inv (ps : list IRPeakInfo.t) (k : nat) :
  holds valid_source (curveInv ps k) (irCurve ps k).
Proof.
  induction k as [| k IH]; simpl.
  - apply holds_ret. split; [constructor | split].
    + intros kk x t [].
    + intros j Hj. lia.
  - eapply (holds_bind _ _ _ _ _ IH). intros [pts mm] [Hnd [Hok Hj]] g n HV.
    unfold irSample, bind, random, ret. simpl. rewrite trackMinima_fold.
    set (t := irTransmittance ps (irX k) (g n) (g (S n))).
    split; [apply fold_trackBody_nodup, Hnd |].
    split; [apply fold_trackBody_entries; [intros q Hq; exact Hq | exact Hok] |].
    intros j Hjk. destruct (Nat.eq_dec j k) as [-> | Hne].
    + exists (g n), (g (S n)). split; [apply HV |].
      intros p Hp Hn. apply fold_trackBody_hit; assumption.
    + destruct (Hj j ltac:(lia)) as [r1 [r2 [Hr1 Hjp]]].
      exists r1, r2. split; [exact Hr1 |].
      intros p Hp Hn. destruct (Hjp p Hp Hn) as [v [Hv Hle]].
      destruct (fold_trackBody_better (irX k) t ps mm (irKey p) v Hv) as [v' [Hv' Hle']].
      exists v'. split; [exact Hv' | simpl in *; lra].
Qed.

Lemma irCurve_length (ps : list IRPeakInfo.t) (k : nat) (g : nat -> R) (m : nat) :
  List.length (fst (fst (irCurve ps k g m))) = k.
Proof.
  revert m; induction k as [| k IH]; intros m; simpl; [reflexivity |].
  unfold bind. specialize (IH m). destruct (irCurve ps k g m) as [[pts mm] m'].
  unfold irSample, bind, random, ret. simpl in *.
  rewrite length_app. simpl. lia.
Qed.

Lemma irStep_half : irStep = / 2.
Proof.
  unfold irStep, irMaxWavenumber, irMinWavenumber, irNumPoints.
  replace (IZR ((4000 - 400) * 2 + 1)) with 7201 by reflexivity. field.
Qed.

(** every center in range has a sample within half a wavenumber *)
Lemma ir_sample_near (c : R) :
  400 <= c <= 4000 ->
  exists j, (j < Z.to_nat irNumPoints)%nat /\ Rabs (irX j - c) <= / 2.
Proof.
  intros Hc. destruct (archimed (2 * (c - 400))) as [Hup1 Hup2].
  set (z := up (2 * (c - 400))) in *.
  assert (Hz : (0 < z)%Z) by (apply lt_IZR; lra).
  assert (Hz' : (z <= 7201)%Z) by (apply le_IZR; lra).
  exists (Z.to_nat (z - 1)). split.
  - unfold irNumPoints. apply Z2Nat.inj_lt; lia.
  - unfold irX, irMinWavenumber. rewrite irStep_half, INR_IZR_INZ, Z2Nat.id by lia.
    rewrite minus_IZR. apply Rabs_le. lra.
Qed.

(** ** How deep a characteristic peak dips *)

Lemma lorentzian_nonneg (x c fwhm a : R) : 0 <= a -> 0 <= lorentzianPeak x c fwhm a.
Proof.
  intros Ha. destruct (Rle_dec fwhm 0) as [Hw | Hw].
  - rewrite lorentzian_nonpos_width by exact Hw. lra.
  - rewrite lorentzian_pos_width by lra. apply Rmult_le_pos; [exact Ha |].
    unfold Rdiv. apply Rmult_le_pos; [apply pow2_ge_0 | apply Rlt_le, Rinv_0_lt_compat].
    assert (0 < (fwhm / 2) ^ 2) by (apply pow_lt; lra).
    assert (0 <= (x - c) ^ 2) by apply pow2_ge_0. lra.
Qed.

Lemma fold_sum_ge (h : IRPeakInfo.t -> R) (l : list IRPeakInfo.t) :
  (forall q, In q l -> 0 <= h q) ->
  forall a, a <= fold_left (fun acc q => acc + h q) l a /\
            (forall p, In p l -> a + h p <= fold_left (fun acc q => acc + h q) l a).
Proof.
  induction l as [| q l IH]; intros Hh a; simpl; [split; [lra | intros p []] |].
  assert (Hq : 0 <= h q) by (apply Hh; left; reflexivity).
  destruct (IH (fun q' Hq' => Hh q' (or_intror Hq')) (a + h q)) as [H1 H2].
  split; [lra |]. intros p [<- | Hp]; [lra |]. specialize (H2 p Hp). lra.
Qed.

Lemma irTotal_ge (ps : list IRPeakInfo.t) (x : R) (p : IRPeakInfo.t) :
  In p ps ->
  lorentzianPeak x (IRPeakInfo.wavenumber p) (IRPeakInfo.width p)
    (Rmax 0 (baselineLevel - IRPeakInfo.targetTransmittance p)) <= irTotalContribution ps x.
Proof.
  intros Hp. unfold irTotalContribution. cbv zeta.
  set (h := fun q => lorentzianPeak x (IRPeakInfo.wavenumber q) (IRPeakInfo.width q)
                       (Rmax 0 (baselineLevel - IRPeakInfo.targetTransmittance q))).
  change (h p <= fold_left (fun acc q => acc + h q) ps 0).
  destruct (fold_sum_ge h ps (fun q _ => lorentzian_nonneg _ _ _ _ (clamp_uv_nonneg _)) 0)
    as [_ H]. specialize (H p Hp). lra.
Qed.

Lemma irTransmittance_le (ps : list IRPeakInfo.t) (x r1 r2 : R) (p : IRPeakInfo.t) :
  r1 < 1 -> In p ps ->
  irTransmittance ps x r1 r2 <=
  Rmax 0.1 (baselineLevel + 1.12 - lorentzianPeak x (IRPeakInfo.wavenumber p) (IRPeakInfo.width p)
                                  (Rmax 0 (baselineLevel - IRPeakInfo.targetTransmittance p))).
Proof.
  intros Hr1 Hp. unfold irTransmittance, irNoiseAmplitude. cbv zeta.
  pose proof (irTotal_ge ps x p Hp) as Ht.
  pose proof (SIN_bound (x * noiseFrequency + r2 * PI)) as Hs.
  unfold Rmax, Rmin, baselineLevel in *.
  repeat match goal with |- context [Rle_dec ?a ?b] => destruct (Rle_dec a b) end; lra.
Qed.

Lemma lorentzian_near_ge (x c fwhm a : R) :
  0 < fwhm -> 0 <= a -> Rabs (x - c) <= / 2 ->
  a * ((fwhm / 2) ^ 2 / (/ 4 + (fwhm / 2) ^ 2)) <= lorentzianPeak x c fwhm a.
Proof.
  intros Hw Ha Hx. rewrite lorentzian_pos_width by exact Hw.
  apply Rmult_le_compat_l; [exact Ha |].
  assert (Hg : 0 < (fwhm / 2) ^ 2) by (apply pow_lt; lra).
  assert (Hd : (x - c) ^ 2 <= / 4).
  { rewrite <- pow2_abs. pose proof (Rabs_pos (x - c)). nra. }
  unfold Rdiv. apply Rmult_le_compat_l; [lra |].
  apply Rinv_le_contravar; [| lra]. pose proof (pow2_ge_0 (x - c)). lra.
Qed.

Lemma frac_mono (g0 g : R) : 0 < g0 <= g -> g0 / (/ 4 + g0) <= g / (/ 4 + g).
Proof.
  intros Hg. unfold Rdiv.
  apply (Rmult_le_reg_r ((/ 4 + g0) * (/ 4 + g))); [nra |].
  replace (g0 * / (/ 4 + g0) * ((/ 4 + g0) * (/ 4 + g))) with (g0 * (/ 4 + g)) by (field; lra).
  replace (g * / (/ 4 + g) * ((/ 4 + g0) * (/ 4 + g))) with (g * (/ 4 + g0)) by (field; lra).
  nra.
Qed.

Lemma curve_dip (ps : list IRPeakInfo.t) (acc : list (R * R) * Minima) (p : IRPeakInfo.t) :
  curveInv ps (Z.to_nat irNumPoints) acc -> In p ps ->
  400 <= IRPeakInfo.wavenumber p <= 4000 -> 0 < IRPeakInfo.width p ->
  exists v, map_get (irKey p) (snd acc) = Some v /\
    snd v <= Rmax 0.1 (baselineLevel + 1.12
                       - Rmax 0 (baselineLevel - IRPeakInfo.targetTransmittance p)
                         * ((IRPeakInfo.width p / 2) ^ 2 / (/ 4 + (IRPeakInfo.width p / 2) ^ 2))).
Proof.
  intros [_ [_ Hj]] Hp Hc Hw.
  destruct (ir_sample_near _ Hc) as [j [Hjn Hx]].
  destruct (Hj j Hjn) as [r1 [r2 [Hr1 Hjp]]].
  assert (Hwin : Rabs (irX j - IRPeakInfo.wavenumber p) < windowOf p)
    by (unfold windowOf; pose proof (Rmax_l 5 (IRPeakInfo.width p / 3)); lra).
  destruct (Hjp p Hp Hwin) as [v [Hv Hle]]. exists v. split; [exact Hv |].
  pose proof (irTransmittance_le ps (irX j) r1 r2 p ltac:(lra) Hp) as Ht.
  pose proof (lorentzian_near_ge (irX j) (IRPeakInfo.wavenumber p) (IRPeakInfo.width p)
                (Rmax 0 (baselineLevel - IRPeakInfo.targetTransmittance p))
                Hw (clamp_uv_nonneg _) Hx) as Hl.
  set (A := Rmax 0 (baselineLevel - IRPeakInfo.targetTransmittance p)) in *.
  set (L := lorentzianPeak _ _ _ _) in *.
  unfold Rmax in Ht |- *.
  destruct (Rle_dec 0.1 (baselineLevel + 1.12 - L)),
           (Rle_dec 0.1 (baselineLevel + 1.12 - A * _)); lra.
Qed.

(** ** From the map to the labelled peaks *)

Lemma formatPeaks_fold (mm : Minima) : formatPeaks mm = fold_left formatStep mm [].
Proof. reflexivity. Qed.

Lemma formatStep_incl (acc : list IRSpectrumPeak.t) (e : IRKey * (R * R)) :
  incl acc (formatStep acc e).
Proof.
  destruct e as [k [x t]]. unfold formatStep.
  destruct (Rltb _ _); [destruct (existsb _ _) |];
    [apply incl_refl | apply incl_appl, incl_refl | apply incl_refl].
Qed.

Lemma fold_formatStep_incl (mm : Minima) (acc : list IRSpectrumPeak.t) :
  incl acc (fold_left formatStep mm acc).
Proof.
  revert acc; induction mm as [| e mm IH]; intros acc; simpl; [apply incl_refl |].
  eapply incl_tran; [apply formatStep_incl | apply IH].
Qed.

Lemma fold_formatStep_from (mm : Minima) (acc : list IRSpectrumPeak.t) (lp : IRSpectrumPeak.t) :
  In lp (fold_left formatStep mm acc) ->
  In lp acc \/ exists k x t, In (k, (x, t)) mm /\ lp = IRSpectrumPeak.mk x t (fst k)
                             /\ t < irThreshold.
Proof.
  revert acc; induction mm as [| e mm IH] using rev_ind; intros acc; simpl; [auto |].
  destruct e as [k [x t]]. rewrite fold_left_app. simpl. unfold formatStep at 1.
  destruct (Rltb t irThreshold) eqn:Et; [destruct (existsb _ _) |];
    intros Hin; try (destruct (IH acc Hin) as [H | [k' [x' [t' [H1 H2]]]]];
                     [left; exact H | right; exists k', x', t';
                                      split; [apply in_or_app; left; exact H1 | exact H2]]).
  apply in_app_or in Hin as [Hin | [<- | []]].
  - destruct (IH acc Hin) as [H | [k' [x' [t' [H1 H2]]]]]; [left; exact H |].
    right. exists k', x', t'. split; [apply in_or_app; left; exact H1 | exact H2].
  - right. exists k, x, t. split; [apply in_or_app; right; left; reflexivity |].
    split; [reflexivity | apply Rltb_true, Et].
Qed.

Lemma formatPeaks_from (mm : Minima) (lp : IRSpectrumPeak.t) :
  In lp (formatPeaks mm) ->
  exists k x t, In (k, (x, t)) mm /\ lp = IRSpectrumPeak.mk x t (fst k) /\ t < irThreshold.
Proof.
  rewrite formatPeaks_fold. intros H.
  destruct (fold_formatStep_from mm [] lp H) as [[] | H']; exact H'.
Qed.

Lemma formatPeaks_covers (mm : Minima) (k : IRKey) (x t : R) :
  In (k, (x, t)) mm -> t < irThreshold ->
  exists lp, In lp (formatPeaks mm) /\ IRSpectrumPeak.assignment lp = fst k.
Proof.
  intros Hin Ht. rewrite formatPeaks_fold.
  apply in_split in Hin as [l1 [l2 ->]].
  rewrite fold_left_app. simpl.
  set (acc := fold_left formatStep l1 []).
  assert (H : exists lp, In lp (formatStep acc (k, (x, t))) /\
                         IRSpectrumPeak.assignment lp = fst k).
  { unfold formatStep. replace (Rltb t irThreshold) with true
      by (symmetry; apply Rltb_true_iff, Ht).
    destruct (existsb _ acc) eqn:E.
    - apply existsb_exists in E as [lp [Hlp E]]. apply andb_prop in E as [_ E].
      apply String.eqb_eq in E. exists lp. auto.
    - exists (IRSpectrumPeak.mk x t (fst k)). split; [apply in_or_app; right; left |]; reflexivity. }
  destruct H as [lp [Hlp Hl]]. exists lp. split; [apply fold_formatStep_incl, Hlp | exact Hl].
Qed.

(** ** [firstOccurrences] *)

Lemma findIndex_first {A : Type} (f : A -> bool) (l : list A) (x : A) :
  In x l -> f x = true ->
  exists i y, findIndex f l = Z.of_nat i /\ nth_error l i = Some y /\ f y = true.
Proof.
  induction l as [| a l IH]; intros Hin Hx; [contradiction |]. simpl.
  destruct (f a) eqn:Ea; [exists 0%nat, a; auto |].
  destruct Hin as [-> | Hin]; [congruence |].
  destruct (IH Hin Hx) as [i [y [Hi [Hy Hfy]]]].
  exists (S i), y. rewrite Hi. split; [| split; assumption].
  destruct i as [| i]; [reflexivity |].
  change (Z.of_nat (S i) + 1 = Z.of_nat (S (S i)))%Z. lia.
Qed.

Lemma nth_error_combine_seq {A : Type} (l : list A) (i k : nat) (y : A) :
  nth_error l i = Some y -> In (y, (k + i)%nat) (combine l (seq k (List.length l))).
Proof.
  revert i k; induction l as [| a l IH]; intros i k Hy; [destruct i; discriminate |].
  destruct i as [| i]; simpl in *.
  - inversion Hy; subst. left. f_equal. lia.
  - right. replace (k + S i)%nat with (S k + i)%nat by lia. apply IH, Hy.
Qed.

Lemma firstOccurrences_incl (self : list IRSpectrumPeak.t) (y : IRSpectrumPeak.t) :
  In y (firstOccurrences self) -> In y self.
Proof.
  unfold firstOccurrences. intros H. apply in_map_iff in H as [[y' i] [<- H]].
  apply filter_In in H as [H _]. simpl. eapply in_combine_l, H.
Qed.

Lemma firstOccurrences_covers (self : list IRSpectrumPeak.t) (x : IRSpectrumPeak.t) :
  In x self ->
  exists y, In y (firstOccurrences self) /\
            IRSpectrumPeak.assignment y = IRSpectrumPeak.assignment x.
Proof.
  intros Hx.
  set (f := fun t => String.eqb (IRSpectrumPeak.assignment t) (IRSpectrumPeak.assignment x)).
  destruct (findIndex_first f self x Hx (String.eqb_refl _)) as [i [y [Hi [Hy Hfy]]]].
  assert (Hl : IRSpectrumPeak.assignment y = IRSpectrumPeak.assignment x)
    by (apply String.eqb_eq, Hfy).
  exists y. split; [| exact Hl].
  unfold firstOccurrences. apply in_map_iff. exists (y, i). split; [reflexivity |].
  apply filter_In. split; [apply (nth_error_combine_seq self i 0 y Hy) |].
  rewrite Hl. fold f. rewrite Hi. apply Z.eqb_refl.
Qed.

(** ** Counting labelled peaks *)

Lemma fold_formatStep_count (a : string) (mm : Minima) (acc : list IRSpectrumPeak.t) :
  (countLabel a (fold_left formatStep mm acc)
   <= countLabel a acc + List.length (filter (fun e => String.eqb (fst (fst e)) a) mm))%nat.
Proof.
  revert acc; induction mm as [| [k [x t]] mm IH]; intros acc; simpl; [lia |].
  eapply Nat.le_trans; [apply IH |]. unfold formatStep.
  destruct (Rltb t irThreshold); [destruct (existsb _ _) |];
    destruct (String.eqb (fst k) a) eqn:E; simpl; try lia.
  - unfold countLabel. rewrite filter_app, length_app. simpl. rewrite E. simpl. lia.
  - unfold countLabel. rewrite filter_app, length_app. simpl. rewrite E. simpl. lia.
Qed.

Lemma formatPeaks_count (a : string) (mm : Minima) :
  (countLabel a (formatPeaks mm)
   <= List.length (filter (fun e => String.eqb (fst (fst e)) a) mm))%nat.
Proof. rewrite formatPeaks_fold. apply fold_formatStep_count. Qed.

Lemma length_le_via {A B C : Type} (f : A -> C) (h : B -> C) (l1 : list A) (l2 : list B) :
  NoDup (map f l1) -> incl (map f l1) (map h l2) -> (List.length l1 <= List.length l2)%nat.
Proof.
  intros Hnd Hincl. rewrite <- (length_map f l1), <- (length_map h l2).
  apply NoDup_incl_length; assumption.
Qed.

Lemma minima_count (a : string) (ps : list IRPeakInfo.t) (mm : Minima) :
  NoDup (map fst mm) -> entriesOK ps mm ->
  (List.length (filter (fun e => String.eqb (fst (fst e)) a) mm)
   <= List.length (filter (fun q => String.eqb (IRPeakInfo.assignment q) a) ps))%nat.
Proof.
  intros Hnd Hok.
  apply (length_le_via (@fst IRKey (R * R)) irKey).
  - clear Hok. induction mm as [| e mm IH]; simpl; [constructor |].
    inversion Hnd as [| ? ? Hnin Hnd']; subst.
    destruct (String.eqb _ a); simpl; [| apply IH, Hnd'].
    constructor; [| apply IH, Hnd'].
    intros Hin. apply Hnin. apply in_map_iff in Hin as [e' [<- Hin]].
    apply filter_In in Hin as [Hin _]. apply in_map, Hin.
  - intros k Hk. apply in_map_iff in Hk as [[k' [x t]] [E Hin]]. simpl in E. subst k'.
    apply filter_In in Hin as [Hin Ha]. simpl in Ha.
    destruct (Hok k x t Hin) as [q [Hq [Hkq _]]].
    apply in_map_iff. exists q. split; [exact Hkq |].
    apply filter_In. split; [exact Hq |]. rewrite <- Ha, <- Hkq. reflexivity.
Qed.

(** ** The fingerprint loop *)

Lemma Math_floor_bounds (x : R) : 0 <= x < 5 -> (0 <= Math_floor x <= 4)%Z.
Proof.
  intros Hx. unfold Math_floor. destruct (archimed x) as [H1 H2].
  assert (0 < up x)%Z by (apply lt_IZR; lra).
  assert (up x < 6)%Z by (apply lt_IZR; lra).
  lia.
Qed.

Lemma Math_floor_0 : Math_floor 0 = 0%Z.
Proof.
  unfold Math_floor. rewrite <- (tech_up 0 1); [reflexivity | lra | lra].
Qed.

Lemma fingerprintLoop_spec (n : nat) (ps : list IRPeakInfo.t) (g : nat -> R) (m : nat) :
  valid_source g ->
  exists fs, fst (fingerprintLoop n ps g m) = ps ++ fs /\ (List.length fs <= n)%nat /\
             Forall fpSpec fs /\ (farFromFingerprint ps -> (0 < n)%nat -> fs <> []).
Proof.
  intros Hg. revert ps m; induction n as [| n IH]; intros ps m.
  - exists []. rewrite app_nil_r. split; [reflexivity |]. split; [simpl; lia |]. split; [constructor | intros _ Hn; lia].
  - simpl. unfold bind, random, ret. simpl.
    set (r := g m). assert (Hr : 0 <= r < 1) by apply Hg.
    destruct (existsb _ ps) eqn:E.
    + destruct (IH ps (S m)) as [fs [Hfs [Hl [Hf _]]]].
      exists fs. split; [exact Hfs |]. split; [lia |]. split; [exact Hf |].
      intros Hfar _. exfalso.
      apply existsb_exists in E as [p [Hp E]]. apply andb_prop in E as [E1 E2].
      apply Rltb_true in E1, E2. apply Rabs_def2 in E1.
      destruct (Hfar p Hp) as [H | [H | H]]; lra.
    + set (fp := IRPeakInfo.mk (600 + r * 750) (45 + g (S m) * 45) (15 + g (S (S m)) * 15)
                               "Fingerprint region").
      destruct (IH (ps ++ [fp]) (S (S (S m)))) as [fs [Hfs [Hl [Hf _]]]].
      exists (fp :: fs). rewrite Hfs, <- app_assoc. split; [reflexivity |].
      split; [simpl; lia |]. split; [| intros _ _; discriminate].
      constructor; [| exact Hf].
      pose proof (Hg (S m)). pose proof (Hg (S (S m))).
      unfold fpSpec, fp; simpl. repeat split; try reflexivity; lra.
Qed.

Lemma fingerprintRegion_spec (ps : list IRPeakInfo.t) (g : nat -> R) (m : nat) :
  valid_source g ->
  exists fs, fst (fingerprintRegion ps g m) = ps ++ fs /\ (List.length fs <= 7)%nat /\
             Forall fpSpec fs /\ (farFromFingerprint ps -> fs <> []).
Proof.
  intros Hg. unfold fingerprintRegion, bind, random. simpl.
  assert (Hr : 0 <= g m < 1) by apply Hg.
  destruct (Math_floor_bounds (g m * 5) ltac:(lra)) as [Hf1 Hf2].
  destruct (fingerprintLoop_spec (Z.to_nat (3 + Math_floor (g m * 5))) ps g (S m) Hg)
    as [fs [Hfs [Hl [Hf Hne]]]].
  exists fs. split; [exact Hfs |]. split; [lia |]. split; [exact Hf |].
  intros Hfar. apply Hne; [exact Hfar | lia].
Qed.

(** ** Peaks that pass the threshold *)

Lemma map_get_some_in (k : IRKey) (v : R * R) (m : Minima) :
  map_get k m = Some v -> In (k, v) m.
Proof.
  induction m as [| [k0 v0] m IH]; simpl; [discriminate |].
  destruct (key_eq_dec k k0) as [-> |]; intros H; [inversion H; left; reflexivity |].
  right. apply IH, H.
Qed.

Lemma countLabel_perm (a : string) (l l' : list IRSpectrumPeak.t) :
  Permutation.Permutation l l' -> countLabel a l = countLabel a l'.
Proof.
  unfold countLabel. intros Hp. apply Permutation.Permutation_length.
  induction Hp as [| x l l' _ IH | x y l | l l' l'' _ IH1 _ IH2]; simpl.
  - constructor.
  - destruct (String.eqb _ a); [constructor |]; exact IH.
  - destruct (String.eqb (IRSpectrumPeak.assignment x) a),
             (String.eqb (IRSpectrumPeak.assignment y) a);
      try constructor; try apply Permutation.Permutation_refl.
  - eapply Permutation.Permutation_trans; [exact IH1 | exact IH2].
Qed.

Lemma dip_bound (tt w T0 w0 : R) :
  tt <= T0 <= baselineLevel -> 0 < w0 <= w ->
  Rmax 0.1 (baselineLevel + 1.12
            - Rmax 0 (baselineLevel - tt) * ((w / 2) ^ 2 / (/ 4 + (w / 2) ^ 2)))
  <= Rmax 0.1 (baselineLevel + 1.12
               - (baselineLevel - T0) * ((w0 / 2) ^ 2 / (/ 4 + (w0 / 2) ^ 2))).
Proof.
  intros Ht Hw.
  assert (HA : baselineLevel - T0 <= Rmax 0 (baselineLevel - tt))
    by (apply Rle_trans with (baselineLevel - tt); [lra | apply Rmax_r]).
  assert (HQ : (w0 / 2) ^ 2 / (/ 4 + (w0 / 2) ^ 2) <= (w / 2) ^ 2 / (/ 4 + (w / 2) ^ 2))
    by (apply frac_mono; split; [apply pow_lt; lra | apply pow_incr; lra]).
  assert (HQ0 : 0 <= (w0 / 2) ^ 2 / (/ 4 + (w0 / 2) ^ 2)).
  { unfold Rdiv. apply Rmult_le_pos; [apply pow2_ge_0 |].
    apply Rlt_le, Rinv_0_lt_compat. pose proof (pow2_ge_0 (w0 / 2)). lra. }
  assert (Hprod : (baselineLevel - T0) * ((w0 / 2) ^ 2 / (/ 4 + (w0 / 2) ^ 2))
                  <= Rmax 0 (baselineLevel - tt) * ((w / 2) ^ 2 / (/ 4 + (w / 2) ^ 2)))
    by (apply Rmult_le_compat; lra).
  set (A := Rmax 0 (baselineLevel - tt)) in *.
  unfold Rmax. destruct (Rle_dec 0.1 _), (Rle_dec 0.1 _); lra.
Qed.

(** the curated acetone C=O band dips below 15 %T *)
Lemma dip_acetone_CO (tt w : R) :
  5 <= tt < 10 -> 18 <= w < 23 ->
  Rmax 0.1 (baselineLevel + 1.12
            - Rmax 0 (baselineLevel - tt) * ((w / 2) ^ 2 / (/ 4 + (w / 2) ^ 2))) < 15.
Proof.
  intros Ht Hw. eapply Rle_lt_trans; [apply (dip_bound tt w 10 18); unfold baselineLevel; lra |].
  replace ((18 / 2) ^ 2 / (/ 4 + (18 / 2) ^ 2)) with (324 / 325) by field.
  unfold baselineLevel, Rmax. destruct (Rle_dec 0.1 _); lra.
Qed.

(** a first saturated C-H stretch passes the labelling threshold *)
Lemma dip_sp3_stretch (tt w : R) :
  40 <= tt < 70 -> 25 <= w < 40 ->
  Rmax 0.1 (baselineLevel + 1.12
            - Rmax 0 (baselineLevel - tt) * ((w / 2) ^ 2 / (/ 4 + (w / 2) ^ 2))) < irThreshold.
Proof.
  intros Ht Hw. eapply Rle_lt_trans; [apply (dip_bound tt w 70 25); unfold baselineLevel; lra |].
  replace ((25 / 2) ^ 2 / (/ 4 + (25 / 2) ^ 2)) with (625 / 626) by field.
  unfold irThreshold, irNoiseAmplitude, baselineLevel, Rmax. destruct (Rle_dec 0.1 _); lra.
Qed.

(** so does a fingerprint band *)
Lemma dip_fingerprint (tt w : R) :
  45 <= tt < 90 -> 15 <= w < 30 ->
  Rmax 0.1 (baselineLevel + 1.12
            - Rmax 0 (baselineLevel - tt) * ((w / 2) ^ 2 / (/ 4 + (w / 2) ^ 2))) < irThreshold.
Proof.
  intros Ht Hw. eapply Rle_lt_trans; [apply (dip_bound tt w 90 15); unfold baselineLevel; lra |].
  replace ((15 / 2) ^ 2 / (/ 4 + (15 / 2) ^ 2)) with (225 / 226) by field.
  unfold irThreshold, irNoiseAmplitude, baselineLevel, Rmax. destruct (Rle_dec 0.1 _); lra.
Qed.

(** ** Labelled peaks outside the acetone path *)

Lemma ir_plain_facts (smiles : string) (g : nat -> R) (n : nat) :
  valid_source g -> String.eqb smiles "CC(=O)C" = false ->
  exists acc, curveInv (fst (irAllPeaks smiles g n)) (Z.to_nat irNumPoints) acc /\
    IRSpectrumData.spectrum (fst (simulateIRSpectrum smiles g n)) = fst acc /\
    IRSpectrumData.peaks (fst (simulateIRSpectrum smiles g n))
      = sort_by irByWavenumber (formatPeaks (snd acc)).
Proof.
  intros Hg Hs. destruct (simulateIRSpectrum_eq smiles g n) as [ps [n1 [acc [n2 [E1 [E2 E]]]]]].
  exists acc. rewrite E, Hs, E1. simpl. split; [| split; reflexivity].
  pose proof (irCurve_inv ps (Z.to_nat irNumPoints) g n1 Hg) as H. rewrite E2 in H. exact H.
Qed.

Lemma ir_plain_labels (smiles : string) (g : nat -> R) (n : nat) (p : IRSpectrumPeak.t) :
  valid_source g -> String.eqb smiles "CC(=O)C" = false ->
  In p (IRSpectrumData.peaks (fst (simulateIRSpectrum smiles g n))) ->
  exists q, In q (fst (irAllPeaks smiles g n)) /\
            IRPeakInfo.assignment q = IRSpectrumPeak.assignment p.
Proof.
  intros Hg Hs Hp. destruct (ir_plain_facts smiles g n Hg Hs) as [acc [[_ [Hok _]] [_ E]]].
  rewrite E in Hp. apply in_sort_by in Hp.
  destruct (formatPeaks_from _ _ Hp) as [k [x [t [Hin [-> _]]]]].
  destruct (Hok k x t Hin) as [q [Hq [Hk _]]]. exists q. split; [exact Hq |].
  rewrite <- Hk. reflexivity.
Qed.

Lemma ir_plain_present (smiles : string) (g : nat -> R) (n : nat) (q : IRPeakInfo.t) :
  valid_source g -> String.eqb smiles "CC(=O)C" = false ->
  In q (fst (irAllPeaks smiles g n)) ->
  400 <= IRPeakInfo.wavenumber q <= 4000 -> 0 < IRPeakInfo.width q ->
  Rmax 0.1 (baselineLevel + 1.12
            - Rmax 0 (baselineLevel - IRPeakInfo.targetTransmittance q)
              * ((IRPeakInfo.width q / 2) ^ 2 / (/ 4 + (IRPeakInfo.width q / 2) ^ 2)))
    < irThreshold ->
  exists p, In p (IRSpectrumData.peaks (fst (simulateIRSpectrum smiles g n))) /\
            IRSpectrumPeak.assignment p = IRPeakInfo.assignment q.
Proof.
  intros Hg Hs Hq Hc Hw Hd. destruct (ir_plain_facts smiles g n Hg Hs) as [acc [Hinv [_ E]]].
  destruct (curve_dip _ _ q Hinv Hq Hc Hw) as [[x t] [Hv Ht]]. cbn [snd] in Ht.
  destruct (formatPeaks_covers (snd acc) (irKey q) x t (map_get_some_in _ _ _ Hv) ltac:(lra))
    as [p [Hp Hl]].
  exists p. rewrite E. split; [apply in_sort_by, Hp | exact Hl].
Qed.

Lemma ir_plain_count (smiles : string) (g : nat -> R) (n : nat) (a : string) :
  valid_source g -> String.eqb smiles "CC(=O)C" = false ->
  (countLabel a (IRSpectrumData.peaks (fst (simulateIRSpectrum smiles g n)))
   <= List.length (filter (fun q => String.eqb (IRPeakInfo.assignment q) a)
                          (fst (irAllPeaks smiles g n))))%nat.
Proof.
  intros Hg Hs. destruct (ir_plain_facts smiles g n Hg Hs) as [acc [[Hnd [Hok _]] [_ E]]].
  rewrite E, (countLabel_perm a _ _ (sort_by_perm _ _)).
  eapply Nat.le_trans; [apply formatPeaks_count | apply minima_count; assumption].
Qed.

(** ** Descriptors with no recognised functional group *)

(** the bounds [0 <= g k < 1] of the draws [g k] in the goal *)
Ltac gbounds g Hg :=
  repeat match goal with
  | |- context [g ?k] =>
      lazymatch goal with
      | _ : 0 <= g k < 1 |- _ => fail
      | _ => pose proof (Hg k)
      end
  end.

Lemma base_noFeatures (smiles : string) (g : nat -> R) (m : nat) :
  includes smiles "C#N" = false -> fst (irCharacteristicPeaks smiles noFeatures g m) = [].
Proof.
  intros Hcn. unfold irCharacteristicPeaks, when_push, bind, ret. simpl. rewrite Hcn. reflexivity.
Qed.

Lemma base_sp3Only (smiles : string) (g : nat -> R) (m : nat) :
  valid_source g -> includes smiles "C#N" = false ->
  let base := fst (irCharacteristicPeaks smiles sp3Only g m) in
  farFromFingerprint base /\
  (forall q, In q base -> IRPeakInfo.assignment q = "C-H stretch (sp3)" \/
                          IRPeakInfo.assignment q = "C-H bend (sp3)") /\
  exists q, In q base /\ IRPeakInfo.assignment q = "C-H stretch (sp3)" /\
            400 <= IRPeakInfo.wavenumber q <= 4000 /\
            40 <= IRPeakInfo.targetTransmittance q < 70 /\ 25 <= IRPeakInfo.width q < 40.
Proof.
  intros Hg Hcn. unfold irCharacteristicPeaks, when_push, pushAll, irPeak, bind, random, ret.
  simpl. rewrite Hcn. simpl.
  split; [| split].
  - intros p Hp. simpl in Hp.
    destruct Hp as [<- | [<- | [<- | [<- | []]]]]; simpl; gbounds g Hg; lra.
  - intros q Hq. destruct Hq as [<- | [<- | [<- | [<- | []]]]]; simpl; auto.
  - eexists. split; [left; reflexivity |]. simpl. gbounds g Hg.
    repeat split; try reflexivity; lra.
Qed.

Lemma noPattern_not_acetone (smiles : string) :
  noPattern (analyzeMolecule smiles) -> String.eqb smiles "CC(=O)C" = false.
Proof.
  intros H. destruct (String.eqb smiles "CC(=O)C") eqn:E; [| reflexivity].
  apply String.eqb_eq in E. subst. rewrite analyze_acetone in H. destruct H; discriminate.
Qed.

Lemma noPattern_specs (smiles : string) (g : nat -> R) (n : nat) :
  valid_source g -> noPattern (analyzeMolecule smiles) -> includes smiles "C#N" = false ->
  exists base fs, fst (irAllPeaks smiles g n) = base ++ fs /\
    (List.length fs <= 7)%nat /\ Forall fpSpec fs /\ fs <> [] /\
    (forall q, In q base -> IRPeakInfo.assignment q = "C-H stretch (sp3)" \/
                            IRPeakInfo.assignment q = "C-H bend (sp3)") /\
    (hasSp3CH (analyzeMolecule smiles) = false -> base = []) /\
    (hasSp3CH (analyzeMolecule smiles) = true ->
     exists q, In q base /\ IRPeakInfo.assignment q = "C-H stretch (sp3)" /\
               400 <= IRPeakInfo.wavenumber q <= 4000 /\
               40 <= IRPeakInfo.targetTransmittance q < 70 /\ 25 <= IRPeakInfo.width q < 40).
Proof.
  intros Hg Hf Hcn. pose proof (noPattern_not_acetone smiles Hf) as Hs.
  unfold irAllPeaks, bind.
  destruct (irCharacteristicPeaks smiles (analyzeMolecule smiles) g n) as [base m1] eqn:E1.
  pose proof (fingerprintRegion_spec base g m1 Hg) as [fs [Hfs [Hl [Hfp Hne]]]].
  destruct (fingerprintRegion base g m1) as [ps m2] eqn:E2.
  unfold acetoneOverride. rewrite Hs. simpl in *. subst ps.
  exists base, fs. split; [reflexivity |]. split; [exact Hl |]. split; [exact Hfp |].
  destruct Hf as [Hf | Hf]; rewrite Hf in *.
  - assert (Hb : base = []).
    { pose proof (base_noFeatures smiles g n Hcn) as H. rewrite E1 in H. exact H. }
    subst base. split; [apply Hne; intros p [] |].
    split; [intros q [] |]. split; [reflexivity | discriminate].
  - pose proof (base_sp3Only smiles g n Hg Hcn) as H. cbv zeta in H. rewrite E1 in H.
    simpl in H. destruct H as [Hfar [Hlab Hq]].
    split; [apply Hne, Hfar |]. split; [exact Hlab |]. split; [discriminate |].
    intros _. exact Hq.
Qed.

Lemma countLabel_pos (a : string) (l : list IRSpectrumPeak.t) (p : IRSpectrumPeak.t) :
  In p l -> IRSpectrumPeak.assignment p = a -> (1 <= countLabel a l)%nat.
Proof.
  intros Hp Ha. unfold countLabel.
  assert (Hin : In p (filter (fun lp => String.eqb (IRSpectrumPeak.assignment lp) a) l))
    by (apply filter_In; split; [exact Hp | apply String.eqb_eq, Ha]).
  destruct (filter _ l); [contradiction | simpl; lia].
Qed.

(** the IR peaks of a descriptor with no functional group *)
Lemma no_pattern_ir_facts (smiles : string) (g : nat -> R) (n : nat) :
  valid_source g -> noPattern (analyzeMolecule smiles) -> includes smiles "C#N" = false ->
  let peaks := IRSpectrumData.peaks (fst (simulateIRSpectrum smiles g n)) in
  existsb (fun p => String.eqb (IRSpectrumPeak.assignment p) "C-H stretch (sp3)") peaks
    = hasSp3CH (analyzeMolecule smiles) /\
  (1 <= countLabel "Fingerprint region" peaks <= 7)%nat.
Proof.
  intros Hg Hf Hcn peaks. pose proof (noPattern_not_acetone smiles Hf) as Hs.
  destruct (noPattern_specs smiles g n Hg Hf Hcn)
    as [base [fs [Hps [Hl [Hfp [Hne [Hlab [Hno Hyes]]]]]]]].
  split.
  - destruct (hasSp3CH (analyzeMolecule smiles)) eqn:Hsp.
    + destruct (Hyes eq_refl) as [q [Hq [Hqa [Hqc [Hqt Hqw]]]]].
      destruct (ir_plain_present smiles g n q Hg Hs) as [p [Hp Hpa]].
      * rewrite Hps. apply in_or_app. left. exact Hq.
      * exact Hqc.
      * lra.
      * apply dip_sp3_stretch; assumption.
      * apply existsb_exists. exists p. split; [exact Hp |]. rewrite Hpa, Hqa. reflexivity.
    + specialize (Hno eq_refl). subst base. simpl in Hps.
      destruct (existsb _ peaks) eqn:E; [| reflexivity].
      apply existsb_exists in E as [p [Hp Hpa]]. apply String.eqb_eq in Hpa.
      destruct (ir_plain_labels smiles g n p Hg Hs Hp) as [q [Hq Hqa]].
      rewrite Hps in Hq. rewrite Forall_forall in Hfp. destruct (Hfp q Hq) as [Hqf _].
      congruence.
  - split.
    + destruct fs as [| q fs']; [contradiction |].
      rewrite Forall_forall in Hfp. destruct (Hfp q (or_introl eq_refl)) as [Hqa [Hqc [Hqt Hqw]]].
      destruct (ir_plain_present smiles g n q Hg Hs) as [p [Hp Hpa]].
      * rewrite Hps. apply in_or_app. right. left. reflexivity.
      * lra.
      * lra.
      * apply dip_fingerprint; assumption.
      * apply (countLabel_pos _ _ p Hp). rewrite Hpa. exact Hqa.
    + eapply Nat.le_trans; [apply (ir_plain_count smiles g n _ Hg Hs) |].
      rewrite Hps, filter_app, length_app.
      set (f := fun q => String.eqb (IRPeakInfo.assignment q) "Fingerprint region").
      replace (filter f base) with (@nil IRPeakInfo.t).
      * simpl. eapply Nat.le_trans; [apply filter_length_le | exact Hl].
      * destruct (filter f base) as [| q l] eqn:Ef; [reflexivity | exfalso].
        assert (Hq : In q (filter f base)) by (rewrite Ef; left; reflexivity).
        apply filter_In in Hq as [Hq Hqa]. apply String.eqb_eq in Hqa.
        destruct (Hlab q Hq) as [H | H]; rewrite H in Hqa; discriminate.
Qed.

(** ** The acetone characteristic peaks *)

Lemma acetone_base_CO (g : nat -> R) (m : nat) (q : IRPeakInfo.t) :
  valid_source g -> In q (fst (irCharacteristicPeaks "CC(=O)C" acetoneFeatures g m)) ->
  includes (IRPeakInfo.assignment q) "C=O" = true ->
  Rabs (IRPeakInfo.wavenumber q - 1715) < 50.
Proof.
  intros Hg Hq. unfold irCharacteristicPeaks, when_push, pushAll, irPeak, bind, random, ret in Hq.
  simpl in Hq.
  repeat (destruct Hq as [<- | Hq]; [simpl; try discriminate | ]); [| contradiction].
  intros _. gbounds g Hg. apply Rabs_def1; lra.
Qed.

Lemma acetone_specs (g : nat -> R) (n : nat) :
  valid_source g ->
  (exists q, In q (fst (irAllPeaks "CC(=O)C" g n)) /\ acetoneCO q) /\
  (forall q, In q (fst (irAllPeaks "CC(=O)C" g n)) ->
             includes (IRPeakInfo.assignment q) "C=O" = true -> acetoneCO q).
Proof.
  intros Hg. unfold irAllPeaks, bind. rewrite analyze_acetone. fold acetoneFeatures.
  destruct (irCharacteristicPeaks "CC(=O)C" acetoneFeatures g n) as [base m1] eqn:E1.
  assert (Hbase : forall q, In q base -> includes (IRPeakInfo.assignment q) "C=O" = true ->
                            Rabs (IRPeakInfo.wavenumber q - 1715) < 50).
  { intros q Hq. apply (acetone_base_CO g n q Hg). rewrite E1. exact Hq. }
  pose proof (fingerprintRegion_spec base g m1 Hg) as [fs [Hfs [_ [Hfp _]]]].
  destruct (fingerprintRegion base g m1) as [ps m2] eqn:E2. simpl in Hfs. subst ps.
  assert (Hkeep : forall q, In q (filter acetoneKeep (base ++ fs)) ->
                            includes (IRPeakInfo.assignment q) "C=O" = false).
  { intros q Hq. apply filter_In in Hq as [Hq Hk].
    destruct (includes (IRPeakInfo.assignment q) "C=O") eqn:Ec; [exfalso | reflexivity].
    apply in_app_or in Hq as [Hq | Hq].
    - pose proof (Hbase q Hq Ec) as Hw. unfold acetoneKeep in Hk. rewrite Ec in Hk.
      replace (Rltb _ 50) with true in Hk by (symmetry; apply Rltb_true_iff, Hw).
      discriminate.
    - rewrite Forall_forall in Hfp. destruct (Hfp q Hq) as [Ha _]. rewrite Ha in Ec.
      discriminate. }
  unfold acetoneOverride. simpl.
  unfold acetoneIRPeaks, irPeakC, bind, random, ret. simpl.
  split.
  - eexists. split; [apply in_or_app; right; left; reflexivity |].
    unfold acetoneCO. simpl. gbounds g Hg. repeat split; try reflexivity; lra.
  - intros q Hq Hc. apply in_app_or in Hq as [Hq | Hq].
    + rewrite (Hkeep q Hq) in Hc. discriminate.
    + repeat (destruct Hq as [<- | Hq]; [simpl in Hc; try discriminate | ]); [| contradiction].
      unfold acetoneCO. simpl. gbounds g Hg. repeat split; try reflexivity; lra.
Qed.

(** ** The acetone label simplification *)

Lemma simplifyLabel_fields (p : IRSpectrumPeak.t) :
  IRSpectrumPeak.wavenumber (simplifyLabel p) = IRSpectrumPeak.wavenumber p /\
  IRSpectrumPeak.transmittance (simplifyLabel p) = IRSpectrumPeak.transmittance p.
Proof.
  unfold simplifyLabel, relabel. cbv zeta.
  destruct (includes _ "C-C"); [| destruct (includes _ "CH3 bend");
    [| destruct (includes _ "C=O"); [| destruct (includes _ "C-H")]]]; simpl; auto.
Qed.

Lemma simplifyLabel_CO (p : IRSpectrumPeak.t) :
  IRSpectrumPeak.assignment (simplifyLabel p) = "C=O" ->
  includes (IRSpectrumPeak.assignment p) "C=O" = true.
Proof.
  unfold simplifyLabel, relabel. cbv zeta.
  destruct (includes _ "C-C"); [simpl; discriminate |].
  destruct (includes _ "CH3 bend"); [simpl; discriminate |].
  destruct (includes _ "C=O") eqn:E; [reflexivity |].
  destruct (includes _ "C-H"); [simpl; discriminate |].
  intros H. rewrite H in E. discriminate.
Qed.

Lemma simplifyLabel_of_CO (p : IRSpectrumPeak.t) :
  IRSpectrumPeak.assignment p = "C=O" -> IRSpectrumPeak.assignment (simplifyLabel p) = "C=O".
Proof. intros H. unfold simplifyLabel. cbv zeta. rewrite H. reflexivity. Qed.

(** C3. For acetone ("CC(=O)C") the IR peak list has a peak labelled "C=O",
    and every peak so labelled lies between 1695 and 1735 cm-1 with a
    transmittance below 15 %. The label arises only from the curated
    acetone entry (centered at 1715 +/- 2.5). *)
Theorem acetone_ir_carbonyl (g : nat -> R) (n : nat) :
  valid_source g ->
  let peaks := IRSpectrumData.peaks (fst (simulateIRSpectrum "CC(=O)C" g n)) in
  (exists p, In p peaks /\ IRSpectrumPeak.assignment p = "C=O") /\
  (forall p, In p peaks -> IRSpectrumPeak.assignment p = "C=O" ->
     1695 <= IRSpectrumPeak.wavenumber p <= 1735 /\ IRSpectrumPeak.transmittance p < 15).
Proof.
  intros Hg peaks.
  destruct (simulateIRSpectrum_eq "CC(=O)C" g n) as [ps [n1 [acc [n2 [E1 [E2 E]]]]]].
  unfold peaks. rewrite E. cbn [IRSpectrumData.peaks]. rewrite String.eqb_refl.
  pose proof (acetone_specs g n Hg) as [[q0 [Hq0 Hco0]] Hall].
  rewrite E1 in Hq0, Hall. cbn [fst] in Hq0, Hall.
  pose proof (irCurve_inv ps (Z.to_nat irNumPoints) g n1 Hg) as Hinv.
  rewrite E2 in Hinv. cbn [fst] in Hinv. pose proof Hinv as [Hnd [Hok _]].
  set (mm := snd acc) in *.
  assert (Hdip : forall q, In q ps -> acetoneCO q ->
                           exists v, map_get (irKey q) mm = Some v /\ snd v < 15).
  { intros q Hq [Ha [Hc [Ht Hw]]].
    destruct (curve_dip ps acc q Hinv Hq ltac:(lra) ltac:(lra)) as [v [Hv Hle]].
    exists v. split; [exact Hv |].
    eapply Rle_lt_trans; [exact Hle | apply dip_acetone_CO; assumption]. }
  split.
  - destruct (Hdip q0 Hq0 Hco0) as [[x t] [Hv Ht]]. cbn [snd] in Ht.
    assert (Hthr : t < irThreshold)
      by (unfold irThreshold, irNoiseAmplitude, baselineLevel; lra).
    destruct (formatPeaks_covers mm (irKey q0) x t (map_get_some_in _ _ _ Hv) Hthr)
      as [lp [Hlp Hla]].
    assert (Hsl : IRSpectrumPeak.assignment (simplifyLabel lp) = "C=O").
    { apply simplifyLabel_of_CO. rewrite Hla. apply Hco0. }
    destruct (firstOccurrences_covers
                (map simplifyLabel (sort_by irByWavenumber (formatPeaks mm)))
                (simplifyLabel lp)) as [y [Hy Hya]].
    { apply in_map. apply in_sort_by. exact Hlp. }
    exists y. split; [apply in_sort_by; exact Hy | congruence].
  - intros p Hp Hpa. apply in_sort_by, firstOccurrences_incl in Hp.
    apply in_map_iff in Hp as [lp [<- Hlp]]. apply in_sort_by in Hlp.
    destruct (simplifyLabel_fields lp) as [-> ->].
    apply simplifyLabel_CO in Hpa.
    destruct (formatPeaks_from mm lp Hlp) as [k [x [t [Hin [-> _]]]]].
    cbn [IRSpectrumPeak.assignment IRSpectrumPeak.wavenumber IRSpectrumPeak.transmittance] in *.
    destruct (Hok k x t Hin) as [q [Hq [Hk Hx]]].
    assert (Hqc : acetoneCO q) by (apply Hall; [exact Hq | rewrite <- Hk in Hpa; exact Hpa]).
    destruct (Hdip q Hq Hqc) as [v [Hv Hv15]].
    rewrite Hk, (map_get_in k (x, t) mm Hnd Hin) in Hv. inversion Hv; subst v.
    cbn [snd] in Hv15. split; [| exact Hv15].
    destruct Hqc as [_ [Hc [_ Hw]]]. unfold windowOf, Rmax in Hx.
    apply Rabs_def2 in Hx. destruct (Rle_dec 5 (IRPeakInfo.width q / 3)); lra.
Qed.

Lemma acetone_ir_carbonyl_witness :
  valid_source (fun _ => 0) /\
  let peaks := IRSpectrumData.peaks (fst (simulateIRSpectrum "CC(=O)C" (fun _ => 0) 0%nat)) in
  (exists p, In p peaks /\ IRSpectrumPeak.assignment p = "C=O") /\
  (forall p, In p peaks -> IRSpectrumPeak.assignment p = "C=O" ->
     1695 <= IRSpectrumPeak.wavenumber p <= 1735 /\ IRSpectrumPeak.transmittance p < 15).
Proof.
  assert (Hg : valid_source (fun _ => 0)) by (intros k; lra).
  split; [exact Hg | apply (acetone_ir_carbonyl (fun _ => 0) 0%nat Hg)].
Defined.

(** ** The empty descriptor *)

Lemma analyze_empty : analyzeMolecule "" = noFeatures.
Proof. reflexivity. Qed.

Lemma noFeatures_ir_labels (smiles : string) (g : nat -> R) (n : nat) (p : IRSpectrumPeak.t) :
  valid_source g -> analyzeMolecule smiles = noFeatures -> includes smiles "C#N" = false ->
  In p (IRSpectrumData.peaks (fst (simulateIRSpectrum smiles g n))) ->
  IRSpectrumPeak.assignment p = "Fingerprint region".
Proof.
  intros Hg Hf Hcn Hp.
  assert (Hnp : noPattern (analyzeMolecule smiles)) by (left; exact Hf).
  pose proof (noPattern_not_acetone smiles Hnp) as Hs.
  destruct (noPattern_specs smiles g n Hg Hnp Hcn)
    as [base [fs [Hps [_ [Hfp [_ [_ [Hno _]]]]]]]].
  rewrite Hf in Hno. specialize (Hno eq_refl). subst base.
  destruct (ir_plain_labels smiles g n p Hg Hs Hp) as [q [Hq Hqa]].
  rewrite Hps in Hq. rewrite Forall_forall in Hfp. destruct (Hfp q Hq) as [Hqf _].
  congruence.
Qed.

Lemma countLabel_all (a : string) (l : list IRSpectrumPeak.t) :
  (forall p, In p l -> IRSpectrumPeak.assignment p = a) -> countLabel a l = List.length l.
Proof.
  intros H. unfold countLabel. rewrite forallb_filter_id; [reflexivity |].
  apply forallb_forall. intros p Hp. apply String.eqb_eq, H, Hp.
Qed.

Lemma uvCurve_length (ts : list Transition.t) (k : nat) (g : nat -> R) (m : nat) :
  List.length (fst (uvCurve ts k g m)) = k.
Proof.
  revert m; induction k as [| k IH]; intros m; simpl; [reflexivity |].
  unfold bind. specialize (IH m). destruct (uvCurve ts k g m) as [sp m'].
  unfold random, ret. simpl in *. rewrite length_app. simpl. lia.
Qed.

(** with no transition the curve stays below the significance threshold *)
Lemma uvCurve_quiet (k : nat) (g : nat -> R) (m : nat) :
  valid_source g ->
  Forall (fun pt => UVPoint.absorbance pt < uvThreshold) (fst (uvCurve [] k g m)).
Proof.
  intros Hg. revert m; induction k as [| k IH]; intros m; simpl; [constructor |].
  unfold bind. specialize (IH m). destruct (uvCurve [] k g m) as [sp m'].
  unfold random, ret. simpl in *.
  apply Forall_app. split; [exact IH | constructor; [| constructor]].
  simpl. unfold uvAbsorbance, uvThreshold, baselineAbsorbance, uvNoiseAmplitude. simpl.
  pose proof (Hg m'). unfold Rmax. destruct (Rle_dec _ _); lra.
Qed.

Lemma uvFindPeaks_quiet (ts : list Transition.t) (sp : list UVPoint.t) :
  Forall (fun pt => UVPoint.absorbance pt < uvThreshold) sp -> uvFindPeaks ts sp = [].
Proof.
  intros Hq. unfold uvFindPeaks. generalize (seq 1 (List.length sp - 2)).
  intros l. induction l as [| i l IH]; simpl; [reflexivity |].
  unfold uvPeakStep at 2.
  assert (Hc : Rltb uvThreshold (UVPoint.absorbance (nth i sp defaultPoint)) = false).
  { unfold Rltb. destruct (Rlt_dec _ _) as [Hlt | _]; [exfalso | reflexivity].
    destruct (nth_in_or_default i sp defaultPoint) as [Hin | Hd]; [| rewrite Hd in Hlt].
    - rewrite Forall_forall in Hq. specialize (Hq _ Hin). lra.
    - unfold uvThreshold, baselineAbsorbance, uvNoiseAmplitude, defaultPoint in Hlt.
      simpl in Hlt. lra. }
  cbv zeta. rewrite Hc, andb_false_r. exact IH.
Qed.

Lemma empty_descriptor_facts (g : nat -> R) (n : nat) :
  valid_source g ->
  fst (simulateNMRSpectrum "" H1 g n) = [] /\
  fst (simulateNMRSpectrum "" C13 g n) = [] /\
  UVSpectrumData.peaks (fst (simulateUVSpectrum "" g n)) = [] /\
  Z.of_nat (List.length (UVSpectrumData.spectrum (fst (simulateUVSpectrum "" g n)))) = 1201%Z /\
  Z.of_nat (List.length (IRSpectrumData.spectrum (fst (simulateIRSpectrum "" g n)))) = 7201%Z /\
  (forall p, In p (IRSpectrumData.peaks (fst (simulateIRSpectrum "" g n))) ->
             IRSpectrumPeak.assignment p = "Fingerprint region") /\
  (1 <= List.length (IRSpectrumData.peaks (fst (simulateIRSpectrum "" g n))) <= 7)%nat.
Proof.
  intros Hg.
  split; [rewrite simulateNMRSpectrum_eq, analyze_empty; reflexivity |].
  split; [rewrite simulateNMRSpectrum_eq, analyze_empty; reflexivity |].
  destruct (simulateUVSpectrum_eq "" g n) as [ts [n1 [sp [n2 [E1 [E2 E]]]]]].
  rewrite analyze_empty in E1. unfold uvTransitions, when_add, bind, ret in E1. simpl in E1.
  inversion E1; subst ts n1. rewrite E. cbn [UVSpectrumData.peaks UVSpectrumData.spectrum].
  pose proof (uvCurve_quiet (Z.to_nat uvNumPoints) g n Hg) as Hq.
  pose proof (uvCurve_length [] (Z.to_nat uvNumPoints) g n) as Hl.
  rewrite E2 in Hq, Hl. cbn [fst] in Hq, Hl.
  split; [rewrite (uvFindPeaks_quiet [] sp Hq); reflexivity |].
  split; [rewrite Hl; reflexivity |].
  split.
  - destruct (simulateIRSpectrum_eq "" g n) as [ps [n1 [acc [n2' [_ [E2' E']]]]]].
    rewrite E'. cbn [IRSpectrumData.spectrum].
    pose proof (irCurve_length ps (Z.to_nat irNumPoints) g n1) as Hl'.
    rewrite E2' in Hl'. cbn [fst] in Hl'. rewrite Hl'. reflexivity.
  - assert (Hlab : forall p, In p (IRSpectrumData.peaks (fst (simulateIRSpectrum "" g n))) ->
                             IRSpectrumPeak.assignment p = "Fingerprint region")
      by (intros p; apply noFeatures_ir_labels; [exact Hg | exact analyze_empty | reflexivity]).
    split; [exact Hlab |].
    assert (Hnp : noPattern (analyzeMolecule "")) by (left; exact analyze_empty).
    destruct (no_pattern_ir_facts "" g n Hg Hnp eq_refl) as [_ Hc].
    rewrite (countLabel_all _ _ Hlab) in Hc. exact Hc.
Qed.

Lemma irAllPeaks_S : List.length (fst (irAllPeaks "S" (fun _ => 0%R) 0%nat)) = 1%nat.
Proof.
  unfold irAllPeaks, bind. rewrite analyze_S.
  unfold irCharacteristicPeaks, when_push, bind, ret. simpl.
  unfold fingerprintRegion, bind, random. simpl. rewrite Rmult_0_l, Math_floor_0. simpl.
  unfold bind, random, ret. simpl.
  assert (E1 : Rltb (Rabs (600 + 0 * 750 - (600 + 0 * 750))) 40 = true)
    by (apply Rltb_true_iff; rewrite Rminus_diag, Rabs_R0; lra).
  assert (E2 : Rltb (45 + 0 * 45) 50 = true) by (apply Rltb_true_iff; lra).
  rewrite E1, E2. simpl. rewrite E1, E2. simpl. reflexivity.
Qed.

(* ================================================================== *)
(** * The empty descriptor and descriptors with no functional group *)

(** C1 (amended). For the empty descriptor "", the 1H and 13C NMR peak
    lists and the UV-Vis peak list are empty, but the curves are not: the
    UV-Vis curve has its 1201 points and the IR curve its 7201 points; the
    IR peak list holds between 1 and 7 peaks, all labelled "Fingerprint
    region". *)
Theorem empty_descriptor_results (g : nat -> R) (n : nat) :
  valid_source g ->
  fst (simulateNMRSpectrum "" H1 g n) = [] /\
  fst (simulateNMRSpectrum "" C13 g n) = [] /\
  UVSpectrumData.peaks (fst (simulateUVSpectrum "" g n)) = [] /\
  Z.of_nat (List.length (UVSpectrumData.spectrum (fst (simulateUVSpectrum "" g n)))) = 1201%Z /\
  Z.of_nat (List.length (IRSpectrumData.spectrum (fst (simulateIRSpectrum "" g n)))) = 7201%Z /\
  (forall p, In p (IRSpectrumData.peaks (fst (simulateIRSpectrum "" g n))) ->
             IRSpectrumPeak.assignment p = "Fingerprint region") /\
  (1 <= List.length (IRSpectrumData.peaks (fst (simulateIRSpectrum "" g n))) <= 7)%nat.
Proof. intros Hg. exact (empty_descriptor_facts g n Hg). Qed.

Lemma empty_descriptor_results_witness :
  valid_source (fun _ => 0%R) /\
  fst (simulateNMRSpectrum "" H1 (fun _ => 0%R) 0%nat) = [] /\
  fst (simulateNMRSpectrum "" C13 (fun _ => 0%R) 0%nat) = [] /\
  UVSpectrumData.peaks (fst (simulateUVSpectrum "" (fun _ => 0%R) 0%nat)) = [] /\
  Z.of_nat (List.length (UVSpectrumData.spectrum
                           (fst (simulateUVSpectrum "" (fun _ => 0%R) 0%nat)))) = 1201%Z /\
  Z.of_nat (List.length (IRSpectrumData.spectrum
                           (fst (simulateIRSpectrum "" (fun _ => 0%R) 0%nat)))) = 7201%Z /\
  (forall p, In p (IRSpectrumData.peaks (fst (simulateIRSpectrum "" (fun _ => 0%R) 0%nat))) ->
             IRSpectrumPeak.assignment p = "Fingerprint region") /\
  (1 <= List.length (IRSpectrumData.peaks
                       (fst (simulateIRSpectrum "" (fun _ => 0%R) 0%nat))) <= 7)%nat.
Proof.
  assert (Hg : valid_source (fun _ => 0%R)) by (intros k; lra).
  split; [exact Hg | exact (empty_descriptor_results (fun _ => 0%R) 0%nat Hg)].
Defined.

(** C1 as stated is false: with the random source constantly 0, the IR
    curve of "" has 7201 points, the UV-Vis curve 1201 points, and the IR
    peak list is not empty. *)
Lemma empty_descriptor_curves_not_empty :
  Z.of_nat (List.length (IRSpectrumData.spectrum
                           (fst (simulateIRSpectrum "" (fun _ => 0%R) 0%nat)))) = 7201%Z /\
  Z.of_nat (List.length (UVSpectrumData.spectrum
                           (fst (simulateUVSpectrum "" (fun _ => 0%R) 0%nat)))) = 1201%Z /\
  (1 <= List.length (IRSpectrumData.peaks (fst (simulateIRSpectrum "" (fun _ => 0%R) 0%nat))))%nat.
Proof.
  assert (Hg : valid_source (fun _ => 0%R)) by (intros k; lra).
  destruct (empty_descriptor_facts (fun _ => 0%R) 0%nat Hg)
    as [_ [_ [_ [Hu [Hi [_ [Hp _]]]]]]].
  split; [exact Hi | split; [exact Hu | exact Hp]].
Qed.

(** C2 (amended). For a descriptor whose features match no functional-group
    pattern (every flag false, except possibly the saturated C-H flag, set
    when it contains a "C") and which has no "C#N", the IR peak list has a
    "C-H stretch (sp3)" peak exactly when the saturated C-H flag is set, and
    between 1 and 7 "Fingerprint region" peaks. *)
Theorem no_pattern_ir_peaks (smiles : string) (g : nat -> R) (n : nat) :
  valid_source g -> noPattern (analyzeMolecule smiles) -> includes smiles "C#N" = false ->
  let peaks := IRSpectrumData.peaks (fst (simulateIRSpectrum smiles g n)) in
  existsb (fun p => String.eqb (IRSpectrumPeak.assignment p) "C-H stretch (sp3)") peaks
    = hasSp3CH (analyzeMolecule smiles) /\
  (1 <= countLabel "Fingerprint region" peaks <= 7)%nat.
Proof. intros Hg Hf Hcn. exact (no_pattern_ir_facts smiles g n Hg Hf Hcn). Qed.

Lemma no_pattern_ir_peaks_witness :
  valid_source (fun _ => 0%R) /\ noPattern (analyzeMolecule "CCC") /\
  includes "CCC" "C#N" = false /\
  let peaks := IRSpectrumData.peaks (fst (simulateIRSpectrum "CCC" (fun _ => 0%R) 0%nat)) in
  existsb (fun p => String.eqb (IRSpectrumPeak.assignment p) "C-H stretch (sp3)") peaks
    = hasSp3CH (analyzeMolecule "CCC") /\
  (1 <= countLabel "Fingerprint region" peaks <= 7)%nat.
Proof.
  assert (Hg : valid_source (fun _ => 0%R)) by (intros k; lra).
  assert (Hf : noPattern (analyzeMolecule "CCC")) by (right; vm_compute; reflexivity).
  split; [exact Hg |]. split; [exact Hf |]. split; [reflexivity |].
  exact (no_pattern_ir_peaks "CCC" (fun _ => 0%R) 0%nat Hg Hf eq_refl).
Defined.

(** C2 as stated is false: "S" matches no functional-group pattern, and
    with the random source constantly 0 its IR peaks are all "Fingerprint
    region" peaks (no C-H stretch), at most one of them. *)
Lemma no_pattern_ir_S :
  forallb (fun p => String.eqb (IRSpectrumPeak.assignment p) "Fingerprint region")
          (IRSpectrumData.peaks (fst (simulateIRSpectrum "S" (fun _ => 0%R) 0%nat))) = true /\
  (countLabel "Fingerprint region"
     (IRSpectrumData.peaks (fst (simulateIRSpectrum "S" (fun _ => 0%R) 0%nat))) <= 1)%nat.
Proof.
  assert (Hg : valid_source (fun _ => 0%R)) by (intros k; lra).
  split.
  - apply forallb_forall. intros p Hp. apply String.eqb_eq.
    exact (noFeatures_ir_labels "S" (fun _ => 0%R) 0%nat p Hg analyze_S eq_refl Hp).
  - eapply Nat.le_trans; [apply (ir_plain_count "S" (fun _ => 0%R) 0%nat _ Hg eq_refl) |].
    rewrite <- irAllPeaks_S. apply filter_length_le.
Qed.

(* ================================================================== *)
(** * Further properties of the simulator and of its callers *)

(** ** Feature detection *)

Lemma string_app_assoc (a b c : string) : ((a ++ b) ++ c)%string = (a ++ (b ++ c))%string.
Proof. induction a as [| x a IH]; simpl; [reflexivity | rewrite IH; reflexivity]. Qed.

Lemma prefix_app_split (p q s : string) :
  String.prefix (p ++ q) s = true -> exists s', s = (p ++ s')%string /\ String.prefix q s' = true.
Proof.
  revert s; induction p as [| a p IH]; intros s H; [exists s; split; [reflexivity | exact H] |].
  destruct s as [| b s]; simpl in H; [discriminate |].
  destruct (ascii_dec a b) as [<- |]; [| discriminate].
  destruct (IH s H) as [s' [-> Hq]]. exists s'. split; [reflexivity | exact Hq].
Qed.

Lemma prefix_app_self (p s : string) : String.prefix p (p ++ s) = true.
Proof.
  induction p as [| a p IH]; simpl; [destruct s; reflexivity |].
  destruct (ascii_dec a a) as [_ | n]; [exact IH | contradiction n; reflexivity].
Qed.

(** [s.includes(pat)] holds when [pat] is a prefix of some suffix of [s] *)
Lemma includes_spec (s pat : string) :
  includes s pat = true <-> exists s1 s2, s = (s1 ++ s2)%string /\ String.prefix pat s2 = true.
Proof.
  split.
  - induction s as [| c s IH]; simpl; intros H.
    + apply orb_true_iff in H as [H | H]; [| discriminate].
      exists EmptyString, EmptyString. split; [reflexivity | exact H].
    + apply orb_true_iff in H as [H | H].
      * exists EmptyString, (String c s). split; [reflexivity | exact H].
      * destruct (IH H) as [s1 [s2 [-> H2]]].
        exists (String c s1), s2. split; [reflexivity | exact H2].
  - intros [s1 [s2 [-> H2]]]. induction s1 as [| c s1 IH]; simpl.
    + destruct s2; simpl in *; rewrite H2; reflexivity.
    + rewrite IH. apply orb_true_r.
Qed.

Lemma includes_app_l (s p q : string) :
  includes s (p ++ q) = true -> includes s p = true.
Proof.
  rewrite !includes_spec. intros [s1 [s2 [-> H]]].
  destruct (prefix_app_split _ _ _ H) as [s' [-> _]].
  exists s1, (p ++ s')%string. split; [reflexivity | apply prefix_app_self].
Qed.

Lemma includes_app_r (s p q : string) :
  includes s (p ++ q) = true -> includes s q = true.
Proof.
  rewrite !includes_spec. intros [s1 [s2 [-> H]]].
  destruct (prefix_app_split _ _ _ H) as [s' [-> Hq]].
  exists (s1 ++ p)%string, s'. split; [symmetry; apply string_app_assoc | exact Hq].
Qed.

Lemma test_sp3_includes_C (s : string) :
  test_at_some re_sp3_at s = true -> includes s "C" = true.
Proof.
  induction s as [| c s IH]; intros H; [discriminate |].
  cbn [test_at_some] in H. apply orb_true_iff in H as [H | H].
  - destruct (ascii_dec c "C"%char) as [-> |].
    + apply includes_spec. exists EmptyString, (String "C" s).
      split; [reflexivity | apply (prefix_app_self "C" s)].
    + unfold re_sp3_at in H.
      destruct c as [[] [] [] [] [] [] [] []]; try discriminate; congruence.
  - apply includes_spec in IH; [| exact H]. destruct IH as [s1 [s2 [-> H2]]].
    apply includes_spec. exists (String c s1), s2. split; [reflexivity | exact H2].
Qed.

(** X1: the flags of [analyzeMolecule] are consistent: an ester, an amide
    or a carboxylic acid is always also a carbonyl, a carboxylic acid is
    always also an ester, and an amide N-H is only reported for an amide and
    never together with an amine N-H. *)
Theorem analyzeMolecule_flag_implications (smiles : string) :
  let f := analyzeMolecule smiles in
  (hasEster f = true -> hasCarbonyl f = true) /\
  (hasAmide f = true -> hasCarbonyl f = true) /\
  (hasCOOH f = true -> hasEster f = true /\ hasCarbonyl f = true) /\
  (hasAmideNH f = true -> hasAmide f = true /\ hasNH f = false).
Proof.
  unfold analyzeMolecule. cbv zeta.
  destruct (String.eqb smiles ""); [cbn; repeat split; discriminate |]. cbn -[includes].
  pose proof (includes_app_l smiles "C(=O)" "O") as H1.
  pose proof (includes_app_r smiles "O" "C=O") as H2.
  pose proof (includes_app_l smiles "C(=O)" "N") as H3.
  pose proof (includes_app_r smiles "N" "C=O") as H4.
  cbn -[includes] in H1, H2, H3, H4.
  destruct (includes smiles "C(=O)O") eqn:Ea, (includes smiles "OC=O") eqn:Eb,
           (includes smiles "C(=O)N") eqn:Ec, (includes smiles "NC=O") eqn:Ed;
    cbn [orb andb];
    rewrite ?(H1 eq_refl), ?(H2 eq_refl), ?(H3 eq_refl), ?(H4 eq_refl), ?orb_true_r;
    repeat split; intros; try discriminate; try reflexivity;
    destruct (includes smiles "(=O)OH" || includes smiles "O=CO"); try discriminate;
    reflexivity.
Qed.

Lemma hasSp3CH_includes_C (smiles : string) :
  hasSp3CH (analyzeMolecule smiles) = includes smiles "C".
Proof.
  unfold analyzeMolecule.
  destruct (String.eqb smiles "") eqn:E.
  - apply String.eqb_eq in E. subst smiles. reflexivity.
  - cbn -[includes test_at_some].
    destruct (includes smiles "C") eqn:EC; [rewrite !orb_true_r; reflexivity |].
    rewrite orb_false_r.
    destruct (test_at_some re_sp3_at smiles) eqn:E1.
    + rewrite (test_sp3_includes_C _ E1) in EC. discriminate.
    + destruct (includes smiles "CH") eqn:E2; [| reflexivity].
      rewrite (includes_app_l smiles "C" "H" E2) in EC. discriminate.
Qed.

(** X2: the saturated C-H flag is set exactly when the descriptor contains
    an upper-case [C]. *)
Theorem analyzeMolecule_sp3_iff_C (smiles : string) :
  hasSp3CH (analyzeMolecule smiles) = includes smiles "C".
Proof. exact (hasSp3CH_includes_C smiles). Qed.

(** ** NMR peak lists *)

Lemma nmrPush_keeps_v (P : NMRPeak.t -> Prop) (s ds i di : R) (mult a : string)
  (st : NMRState) :
  (forall r1 r2 c, 0 <= r1 < 1 -> 0 <= r2 < 1 ->
     P (NMRPeak.mk (s + r1 * ds) (i + r2 * di) mult a None (Some [c]))) ->
  Forall P (fst st) ->
  holds valid_source (fun st => Forall P (fst st)) (nmrPush s ds i di mult a st).
Proof.
  intros Hp Hst g n Hg. unfold nmrPush, bind, random, ret. simpl.
  apply Forall_app. split; [exact Hst | constructor; [apply Hp; apply Hg | constructor]].
Qed.

(** one guarded block of pushes keeps [Forall P] *)
Ltac nmr_block :=
  let st := fresh "st" in let Hs := fresh "Hs" in
  first
    [ apply nmrWhen_keeps; [intros st Hs; apply nmrPush_keeps_v;
                            [intros ? ? ? ? ?; lazymatch goal with |- ?Q _ => try unfold Q end; simpl;
                             repeat split; try reflexivity; lra
                            | exact Hs] | assumption]
    | apply nmrWhen_keeps; [intros st Hs;
                            lazymatch goal with |- holds _ ?I _ => eapply (holds_bind _ I) end;
                            [apply nmrPush_keeps_v;
                             [intros ? ? ? ? ?; lazymatch goal with |- ?Q _ => try unfold Q end; simpl;
                             repeat split; try reflexivity; lra
                             | exact Hs] |];
                            intros ? ?; apply nmrPush_keeps_v;
                            [intros ? ? ? ? ?; lazymatch goal with |- ?Q _ => try unfold Q end; simpl;
                             repeat split; try reflexivity; lra
                            | assumption] | assumption] ].

Lemma protonPeaks_ranges (smiles : string) (f : MoleculeFeatures) :
  holds valid_source
    (Forall (fun p => 0.9 <= NMRPeak.shift p < 12 /\ 0.2 <= NMRPeak.intensity p < 1.3 /\
                      NMRPeak.coupling p = None))
    (protonPeaks smiles f).
Proof.
  set (P := fun p => 0.9 <= NMRPeak.shift p < 12 /\ 0.2 <= NMRPeak.intensity p < 1.3 /\
                     NMRPeak.coupling p = None).
  assert (H0 : Forall P (fst (([] : list NMRPeak.t), 0%nat))) by constructor.
  unfold protonPeaks.
  do 9 (eapply (holds_bind _ (fun st : NMRState => Forall P (fst st)));
        [nmr_block | intros ? ?]).
  destruct (String.eqb smiles "CC(=O)C").
  - eapply (holds_bind _ (fun r => 0 <= r < 1)); [apply holds_random |].
    intros r Hr. apply holds_ret. constructor; [| constructor].
    unfold P; simpl. repeat split; try reflexivity; lra.
  - apply holds_ret. assumption.
Qed.

Lemma carbonPeaks_ranges (smiles : string) (f : MoleculeFeatures) :
  holds valid_source
    (Forall (fun p => 15 <= NMRPeak.shift p < 210 /\ 0.3 <= NMRPeak.intensity p < 1.1 /\
                      NMRPeak.coupling p = None))
    (carbonPeaks smiles f).
Proof.
  set (P := fun p => 15 <= NMRPeak.shift p < 210 /\ 0.3 <= NMRPeak.intensity p < 1.1 /\
                     NMRPeak.coupling p = None).
  unfold carbonPeaks.
  eapply (holds_bind _ (fun st : NMRState => Forall P (fst st))).
  { apply nmrWhen_keeps; [| constructor].
    intros st Hst g n Hg. unfold carbonylCarbon, bind, random, ret.
    pose proof (Hg n) as Ha. pose proof (Hg (S n)) as Hb.
    destruct (hasKetoneAldehyde f); [| destruct (hasEster f);
      [| destruct (hasAmide f); [| destruct (hasCOOH f)]]];
    simpl; apply Forall_app; (split; [exact Hst | constructor; [| constructor]]);
    unfold P; simpl; repeat split; try reflexivity; lra. }
  intros ? ?.
  do 6 (eapply (holds_bind _ (fun st : NMRState => Forall P (fst st)));
        [nmr_block | intros ? ?]).
  destruct (String.eqb smiles "CC(=O)C").
  - intros g n Hg. unfold bind, random, ret. simpl.
    pose proof (Hg n). pose proof (Hg (S n)).
    constructor; [| constructor; [| constructor]];
    unfold P; simpl; repeat split; try reflexivity; lra.
  - apply holds_ret. assumption.
Qed.

Lemma nmr_peak_ranges (smiles : string) (type : Nucleus) (g : nat -> R) (n : nat)
  (Hg : valid_source g) :
  Forall (fun p => match type with
                   | H1 => 0.9 <= NMRPeak.shift p < 12 /\ 0.2 <= NMRPeak.intensity p < 1.3
                   | C13 => 15 <= NMRPeak.shift p < 210 /\ 0.3 <= NMRPeak.intensity p < 1.1
                   end /\ NMRPeak.coupling p = None)
    (fst (simulateNMRSpectrum smiles type g n)).
Proof.
  rewrite simulateNMRSpectrum_eq. apply Forall_forall. intros p Hp.
  apply in_sort_by in Hp.
  destruct type.
  - pose proof (protonPeaks_ranges smiles (analyzeMolecule smiles) g n Hg) as H.
    rewrite Forall_forall in H. destruct (H p Hp) as (? & ? & ?). tauto.
  - pose proof (carbonPeaks_ranges smiles (analyzeMolecule smiles) g n Hg) as H.
    rewrite Forall_forall in H. destruct (H p Hp) as (? & ? & ?). tauto.
Qed.

(** X3: with a random source in [0, 1), every simulated 1H peak has a shift in
    [0.9, 12) and an intensity in [0.2, 1.3), every simulated 13C peak a shift
    in [15, 210) and an intensity in [0.3, 1.1), and no peak carries a
    coupling constant. *)
Theorem simulateNMRSpectrum_ranges (smiles : string) (type : Nucleus) (g : nat -> R) (n : nat)
  (Hg : valid_source g) :
  Forall (fun p => match type with
                   | H1 => 0.9 <= NMRPeak.shift p < 12 /\ 0.2 <= NMRPeak.intensity p < 1.3
                   | C13 => 15 <= NMRPeak.shift p < 210 /\ 0.3 <= NMRPeak.intensity p < 1.1
                   end /\ NMRPeak.coupling p = None)
    (fst (simulateNMRSpectrum smiles type g n)).
Proof. exact (nmr_peak_ranges smiles type g n Hg). Qed.

Lemma simulateNMRSpectrum_ranges_witness :
  valid_source (fun _ => 0) /\
  Forall (fun p => 0.9 <= NMRPeak.shift p < 12 /\ 0.2 <= NMRPeak.intensity p < 1.3 /\
                   NMRPeak.coupling p = None)
    (fst (simulateNMRSpectrum "CCO" H1 (fun _ => 0) 0%nat)).
Proof.
  assert (Hv : valid_source (fun _ => 0)) by (intro; lra).
  split; [exact Hv |].
  eapply Forall_impl; [| exact (simulateNMRSpectrum_ranges "CCO" H1 (fun _ => 0) 0%nat Hv)].
  intros p Hp; simpl in Hp; tauto.
Defined.

Lemma nmrWhen_keeps_gen (V : (nat -> R) -> Prop) (I : NMRState -> Prop) (b : bool)
  (m : NMRState -> M NMRState) (st : NMRState) :
  (forall st, I st -> holds V I (m st)) -> I st -> holds V I (nmrWhen b m st).
Proof. intros Hm Hst. unfold nmrWhen. destruct b; [apply Hm, Hst | apply holds_ret, Hst]. Qed.

Lemma idsInv_snoc (st : NMRState) (p : NMRPeak.t) :
  idsInv st -> NMRPeak.atomIds p = Some [S (snd st)] ->
  idsInv (fst st ++ [p], S (snd st)).
Proof.
  intros [Hf Ha] Hp. split; cbn [fst snd].
  - rewrite flat_map_app, Hf. cbn [flat_map]. unfold nmrIds at 1. rewrite Hp, List.seq_S.
    rewrite app_nil_r. reflexivity.
  - apply Forall_app. split; [exact Ha | constructor; [rewrite Hp; discriminate | constructor]].
Qed.

Lemma nmrPush_ids (V : (nat -> R) -> Prop) (s ds i di : R) (mult a : string) (st : NMRState) :
  idsInv st -> holds V idsInv (nmrPush s ds i di mult a st).
Proof.
  intros Hst g n _. unfold nmrPush, bind, random, ret. simpl.
  apply idsInv_snoc; [exact Hst | reflexivity].
Qed.

Lemma carbonylCarbon_ids (V : (nat -> R) -> Prop) (f : MoleculeFeatures) (st : NMRState) :
  idsInv st -> holds V idsInv (carbonylCarbon f st).
Proof.
  intros Hst g n _. unfold carbonylCarbon, bind, random, ret.
  destruct (hasKetoneAldehyde f); [| destruct (hasEster f);
    [| destruct (hasAmide f); [| destruct (hasCOOH f)]]];
  simpl; (apply idsInv_snoc; [exact Hst | reflexivity]).
Qed.

Ltac ids_block :=
  apply nmrWhen_keeps_gen; [| assumption];
  intros ? ?;
  first [ apply nmrPush_ids; assumption
        | eapply (holds_bind _ idsInv); [apply nmrPush_ids; assumption |];
          intros ? ?; apply nmrPush_ids; assumption
        | apply carbonylCarbon_ids; assumption ].

Lemma idsInv_nodup (st : NMRState) :
  idsInv st -> NoDup (flat_map nmrIds (fst st)) /\
               Forall (fun p => NMRPeak.atomIds p <> None) (fst st).
Proof. intros [Hf Ha]. rewrite Hf. split; [apply seq_NoDup | exact Ha]. Qed.

Lemma protonPeaks_ids (smiles : string) (f : MoleculeFeatures) :
  holds (fun _ => True)
    (fun l => NoDup (flat_map nmrIds l) /\ Forall (fun p => NMRPeak.atomIds p <> None) l)
    (protonPeaks smiles f).
Proof.
  assert (H0 : idsInv ([], 0%nat)) by (split; [reflexivity | constructor]).
  unfold protonPeaks.
  do 9 (eapply (holds_bind _ idsInv); [ids_block | intros ? ?]).
  destruct (String.eqb smiles "CC(=O)C").
  - eapply (holds_bind _ (fun _ => True)); [intros ? ? ?; exact I |].
    intros r _. apply holds_ret. split.
    + simpl. unfold nmrIds; simpl. repeat constructor; simpl; intuition discriminate.
    + repeat constructor. discriminate.
  - apply holds_ret. apply idsInv_nodup. assumption.
Qed.

Lemma carbonPeaks_ids (smiles : string) (f : MoleculeFeatures) :
  holds (fun _ => True)
    (fun l => NoDup (flat_map nmrIds l) /\ Forall (fun p => NMRPeak.atomIds p <> None) l)
    (carbonPeaks smiles f).
Proof.
  assert (H0 : idsInv ([], 0%nat)) by (split; [reflexivity | constructor]).
  unfold carbonPeaks.
  do 7 (eapply (holds_bind _ idsInv); [ids_block | intros ? ?]).
  destruct (String.eqb smiles "CC(=O)C").
  - intros g n _. unfold bind, random, ret. simpl. split.
    + unfold nmrIds; simpl. repeat constructor; simpl; intuition discriminate.
    + repeat constructor; discriminate.
  - apply holds_ret. apply idsInv_nodup. assumption.
Qed.

(** X4: the simulated NMR peaks all carry atom ids, and no id is shared by
    two peaks or repeated within one. *)
Theorem simulateNMRSpectrum_atomIds_distinct (smiles : string) (type : Nucleus)
  (g : nat -> R) (n : nat) :
  let peaks := fst (simulateNMRSpectrum smiles type g n) in
  NoDup (flat_map nmrIds peaks) /\ Forall (fun p => NMRPeak.atomIds p <> None) peaks.
Proof.
  cbv zeta. rewrite simulateNMRSpectrum_eq.
  assert (H : NoDup (flat_map nmrIds (fst (match type with
                      | H1 => protonPeaks smiles (analyzeMolecule smiles)
                      | C13 => carbonPeaks smiles (analyzeMolecule smiles) end g n))) /\
              Forall (fun p => NMRPeak.atomIds p <> None)
                (fst (match type with
                      | H1 => protonPeaks smiles (analyzeMolecule smiles)
                      | C13 => carbonPeaks smiles (analyzeMolecule smiles) end g n)))
    by (destruct type; [apply protonPeaks_ids | apply carbonPeaks_ids]; exact I).
  destruct H as [Hn Ha].
  pose proof (sort_by_perm nmrByShiftDesc
               (fst (match type with
                     | H1 => protonPeaks smiles (analyzeMolecule smiles)
                     | C13 => carbonPeaks smiles (analyzeMolecule smiles) end g n))) as Hp.
  split.
  - eapply Permutation.Permutation_NoDup; [| exact Hn].
    apply Permutation.Permutation_sym. apply Permutation.Permutation_flat_map. exact Hp.
  - rewrite Forall_forall in *. intros p Hin. apply Ha.
    eapply Permutation.Permutation_in; [exact Hp | exact Hin].
Qed.

(** ** UV-Vis peak picking *)

Lemma uvFindPeaks_from (ts : list Transition.t) (sp : list UVPoint.t) (pk : UVPeak.t) :
  In pk (uvFindPeaks ts sp) ->
  exists i, (1 <= i)%nat /\ (i + 1 < List.length sp)%nat /\
    UVPeak.wavelength pk = UVPoint.wavelength (nth i sp defaultPoint) /\
    UVPeak.absorbance pk = UVPoint.absorbance (nth i sp defaultPoint) /\
    UVPoint.absorbance (nth (i - 1) sp defaultPoint) < UVPoint.absorbance (nth i sp defaultPoint) /\
    UVPoint.absorbance (nth (i + 1) sp defaultPoint) < UVPoint.absorbance (nth i sp defaultPoint) /\
    uvThreshold < UVPoint.absorbance (nth i sp defaultPoint) /\
    UVPeak.assignment pk = closestTransition ts (UVPoint.wavelength (nth i sp defaultPoint)) /\
    UVPeak.transition pk = closestTransition ts (UVPoint.wavelength (nth i sp defaultPoint)).
Proof.
  unfold uvFindPeaks.
  assert (Hb : forall i, In i (seq 1 (List.length sp - 2)) ->
                         (1 <= i)%nat /\ (i + 1 < List.length sp)%nat)
    by (intros i Hi; apply in_seq in Hi; lia).
  revert Hb. generalize (seq 1 (List.length sp - 2)) as is.
  intros is Hb.
  assert (Hacc : forall pk, In pk ([] : list UVPeak.t) -> exists i, (1 <= i)%nat /\
    (i + 1 < List.length sp)%nat /\
    UVPeak.wavelength pk = UVPoint.wavelength (nth i sp defaultPoint) /\
    UVPeak.absorbance pk = UVPoint.absorbance (nth i sp defaultPoint) /\
    UVPoint.absorbance (nth (i - 1) sp defaultPoint) < UVPoint.absorbance (nth i sp defaultPoint) /\
    UVPoint.absorbance (nth (i + 1) sp defaultPoint) < UVPoint.absorbance (nth i sp defaultPoint) /\
    uvThreshold < UVPoint.absorbance (nth i sp defaultPoint) /\
    UVPeak.assignment pk = closestTransition ts (UVPoint.wavelength (nth i sp defaultPoint)) /\
    UVPeak.transition pk = closestTransition ts (UVPoint.wavelength (nth i sp defaultPoint)))
    by (intros ? []).
  revert Hacc. generalize ([] : list UVPeak.t) as acc.
  induction is as [| i is IH]; intros acc Hacc; simpl; [exact (Hacc pk) |].
  apply IH; [intros j Hj; apply Hb; right; exact Hj |].
  intros q Hq. unfold uvPeakStep in Hq.
  destruct (Rltb (UVPoint.absorbance (nth (i - 1) sp defaultPoint))
                 (UVPoint.absorbance (nth i sp defaultPoint))) eqn:E1;
  destruct (Rltb (UVPoint.absorbance (nth (i + 1) sp defaultPoint))
                 (UVPoint.absorbance (nth i sp defaultPoint))) eqn:E2;
  destruct (Rltb uvThreshold (UVPoint.absorbance (nth i sp defaultPoint))) eqn:E3;
  simpl in Hq; try (apply Hacc; exact Hq).
  destruct (existsb _ acc); [apply Hacc; exact Hq |].
  apply in_app_or in Hq. destruct Hq as [Hq | [Hq | []]]; [apply Hacc; exact Hq |].
  subst q. destruct (Hb i (or_introl eq_refl)) as [Hi1 Hi2].
  exists i. simpl. apply Rltb_true in E1, E2, E3. repeat split; auto.
Qed.

(** X5: every UV-Vis peak reported is a point of the returned curve at an
    interior index whose absorbance is strictly above both neighbours and
    above the noise threshold [uvThreshold] (0.045); it carries that point's
    wavelength and absorbance, and its assignment equals its transition. *)
Theorem simulateUVSpectrum_peaks_local_maxima (smiles : string) (g : nat -> R) (n : nat) :
  let d := fst (simulateUVSpectrum smiles g n) in
  let sp := UVSpectrumData.spectrum d in
  Forall (fun pk => exists i, (1 <= i)%nat /\ (i + 1 < List.length sp)%nat /\
    UVPeak.wavelength pk = UVPoint.wavelength (nth i sp defaultPoint) /\
    UVPeak.absorbance pk = UVPoint.absorbance (nth i sp defaultPoint) /\
    UVPoint.absorbance (nth (i - 1) sp defaultPoint) < UVPeak.absorbance pk /\
    UVPoint.absorbance (nth (i + 1) sp defaultPoint) < UVPeak.absorbance pk /\
    uvThreshold < UVPeak.absorbance pk /\
    UVPeak.assignment pk = UVPeak.transition pk)
    (UVSpectrumData.peaks d).
Proof.
  cbv zeta.
  destruct (simulateUVSpectrum_eq smiles g n) as (ts & n1 & sp & n2 & _ & _ & ->).
  simpl. apply Forall_forall. intros pk Hpk. apply in_sort_by in Hpk.
  destruct (uvFindPeaks_from ts sp pk Hpk) as (i & H1 & H2 & Hw & Ha & Hp & Hn & Ht & Hs & Htr).
  exists i. rewrite Ha. repeat split; auto. congruence.
Qed.

Lemma closestTransition_inv (x : R) (rest seen : list Transition.t) (acc : string * option R) :
  let inRange tr := Rabs (x - Transition.lambdaMax tr) < Transition.width tr * 2 in
  let Inv seen (acc : string * option R) :=
    (acc = ("Electronic transition", None) /\ forall tr, In tr seen -> ~ inRange tr) \/
    (exists tr, In tr seen /\ acc = (Transition.type tr, Some (Rabs (x - Transition.lambdaMax tr))) /\
       inRange tr /\
       forall tr', In tr' seen -> inRange tr' ->
         Rabs (x - Transition.lambdaMax tr) <= Rabs (x - Transition.lambdaMax tr')) in
  Inv seen acc ->
  Inv (seen ++ rest)
    (fold_left (fun (acc : string * option R) tr =>
                  let dist := Rabs (x - Transition.lambdaMax tr) in
                  if match snd acc with None => true | Some m => Rltb dist m end
                     && Rltb dist (Transition.width tr * 2)
                  then (Transition.type tr, Some dist) else acc) rest acc).
Proof.
  intros inRange Inv. revert seen acc.
  induction rest as [| tr rest IH]; intros seen acc H; simpl; [rewrite app_nil_r; exact H |].
  replace (seen ++ tr :: rest) with ((seen ++ [tr]) ++ rest)
    by (rewrite <- app_assoc; reflexivity).
  apply IH.
  destruct H as [[-> Hn] | (t0 & Ht0 & -> & Hr0 & Hm)]; simpl.
  - destruct (Rltb (Rabs (x - Transition.lambdaMax tr)) (Transition.width tr * 2)) eqn:E.
    + right. exists tr. apply Rltb_true in E. split; [apply in_or_app; right; left; reflexivity |].
      split; [reflexivity | split; [exact E |]].
      intros tr' Hin Hr. apply in_app_or in Hin. destruct Hin as [Hin | [<- | []]].
      * exfalso. exact (Hn tr' Hin Hr).
      * lra.
    + left. split; [reflexivity |]. apply Rltb_false in E.
      intros tr' Hin Hr. apply in_app_or in Hin. destruct Hin as [Hin | [<- | []]].
      * exact (Hn tr' Hin Hr).
      * unfold inRange in Hr. lra.
  - destruct (Rltb (Rabs (x - Transition.lambdaMax tr)) (Rabs (x - Transition.lambdaMax t0))) eqn:E1;
    destruct (Rltb (Rabs (x - Transition.lambdaMax tr)) (Transition.width tr * 2)) eqn:E2; simpl.
    + right. exists tr. apply Rltb_true in E1, E2.
      split; [apply in_or_app; right; left; reflexivity |].
      split; [reflexivity | split; [exact E2 |]].
      intros tr' Hin Hr. apply in_app_or in Hin. destruct Hin as [Hin | [<- | []]].
      * specialize (Hm tr' Hin Hr). lra.
      * lra.
    + right. exists t0. split; [apply in_or_app; left; exact Ht0 |].
      split; [reflexivity | split; [exact Hr0 |]]. apply Rltb_false in E2.
      intros tr' Hin Hr. apply in_app_or in Hin. destruct Hin as [Hin | [<- | []]].
      * exact (Hm tr' Hin Hr).
      * unfold inRange in Hr. lra.
    + right. exists t0. split; [apply in_or_app; left; exact Ht0 |].
      split; [reflexivity | split; [exact Hr0 |]]. apply Rltb_false in E1.
      intros tr' Hin Hr. apply in_app_or in Hin. destruct Hin as [Hin | [<- | []]].
      * exact (Hm tr' Hin Hr).
      * exact E1.
    + right. exists t0. split; [apply in_or_app; left; exact Ht0 |].
      split; [reflexivity | split; [exact Hr0 |]]. apply Rltb_false in E1.
      intros tr' Hin Hr. apply in_app_or in Hin. destruct Hin as [Hin | [<- | []]].
      * exact (Hm tr' Hin Hr).
      * exact E1.
Qed.

(** X6: the label given to a UV-Vis maximum at wavelength [x] is the type of
    a transition whose [lambdaMax] lies within twice its width of [x] and is
    at least as close to [x] as every other such transition; when no
    transition is that close, the label is "Electronic transition". *)
Theorem closestTransition_spec (ts : list Transition.t) (x : R) :
  (closestTransition ts x = "Electronic transition" /\
   forall tr, In tr ts -> Transition.width tr * 2 <= Rabs (x - Transition.lambdaMax tr)) \/
  (exists tr, In tr ts /\ closestTransition ts x = Transition.type tr /\
     Rabs (x - Transition.lambdaMax tr) < Transition.width tr * 2 /\
     forall tr', In tr' ts -> Rabs (x - Transition.lambdaMax tr') < Transition.width tr' * 2 ->
       Rabs (x - Transition.lambdaMax tr) <= Rabs (x - Transition.lambdaMax tr')).
Proof.
  unfold closestTransition.
  pose proof (closestTransition_inv x ts [] ("Electronic transition", None)) as H.
  cbv zeta in H. simpl in H.
  destruct H as [[-> Hn] | (tr & Hin & -> & Hr & Hm)].
  - left. split; [reflexivity | intros ? []].
  - left; split; [reflexivity |]. intros tr Hin.
    apply Rnot_lt_le. exact (Hn tr Hin).
  - right. exists tr. simpl. auto.
Qed.

(** X7: a descriptor with no aromatic ring, carbonyl, ester, amide or alkene
    gets no UV-Vis transition, so for a random source in [0, 1) its curve never
    exceeds the noise threshold and no UV-Vis peak is reported. *)
Theorem simulateUVSpectrum_no_chromophore (smiles : string) (g : nat -> R) (n : nat)
  (Hg : valid_source g)
  (Hf : let f := analyzeMolecule smiles in
        hasAromatic f = false /\ hasCarbonyl f = false /\ hasEster f = false /\
        hasAmide f = false /\ hasAlkene f = false) :
  UVSpectrumData.peaks (fst (simulateUVSpectrum smiles g n)) = [] /\
  Forall (fun pt => UVPoint.absorbance pt < uvThreshold)
    (UVSpectrumData.spectrum (fst (simulateUVSpectrum smiles g n))).
Proof.
  destruct (simulateUVSpectrum_eq smiles g n) as (ts & n1 & sp & n2 & E1 & E2 & ->).
  cbv zeta in Hf. destruct Hf as (Ha & Hc & He & Hm & Hl).
  unfold uvTransitions, when_add, bind, ret in E1.
  rewrite Ha, Hc, He, Hm, Hl in E1. inversion E1; subst ts n1.
  pose proof (uvCurve_quiet (Z.to_nat uvNumPoints) g n Hg) as Hq.
  rewrite E2 in Hq. cbn [fst] in Hq. simpl.
  split; [rewrite (uvFindPeaks_quiet [] sp Hq); reflexivity | exact Hq].
Qed.

Lemma simulateUVSpectrum_no_chromophore_witness :
  UVSpectrumData.peaks (fst (simulateUVSpectrum "CCO" (fun _ => 0) 0%nat)) = [] /\
  Forall (fun pt => UVPoint.absorbance pt < uvThreshold)
    (UVSpectrumData.spectrum (fst (simulateUVSpectrum "CCO" (fun _ => 0) 0%nat))).
Proof.
  apply (simulateUVSpectrum_no_chromophore "CCO" (fun _ => 0) 0%nat).
  - intro; lra.
  - vm_compute. repeat split.
Defined.

(** ** Sampling grids *)

Lemma irCurve_x (ps : list IRPeakInfo.t) (k : nat) (g : nat -> R) (m : nat) (i : nat) :
  (i < k)%nat -> fst (nth i (fst (fst (irCurve ps k g m))) (0, 0)) = irX i.
Proof.
  revert m i; induction k as [| k IH]; intros m i Hi; [lia |].
  simpl. unfold bind.
  pose proof (irCurve_length ps k g m) as Hl.
  specialize (IH m). destruct (irCurve ps k g m) as [[pts mm] m'].
  unfold irSample, bind, random, ret. simpl in *.
  destruct (Nat.lt_ge_cases i k) as [Hlt | Hge].
  - rewrite app_nth1 by lia. apply IH. exact Hlt.
  - assert (i = k) by lia. subst i.
    rewrite app_nth2 by lia. rewrite Hl, Nat.sub_diag. reflexivity.
Qed.

Lemma uvCurve_x (ts : list Transition.t) (k : nat) (g : nat -> R) (m : nat) (i : nat) :
  (i < k)%nat -> UVPoint.wavelength (nth i (fst (uvCurve ts k g m)) defaultPoint) = uvX i.
Proof.
  revert m i; induction k as [| k IH]; intros m i Hi; [lia |].
  simpl. unfold bind.
  pose proof (uvCurve_length ts k g m) as Hl.
  specialize (IH m). destruct (uvCurve ts k g m) as [sp m'].
  unfold random, ret. simpl in *.
  destruct (Nat.lt_ge_cases i k) as [Hlt | Hge].
  - rewrite app_nth1 by lia. apply IH. exact Hlt.
  - assert (i = k) by lia. subst i.
    rewrite app_nth2 by lia. rewrite Hl, Nat.sub_diag. reflexivity.
Qed.

Lemma uvStep_half : uvStep = / 2.
Proof.
  unfold uvStep, uvMaxWavelength, uvMinWavelength, uvNumPoints.
  replace (IZR ((800 - 200) * 2 + 1)) with 1201 by reflexivity. field.
Qed.

(** X8: the IR curve has 7201 points, point [i] at wavenumber [400 + i/2]
    (so from 400 to 4000 cm-1 in steps of 0.5); the UV-Vis curve has 1201
    points, point [i] at wavelength [200 + i/2] (200 to 800 nm). *)
Theorem simulated_curve_grids (smiles : string) (g : nat -> R) (n : nat) :
  let ir := IRSpectrumData.spectrum (fst (simulateIRSpectrum smiles g n)) in
  let uv := UVSpectrumData.spectrum (fst (simulateUVSpectrum smiles g n)) in
  Z.of_nat (List.length ir) = 7201%Z /\
  (forall i, (Z.of_nat i < 7201)%Z -> fst (nth i ir (0, 0)) = 400 + INR i / 2) /\
  Z.of_nat (List.length uv) = 1201%Z /\
  (forall i, (Z.of_nat i < 1201)%Z -> UVPoint.wavelength (nth i uv defaultPoint) = 200 + INR i / 2).
Proof.
  cbv zeta.
  destruct (simulateIRSpectrum_eq smiles g n) as (ps & n1 & acc & n2 & _ & E2 & ->).
  destruct (simulateUVSpectrum_eq smiles g n) as (ts & m1 & sp & m2 & _ & F2 & ->).
  cbn [IRSpectrumData.spectrum UVSpectrumData.spectrum].
  assert (Nir : Z.of_nat (Z.to_nat irNumPoints) = 7201%Z)
    by (rewrite Z2Nat.id; unfold irNumPoints; lia).
  assert (Nuv : Z.of_nat (Z.to_nat uvNumPoints) = 1201%Z)
    by (rewrite Z2Nat.id; unfold uvNumPoints; lia).
  pose proof (irCurve_length ps (Z.to_nat irNumPoints) g n1) as Li.
  pose proof (uvCurve_length ts (Z.to_nat uvNumPoints) g m1) as Lu.
  rewrite E2 in Li. rewrite F2 in Lu. cbn [fst] in Li, Lu.
  repeat split.
  - rewrite Li. exact Nir.
  - intros i Hi. pose proof (irCurve_x ps (Z.to_nat irNumPoints) g n1 i) as H.
    rewrite E2 in H. cbn [fst] in H. rewrite H by lia.
    unfold irX, irMinWavenumber. rewrite irStep_half. lra.
  - rewrite Lu. exact Nuv.
  - intros i Hi. pose proof (uvCurve_x ts (Z.to_nat uvNumPoints) g m1 i) as H.
    rewrite F2 in H. cbn [fst] in H. rewrite H by lia.
    unfold uvX, uvMinWavelength. rewrite uvStep_half. lra.
Qed.

(** ** IR peaks are curve points *)

Lemma fold_trackBody_values (x t : R) (l : list IRPeakInfo.t) (mm : Minima) k v :
  In (k, v) (fold_left (trackBody x t) l mm) -> In (k, v) mm \/ v = (x, t).
Proof.
  revert mm; induction l as [| p l IH]; intros mm Hin; simpl in Hin; [auto |].
  destruct (IH _ Hin) as [H | H]; [| auto].
  unfold trackBody in H; cbv zeta in H.
  destruct (Rltb _ _); [| auto].
  destruct (map_get _ _) as [[? ?] |]; [destruct (Rltb t _) |];
    try (apply map_in_set in H as [E | H]; [inversion E; auto | auto]); auto.
Qed.

Lemma irCurve_minima_points (ps : list IRPeakInfo.t) (k : nat) (g : nat -> R) (m : nat) :
  forall key x t, In (key, (x, t)) (snd (fst (irCurve ps k g m))) ->
                  In (x, t) (fst (fst (irCurve ps k g m))).
Proof.
  revert m; induction k as [| k IH]; intros m; simpl; [intros ? ? ? [] |].
  unfold bind. specialize (IH m). destruct (irCurve ps k g m) as [[pts mm] m'].
  unfold irSample, bind, random, ret. simpl in *. rewrite trackMinima_fold.
  intros key x t Hin. apply fold_trackBody_values in Hin as [H | H].
  - apply in_or_app. left. exact (IH _ _ _ H).
  - inversion H; subst. apply in_or_app. right. left. reflexivity.
Qed.

Lemma ir_peaks_on_curve (smiles : string) (g : nat -> R) (n : nat) :
  let d := fst (simulateIRSpectrum smiles g n) in
  Forall (fun p => In (IRSpectrumPeak.wavenumber p, IRSpectrumPeak.transmittance p)
                      (IRSpectrumData.spectrum d) /\
                   IRSpectrumPeak.transmittance p < irThreshold)
    (IRSpectrumData.peaks d).
Proof.
  cbv zeta.
  destruct (simulateIRSpectrum_eq smiles g n) as (ps & n1 & acc & n2 & _ & E2 & ->).
  cbn [IRSpectrumData.spectrum IRSpectrumData.peaks].
  pose proof (irCurve_minima_points ps (Z.to_nat irNumPoints) g n1) as Hm.
  rewrite E2 in Hm. cbn [fst] in Hm.
  assert (Hf : forall p, In p (formatPeaks (snd acc)) ->
                 In (IRSpectrumPeak.wavenumber p, IRSpectrumPeak.transmittance p) (fst acc) /\
                 IRSpectrumPeak.transmittance p < irThreshold).
  { intros p Hp. destruct (formatPeaks_from _ _ Hp) as (k & x & t & Hin & -> & Ht).
    simpl. split; [exact (Hm _ _ _ Hin) | exact Ht]. }
  apply Forall_forall. intros p Hp.
  destruct (String.eqb smiles "CC(=O)C").
  - apply in_sort_by in Hp. apply firstOccurrences_incl in Hp.
    apply in_map_iff in Hp as [q [<- Hq]]. apply in_sort_by in Hq.
    destruct (simplifyLabel_fields q) as [-> ->]. exact (Hf q Hq).
  - apply in_sort_by in Hp. exact (Hf p Hp).
Qed.

(** X9: every labelled IR peak, for any descriptor (the acetone relabelling
    included), is a point of the returned curve: its wavenumber and
    transmittance are those of one sample, and that transmittance is below
    [irThreshold] (96). *)
Theorem simulateIRSpectrum_peaks_on_curve (smiles : string) (g : nat -> R) (n : nat) :
  let d := fst (simulateIRSpectrum smiles g n) in
  Forall (fun p => In (IRSpectrumPeak.wavenumber p, IRSpectrumPeak.transmittance p)
                      (IRSpectrumData.spectrum d) /\
                   IRSpectrumPeak.transmittance p < irThreshold)
    (IRSpectrumData.peaks d).
Proof. exact (ir_peaks_on_curve smiles g n). Qed.

(** ** The chart components *)

Lemma ir_spectrum_points (smiles : string) (g : nat -> R) (n : nat) :
  Forall (fun pt => 400 <= fst pt <= 4000 /\ 0.1 <= snd pt <= 100)
    (IRSpectrumData.spectrum (fst (simulateIRSpectrum smiles g n))) /\
  List.length (IRSpectrumData.spectrum (fst (simulateIRSpectrum smiles g n))) = Z.to_nat irNumPoints.
Proof.
  destruct (simulateIRSpectrum_eq smiles g n) as (ps & n1 & acc & n2 & _ & E2 & ->).
  cbn [IRSpectrumData.spectrum].
  pose proof (irCurve_clamped ps (Z.to_nat irNumPoints) g n1) as Hc.
  pose proof (irCurve_length ps (Z.to_nat irNumPoints) g n1) as Hl.
  pose proof (irCurve_x ps (Z.to_nat irNumPoints) g n1) as Hx.
  rewrite E2 in Hc, Hl, Hx. cbn [fst] in Hc, Hl, Hx.
  split; [| exact Hl].
  apply Forall_forall. intros pt Hin. rewrite Forall_forall in Hc.
  split; [| apply Hc, Hin].
  destruct (In_nth _ _ (0, 0) Hin) as (i & Hi & Hpt).
  rewrite <- Hpt, Hx by lia. unfold irX, irMinWavenumber. rewrite irStep_half.
  assert (Hz : (Z.of_nat i < 7201)%Z).
  { rewrite Hl in Hi. apply Nat2Z.inj_lt in Hi.
    rewrite Z2Nat.id in Hi by (unfold irNumPoints; lia). unfold irNumPoints in Hi. lia. }
  rewrite INR_IZR_INZ.
  assert (0 <= IZR (Z.of_nat i) <= 7200) by (split; apply IZR_le; lia).
  lra.
Qed.

Lemma irChart_getX_bounds (w : R) : 400 <= w <= 4000 -> 60 <= IRChart.getX w <= 760.
Proof.
  intros Hw. unfold IRChart.getX, IRChart.chartWidth, IRChart.xRange, IRChart.xMax,
    IRChart.xMin, IRChart.width, IRChart.padding. simpl.
  lra.
Qed.

Lemma irChart_getY_bounds (t : R) : 0.1 <= t <= 100 -> 50 <= IRChart.getY t <= 390.
Proof.
  intros Ht. unfold IRChart.getY, IRChart.chartHeight, IRChart.yRange, IRChart.yMax,
    IRChart.yMin, IRChart.height, IRChart.padding. simpl.
  lra.
Qed.

(** X10: the IR component always draws the chart for a simulated result (the
    curve is never empty), every point of its line path lies inside the
    plot area [60, 760] x [50, 390] of the 800 x 450 canvas, and so does the
    marker of every labelled peak. *)
Theorem irChart_inside_plot (smiles : string) (g : nat -> R) (n : nat) :
  let d := fst (simulateIRSpectrum smiles g n) in
  IRChart.drawsChart d = true /\
  Forall (fun pt => 60 <= fst pt <= 760 /\ 50 <= snd pt <= 390) (IRChart.linePoints d) /\
  Forall (fun r => 60 <= snd (fst r) <= 760 /\ 50 <= snd r <= 390) (IRChart.renderedPeaks d).
Proof.
  cbv zeta.
  destruct (ir_spectrum_points smiles g n) as [Hs Hl].
  pose proof (ir_peaks_on_curve smiles g n) as Hp. cbv zeta in Hp.
  rewrite Forall_forall in Hs, Hp.
  split; [| split].
  - unfold IRChart.drawsChart. rewrite Hl. reflexivity.
  - apply Forall_forall. intros pt Hin. unfold IRChart.linePoints in Hin.
    apply in_map_iff in Hin as [[w t] [<- Hin]]. destruct (Hs _ Hin) as [Hw Ht].
    simpl in Hw, Ht. simpl.
    split; [apply irChart_getX_bounds | apply irChart_getY_bounds]; assumption.
  - apply Forall_forall. intros r Hin. unfold IRChart.renderedPeaks in Hin.
    apply in_map_iff in Hin as [p [<- Hin]]. destruct (Hp _ Hin) as [Hc _].
    destruct (Hs _ Hc) as [Hw Ht]. simpl in Hw, Ht. simpl.
    split; [apply irChart_getX_bounds | apply irChart_getY_bounds]; assumption.
Qed.

Lemma uv_spectrum_points (smiles : string) (g : nat -> R) (n : nat) :
  let sp := UVSpectrumData.spectrum (fst (simulateUVSpectrum smiles g n)) in
  Forall (fun pt => 200 <= UVPoint.wavelength pt <= 800 /\ 0 <= UVPoint.absorbance pt) sp /\
  List.length sp = Z.to_nat uvNumPoints.
Proof.
  cbv zeta.
  destruct (simulateUVSpectrum_eq smiles g n) as (ts & n1 & sp & n2 & _ & E2 & ->).
  cbn [UVSpectrumData.spectrum].
  pose proof (uvCurve_nonneg ts (Z.to_nat uvNumPoints) g n1) as Hc.
  pose proof (uvCurve_length ts (Z.to_nat uvNumPoints) g n1) as Hl.
  pose proof (uvCurve_x ts (Z.to_nat uvNumPoints) g n1) as Hx.
  rewrite E2 in Hc, Hl, Hx. cbn [fst] in Hc, Hl, Hx.
  split; [| exact Hl].
  apply Forall_forall. intros pt Hin. rewrite Forall_forall in Hc.
  split; [| apply Hc, Hin].
  destruct (In_nth _ _ defaultPoint Hin) as (i & Hi & Hpt).
  rewrite <- Hpt, Hx by lia. unfold uvX, uvMinWavelength. rewrite uvStep_half.
  assert (Hz : (Z.of_nat i < 1201)%Z).
  { rewrite Hl in Hi. apply Nat2Z.inj_lt in Hi.
    rewrite Z2Nat.id in Hi by (unfold uvNumPoints; lia). unfold uvNumPoints in Hi. lia. }
  rewrite INR_IZR_INZ.
  assert (0 <= IZR (Z.of_nat i) <= 1200) by (split; apply IZR_le; lia).
  lra.
Qed.

Lemma Math_ceil_ge (x : R) : x <= IZR (Math_ceil x).
Proof.
  unfold Math_ceil, Math_floor. destruct (archimed (- x)) as [H1 H2].
  rewrite opp_IZR, minus_IZR. lra.
Qed.

Lemma calculatedYMax_bounds (sp : list UVPoint.t) :
  0.1 <= UVChart.calculatedYMax sp /\
  Forall (fun pt => UVPoint.absorbance pt <= UVChart.calculatedYMax sp) sp.
Proof.
  unfold UVChart.calculatedYMax.
  induction sp as [| pt sp [IH1 IH2]]; simpl; [split; [lra | constructor] |].
  split; [eapply Rle_trans; [exact IH1 | apply Rmax_r] |].
  constructor; [apply Rmax_l |].
  eapply Forall_impl; [| exact IH2]. intros a Ha. eapply Rle_trans; [exact Ha | apply Rmax_r].
Qed.

Lemma uvChart_yMax_bounds (sp : list UVPoint.t) :
  0 < UVChart.yMax sp /\ UVChart.calculatedYMax sp * 1.2 <= UVChart.yMax sp.
Proof.
  destruct (calculatedYMax_bounds sp) as [H1 _].
  pose proof (Math_ceil_ge (UVChart.calculatedYMax sp * 1.2 * 10)) as Hc.
  unfold UVChart.yMax. split; lra.
Qed.

Lemma div_unit (a Y : R) : 0 < Y -> 0 <= a <= Y -> 0 <= a / Y <= 1.
Proof.
  intros HY Ha. assert (Hi : 0 < / Y) by (apply Rinv_0_lt_compat; lra).
  unfold Rdiv. split; [apply Rmult_le_pos; lra |].
  rewrite <- (Rinv_r Y) by lra. apply Rmult_le_compat_r; lra.
Qed.

Lemma uvChart_getX_bounds (w : R) : 200 <= w <= 800 -> 60 <= UVChart.getX w <= 760.
Proof.
  intros Hw. unfold UVChart.getX, UVChart.chartWidth, UVChart.xRange, UVChart.xMax,
    UVChart.xMin, UVChart.width, UVChart.padding. simpl. lra.
Qed.

Lemma uvChart_getY_bounds (sp : list UVPoint.t) (a : R) :
  0 <= a <= UVChart.calculatedYMax sp -> 50 <= UVChart.getY sp a <= 365.
Proof.
  intros Ha. destruct (uvChart_yMax_bounds sp) as [Hp Hy].
  assert (Hu : 0 <= (a - 0) / UVChart.yMax sp <= 1) by (apply div_unit; lra).
  unfold UVChart.getY, UVChart.yRange, UVChart.chartHeight, UVChart.height, UVChart.yMin,
    UVChart.padding. simpl. unfold UVChart.yMin in Hu. rewrite !Rminus_0_r in *. lra.
Qed.

(** X11: the UV-Vis component always draws the chart for a simulated result;
    its absorbance axis reaches at least 1.2 times the largest absorbance (and
    at least 0.12); the plot-bounds filter keeps every reported peak; and every
    point of the line path and every peak marker lies inside the plot area
    [60, 760] x [50, 365] of the 800 x 450 canvas. *)
Theorem uvChart_inside_plot (smiles : string) (g : nat -> R) (n : nat) :
  let d := fst (simulateUVSpectrum smiles g n) in
  let sp := UVSpectrumData.spectrum d in
  UVChart.drawsChart d = true /\
  0.12 <= UVChart.yMax sp /\
  Forall (fun pt => UVPoint.absorbance pt * 1.2 <= UVChart.yMax sp) sp /\
  filter UVChart.inPlot (UVSpectrumData.peaks d) = UVSpectrumData.peaks d /\
  Forall (fun pt => 60 <= fst pt <= 760 /\ 50 <= snd pt <= 365) (UVChart.linePoints d) /\
  Forall (fun r => 60 <= snd (fst r) <= 760 /\ 50 <= snd r <= 365) (UVChart.renderedPeaks d).
Proof.
  cbv zeta.
  pose proof (uv_spectrum_points smiles g n) as [Hs Hl]. cbv zeta in Hs, Hl.
  assert (Hpk : forall pk, In pk (UVSpectrumData.peaks (fst (simulateUVSpectrum smiles g n))) ->
            In (UVPoint.mk (UVPeak.wavelength pk) (UVPeak.absorbance pk))
               (UVSpectrumData.spectrum (fst (simulateUVSpectrum smiles g n))) /\
            uvThreshold < UVPeak.absorbance pk).
  { destruct (simulateUVSpectrum_eq smiles g n) as (ts & n1 & sp & n2 & _ & _ & ->).
    simpl. intros pk Hpk. apply in_sort_by in Hpk.
    destruct (uvFindPeaks_from ts sp pk Hpk) as (i & H1 & H2 & Hw & Ha & _ & _ & Ht & _).
    rewrite Hw, Ha. split; [| exact Ht].
    destruct (nth i sp defaultPoint) eqn:E. simpl. rewrite <- E. apply nth_In. lia. }
  set (d := fst (simulateUVSpectrum smiles g n)) in *.
  set (sp := UVSpectrumData.spectrum d) in *.
  destruct (calculatedYMax_bounds sp) as [Hc1 Hc2].
  destruct (uvChart_yMax_bounds sp) as [Hy1 Hy2].
  rewrite Forall_forall in Hs, Hc2.
  assert (Hth : 0 < uvThreshold)
    by (unfold uvThreshold, baselineAbsorbance, uvNoiseAmplitude; lra).
  split; [unfold UVChart.drawsChart; fold sp; rewrite Hl; reflexivity |].
  split; [lra |].
  split; [apply Forall_forall; intros pt Hin; specialize (Hc2 pt Hin); nra |].
  split.
  - apply forallb_filter_id. apply forallb_forall. intros pk Hin.
    destruct (Hpk pk Hin) as [Hp Ht]. destruct (Hs _ Hp) as [Hw _]. simpl in Hw.
    unfold UVChart.inPlot, UVChart.xMin, UVChart.xMax, UVChart.yMin, Rleb.
    destruct (Rle_dec 200 _); [| lra]. destruct (Rle_dec _ 800); [| lra].
    simpl. apply Rltb_true_iff. lra.
  - split.
    + apply Forall_forall. intros pt Hin. unfold UVChart.linePoints in Hin. fold sp in Hin.
      apply in_map_iff in Hin as [q [<- Hin]]. destruct (Hs _ Hin) as [Hw Ha].
      simpl. split; [apply uvChart_getX_bounds; exact Hw |].
      apply uvChart_getY_bounds. split; [exact Ha | apply Hc2, Hin].
    + apply Forall_forall. intros r Hin. unfold UVChart.renderedPeaks in Hin. fold sp in Hin.
      apply in_map_iff in Hin as [pk [<- Hin]]. apply filter_In in Hin as [Hin _].
      destruct (Hpk pk Hin) as [Hp _]. destruct (Hs _ Hp) as [Hw Ha]. simpl in Hw, Ha.
      simpl. split; [apply uvChart_getX_bounds; exact Hw |].
      apply uvChart_getY_bounds. split; [exact Ha | exact (Hc2 _ Hp)].
Qed.

Lemma nmr_term_pos (nmrType : Nucleus) (x : R) (p : NMRPeak.t) :
  0 < NMRPeak.intensity p ->
  0 < NMRPeak.intensity p / (1 + (Rabs (x - NMRPeak.shift p) / NMRChart.peakWidth nmrType) ^ 2).
Proof.
  intros Hi. apply Rdiv_lt_0_compat; [exact Hi |].
  pose proof (pow2_ge_0 (Rabs (x - NMRPeak.shift p) / NMRChart.peakWidth nmrType)). lra.
Qed.

Lemma totalIntensityAt_acc (nmrType : Nucleus) (l : list NMRPeak.t) (x acc : R) :
  Forall (fun p => 0 < NMRPeak.intensity p) l ->
  acc <= fold_left (fun total peak =>
               total + NMRPeak.intensity peak /
                       (1 + (Rabs (x - NMRPeak.shift peak) / NMRChart.peakWidth nmrType) ^ 2))
            l acc /\
  (l <> [] -> acc < fold_left (fun total peak =>
               total + NMRPeak.intensity peak /
                       (1 + (Rabs (x - NMRPeak.shift peak) / NMRChart.peakWidth nmrType) ^ 2))
            l acc).
Proof.
  revert acc; induction l as [| p l IH]; intros acc Hl; cbn [fold_left];
    [split; [lra | congruence] |].
  inversion Hl as [| ? ? Hp Hl']; subst.
  pose proof (nmr_term_pos nmrType x p Hp) as Ht.
  destruct (IH (acc + NMRPeak.intensity p /
                      (1 + (Rabs (x - NMRPeak.shift p) / NMRChart.peakWidth nmrType) ^ 2)) Hl')
    as [H1 _].
  split; [lra | intros _; lra].
Qed.

Lemma totalIntensityAt_pos (nmrType : Nucleus) (l : list NMRPeak.t) (x : R) :
  Forall (fun p => 0 < NMRPeak.intensity p) l ->
  0 <= NMRChart.totalIntensityAt nmrType l x /\
  (l <> [] -> 0 < NMRChart.totalIntensityAt nmrType l x).
Proof. intros Hl. exact (totalIntensityAt_acc nmrType l x 0 Hl). Qed.

Lemma maxOf_acc (pts : list (R * R)) (m : R) :
  let r := fold_left (fun m pt => if Rltb m (snd pt) then snd pt else m) pts m in
  m <= r /\ Forall (fun pt => snd pt <= r) pts.
Proof.
  cbv zeta. revert m; induction pts as [| pt pts IH]; intros m; simpl; [split; [lra | constructor] |].
  destruct (Rltb m (snd pt)) eqn:E.
  - apply Rltb_true in E. destruct (IH (snd pt)) as [H1 H2].
    split; [lra | constructor; assumption].
  - apply Rltb_false in E. destruct (IH m) as [H1 H2].
    split; [lra | constructor; [lra | assumption]].
Qed.

Lemma INR_resolution : INR NMRChart.resolution = 1000.
Proof. rewrite INR_IZR_INZ. reflexivity. Qed.

(** the points of the curve, their shift spread over the axis *)
Lemma curvePoints_in (nmrType : Nucleus) (l : list NMRPeak.t) (pt : R * R) :
  In pt (NMRChart.curvePoints nmrType l) ->
  exists i, 0 <= INR i <= 1000 /\
    pt = (NMRChart.xMin nmrType + INR i * (NMRChart.xMax nmrType - NMRChart.xMin nmrType) / 1000,
          NMRChart.totalIntensityAt nmrType l
            (NMRChart.xMin nmrType + INR i * (NMRChart.xMax nmrType - NMRChart.xMin nmrType) / 1000)).
Proof.
  unfold NMRChart.curvePoints. intros H. apply in_map_iff in H as [i [<- Hi]].
  apply in_seq in Hi. exists i. rewrite <- INR_resolution. split; [| reflexivity].
  split; [apply pos_INR | apply le_INR; unfold NMRChart.resolution in *; lia].
Qed.

Lemma maxYValue_pos (nmrType : Nucleus) (l : list NMRPeak.t) :
  Forall (fun p => 0 < NMRPeak.intensity p) l -> l <> [] ->
  0 < NMRChart.maxYValue nmrType l /\
  Forall (fun pt => 0 <= snd pt <= NMRChart.maxYValue nmrType l) (NMRChart.curvePoints nmrType l).
Proof.
  intros Hl Hne. unfold NMRChart.maxYValue.
  replace (match l with [] => 0 | _ => NMRChart.maxOf (NMRChart.curvePoints nmrType l) end)
    with (NMRChart.maxOf (NMRChart.curvePoints nmrType l)) by (destruct l; [congruence | reflexivity]).
  unfold NMRChart.maxOf. destruct (maxOf_acc (NMRChart.curvePoints nmrType l) 0) as [_ H2].
  cbv zeta in H2.
  assert (Hsnd : forall pt, In pt (NMRChart.curvePoints nmrType l) -> 0 <= snd pt).
  { intros pt Hin. destruct (curvePoints_in _ _ _ Hin) as [i [_ ->]].
    apply (totalIntensityAt_pos nmrType l _ Hl). }
  split.
  - assert (Hin : In (NMRChart.xMin nmrType + INR 0 * (NMRChart.xMax nmrType - NMRChart.xMin nmrType)
                        / INR NMRChart.resolution,
                      NMRChart.totalIntensityAt nmrType l
                        (NMRChart.xMin nmrType + INR 0 * (NMRChart.xMax nmrType - NMRChart.xMin nmrType)
                         / INR NMRChart.resolution)) (NMRChart.curvePoints nmrType l))
      by (unfold NMRChart.curvePoints; cbn [seq map]; left; reflexivity).
    rewrite Forall_forall in H2. specialize (H2 _ Hin). cbn [snd] in H2.
    pose proof (proj2 (totalIntensityAt_pos nmrType l
                  (NMRChart.xMin nmrType + INR 0 * (NMRChart.xMax nmrType - NMRChart.xMin nmrType)
                   / INR NMRChart.resolution) Hl) Hne). lra.
  - rewrite Forall_forall in *. intros pt Hin. split; [apply Hsnd, Hin | apply H2, Hin].
Qed.

Lemma Rmin_unit (a : R) : 0 <= a -> 0 <= Rmin 1.0 a <= 1.
Proof. intros Ha. unfold Rmin. destruct (Rle_dec 1.0 a); lra. Qed.

Lemma nmrChart_getX_bounds (nmrType : Nucleus) (s : R) :
  NMRChart.xMin nmrType <= s <= NMRChart.xMax nmrType -> 60 <= NMRChart.getX nmrType s <= 760.
Proof.
  intros Hs. unfold NMRChart.getX, NMRChart.chartWidth, NMRChart.xRange, NMRChart.width,
    NMRChart.padding. simpl.
  destruct nmrType; simpl in *; lra.
Qed.

Lemma nmrChart_y_bounds (nY : R) : 0 <= nY <= 1 ->
  50 <= top NMRChart.padding + NMRChart.chartHeight * (1 - nY / NMRChart.yRange) <= 390.
Proof.
  intros H. unfold NMRChart.chartHeight, NMRChart.yRange, NMRChart.yMax, NMRChart.yMin,
    NMRChart.height, NMRChart.padding. simpl. lra.
Qed.

(** X12: for a random source in [0, 1), the NMR component draws a curve
    (rather than the flat baseline) exactly when the simulated peak list is
    non-empty; every point of that curve and every peak marker then lies
    inside the plot area [60, 760] x [50, 390] of the 800 x 450 canvas, the
    markers standing on the baseline y = 390. *)
Theorem nmrChart_inside_plot (smiles : string) (type : Nucleus) (g : nat -> R) (n : nat)
  (Hg : valid_source g) :
  let peaks := fst (simulateNMRSpectrum smiles type g n) in
  let maxY := NMRChart.maxYValue type peaks in
  (NMRChart.svgPoints type peaks = None <-> peaks = []) /\
  (forall pts, NMRChart.svgPoints type peaks = Some pts ->
     Forall (fun pt => 60 <= fst pt <= 760 /\ 50 <= snd pt <= 390) pts) /\
  Forall (fun m => 60 <= fst (fst m) <= 760 /\ 50 <= snd (fst m) <= 390 /\ snd m = 390)
    (map (NMRChart.marker type maxY) peaks).
Proof.
  cbv zeta.
  pose proof (nmr_peak_ranges smiles type g n Hg) as Hr.
  set (peaks := fst (simulateNMRSpectrum smiles type g n)) in *.
  assert (Hpos : Forall (fun p => 0 < NMRPeak.intensity p) peaks)
    by (eapply Forall_impl; [| exact Hr]; intros p Hp; destruct type; simpl in Hp; lra).
  assert (Hsh : Forall (fun p => NMRChart.xMin type <= NMRPeak.shift p <= NMRChart.xMax type) peaks)
    by (eapply Forall_impl; [| exact Hr]; intros p Hp; destruct type;
        unfold NMRChart.xMin, NMRChart.xMax; simpl in Hp; lra).
  clearbody peaks. clear Hr.
  destruct peaks as [| p0 ps] eqn:Ep.
  - unfold NMRChart.svgPoints, NMRChart.maxYValue.
    replace (Rltb 0 0) with false by (unfold Rltb; destruct (Rlt_dec 0 0); [lra | reflexivity]).
    split; [split; reflexivity |]. split; [discriminate | constructor].
  - rewrite <- Ep in *.
    assert (Hne : peaks <> []) by (rewrite Ep; discriminate).
    destruct (maxYValue_pos type peaks Hpos Hne) as [HY Hc].
    unfold NMRChart.svgPoints.
    replace (Rltb 0 (NMRChart.maxYValue type peaks)) with true by (symmetry; apply Rltb_true_iff; exact HY).
    split; [split; [intros E; discriminate E | intros E; contradiction] |].
    split.
    + intros pts E.
      pose proof (f_equal (fun o : option (list (R * R)) =>
                             match o with Some l => l | None => [] end) E) as E'.
      cbv beta iota in E'. rewrite <- E'. clear E E'.
      apply Forall_forall. intros q Hq. apply in_map_iff in Hq as [pt [<- Hpt]].
      rewrite Forall_forall in Hc. specialize (Hc pt Hpt).
      destruct (curvePoints_in _ _ _ Hpt) as [i [Hi Ept]].
      unfold NMRChart.svgPoint. cbv zeta. cbn [fst snd].
      split.
      * rewrite Ept. cbn [fst]. unfold NMRChart.chartWidth, NMRChart.xRange, NMRChart.width,
          NMRChart.padding. cbn [left right].
        assert (Hw : NMRChart.xMax type - NMRChart.xMin type <> 0)
          by (destruct type; unfold NMRChart.xMin, NMRChart.xMax; lra).
        replace ((NMRChart.xMin type + INR i * (NMRChart.xMax type - NMRChart.xMin type) / 1000
                  - NMRChart.xMin type) / (NMRChart.xMax type - NMRChart.xMin type))
          with (INR i / 1000) by (field; exact Hw).
        lra.
      * apply nmrChart_y_bounds. apply Rmin_unit.
        destruct (div_unit (snd pt) (NMRChart.maxYValue type peaks) HY Hc). lra.
    + apply Forall_forall. intros m Hm. apply in_map_iff in Hm as [p [<- Hp]].
      rewrite Forall_forall in Hpos, Hsh.
      unfold NMRChart.marker. cbv zeta.
      replace (Rltb 0 (NMRChart.maxYValue type peaks)) with true
        by (symmetry; apply Rltb_true_iff; exact HY).
      cbn [fst snd]. split; [apply nmrChart_getX_bounds, Hsh, Hp |].
      split.
      * apply nmrChart_y_bounds. apply Rmin_unit.
        left. apply Rdiv_lt_0_compat; [apply Hpos, Hp | exact HY].
      * unfold NMRChart.chartHeight, NMRChart.height, NMRChart.padding. simpl. lra.
Qed.

Lemma nmrChart_inside_plot_witness :
  valid_source (fun _ => 0) /\
  (NMRChart.svgPoints H1 (fst (simulateNMRSpectrum "CCO" H1 (fun _ => 0) 0%nat)) = None <->
   fst (simulateNMRSpectrum "CCO" H1 (fun _ => 0) 0%nat) = []).
Proof.
  assert (Hv : valid_source (fun _ => 0)) by (intro; lra).
  split; [exact Hv |].
  exact (proj1 (nmrChart_inside_plot "CCO" H1 (fun _ => 0) 0%nat Hv)).
Defined.

(** ** Characteristic IR bands that reach the labelled peaks *)

Lemma holds_true {A : Type} (V : (nat -> R) -> Prop) (m : M A) : holds V (fun _ => True) m.
Proof. intros ? ? ?. exact I. Qed.

Lemma pushAll_has (V : (nat -> R) -> Prop) (P : IRPeakInfo.t -> Prop) (ps : list IRPeakInfo.t)
  (m : M (list IRPeakInfo.t)) :
  (exists q, In q ps /\ P q) -> holds V (fun ps => exists q, In q ps /\ P q) (pushAll ps m).
Proof.
  intros [q [Hq HP]] g n _. unfold pushAll, bind, ret. destruct (m g n). simpl.
  exists q. split; [apply in_or_app; left; exact Hq | exact HP].
Qed.

Lemma when_push_has (V : (nat -> R) -> Prop) (P : IRPeakInfo.t -> Prop) (b : bool)
  (ps : list IRPeakInfo.t) (m : M (list IRPeakInfo.t)) :
  (exists q, In q ps /\ P q) -> holds V (fun ps => exists q, In q ps /\ P q) (when_push b ps m).
Proof.
  intros H. unfold when_push. destruct b; [apply pushAll_has, H | apply holds_ret, H].
Qed.

(** outside the acetone path, the characteristic peaks are all kept *)
Lemma irAllPeaks_keeps (smiles : string) (g : nat -> R) (n : nat) (q : IRPeakInfo.t) :
  valid_source g -> String.eqb smiles "CC(=O)C" = false ->
  In q (fst (irCharacteristicPeaks smiles (analyzeMolecule smiles) g n)) ->
  In q (fst (irAllPeaks smiles g n)).
Proof.
  intros Hg Hs Hq. unfold irAllPeaks, bind.
  destruct (irCharacteristicPeaks smiles (analyzeMolecule smiles) g n) as [base m1].
  pose proof (fingerprintRegion_spec base g m1 Hg) as [fs [Hfs _]].
  destruct (fingerprintRegion base g m1) as [ps m2]. unfold acetoneOverride. rewrite Hs.
  simpl in *. subst ps. apply in_or_app. left. exact Hq.
Qed.

Ltac ir_skip := eapply (holds_bind _ (fun _ => True)); [apply holds_true | intros ? _].

Ltac ir_keep :=
  lazymatch goal with |- holds _ ?Q _ => eapply (holds_bind _ Q) end;
  [ lazymatch goal with
    | |- holds _ _ (if ?c then _ else _) =>
        destruct c; [apply pushAll_has | apply when_push_has]; assumption
    | _ => apply when_push_has; assumption
    end
  | intros ? ? ].

Lemma irCharacteristic_nitrile (smiles : string) (f : MoleculeFeatures) :
  includes smiles "C#N" = true ->
  holds valid_source
    (fun ps => exists q, In q ps /\
       (IRPeakInfo.assignment q = "C#N stretch" /\
        2250 <= IRPeakInfo.wavenumber q < 2270 /\ 50 <= IRPeakInfo.targetTransmittance q < 80 /\
        15 <= IRPeakInfo.width q < 25))
    (irCharacteristicPeaks smiles f).
Proof.
  intros Hcn. unfold irCharacteristicPeaks.
  do 13 ir_skip.
  lazymatch goal with |- holds _ ?Q _ => eapply (holds_bind _ Q) end;
    [| intros ? ?; apply holds_ret; assumption].
  rewrite Hcn. intros g n Hg. unfold when_push, pushAll, irPeak, bind, random, ret. simpl.
  eexists. split; [apply in_or_app; right; left; reflexivity |]. simpl.
  gbounds g Hg. repeat split; try reflexivity; lra.
Qed.

Lemma irCharacteristic_sp3 (smiles : string) (f : MoleculeFeatures) :
  hasSp3CH f = true ->
  holds valid_source
    (fun ps => exists q, In q ps /\
       (IRPeakInfo.assignment q = "C-H stretch (sp3)" /\
        2960 <= IRPeakInfo.wavenumber q < 3000 /\ 40 <= IRPeakInfo.targetTransmittance q < 70 /\
        25 <= IRPeakInfo.width q < 40))
    (irCharacteristicPeaks smiles f).
Proof.
  intros Hsp. unfold irCharacteristicPeaks.
  do 4 ir_skip.
  lazymatch goal with |- holds _ ?Q _ => eapply (holds_bind _ Q) end.
  { rewrite Hsp. intros g n Hg. unfold when_push, pushAll, irPeak, bind, random, ret. simpl.
    eexists. split; [apply in_or_app; right; left; reflexivity |]. simpl.
    gbounds g Hg. repeat split; try reflexivity; lra. }
  intros ? ?.
  do 9 ir_keep.
  apply holds_ret. assumption.
Qed.

Lemma nitrile_dip (tt w : R) :
  50 <= tt < 80 -> 15 <= w < 25 ->
  Rmax 0.1 (baselineLevel + 1.12
            - Rmax 0 (baselineLevel - tt) * ((w / 2) ^ 2 / (/ 4 + (w / 2) ^ 2))) < irThreshold.
Proof.
  intros Ht Hw. eapply Rle_lt_trans; [apply (dip_bound tt w 80 15); unfold baselineLevel; lra |].
  replace ((15 / 2) ^ 2 / (/ 4 + (15 / 2) ^ 2)) with (225 / 226) by field.
  unfold irThreshold, irNoiseAmplitude, baselineLevel, Rmax. destruct (Rle_dec 0.1 _); lra.
Qed.

(** X13: for a random source in [0, 1), an IR simulation of any descriptor
    other than "CC(=O)C" that contains "C#N" reports a labelled peak
    "C#N stretch". *)
Theorem simulateIRSpectrum_nitrile (smiles : string) (g : nat -> R) (n : nat)
  (Hg : valid_source g) (Hs : String.eqb smiles "CC(=O)C" = false)
  (Hcn : includes smiles "C#N" = true) :
  exists p, In p (IRSpectrumData.peaks (fst (simulateIRSpectrum smiles g n))) /\
            IRSpectrumPeak.assignment p = "C#N stretch".
Proof.
  destruct (irCharacteristic_nitrile smiles (analyzeMolecule smiles) Hcn g n Hg)
    as [q [Hq (Ha & Hw & Ht & Hwd)]].
  destruct (ir_plain_present smiles g n q Hg Hs (irAllPeaks_keeps smiles g n q Hg Hs Hq))
    as [p [Hp Hl]]; [lra | lra | apply nitrile_dip; assumption |].
  exists p. split; [exact Hp | congruence].
Qed.

Lemma simulateIRSpectrum_nitrile_witness :
  valid_source (fun _ => 0) /\ String.eqb "CC#N" "CC(=O)C" = false /\
  includes "CC#N" "C#N" = true /\
  exists p, In p (IRSpectrumData.peaks (fst (simulateIRSpectrum "CC#N" (fun _ => 0) 0%nat))) /\
            IRSpectrumPeak.assignment p = "C#N stretch".
Proof.
  assert (Hv : valid_source (fun _ => 0)) by (intro; lra).
  assert (Hs : String.eqb "CC#N" "CC(=O)C" = false) by reflexivity.
  assert (Hc : includes "CC#N" "C#N" = true) by (vm_compute; reflexivity).
  split; [exact Hv | split; [exact Hs | split; [exact Hc |]]].
  exact (simulateIRSpectrum_nitrile "CC#N" (fun _ => 0) 0%nat Hv Hs Hc).
Defined.

(** X14: for a random source in [0, 1), an IR simulation of any descriptor
    other than "CC(=O)C" that contains an upper-case "C" reports a labelled
    peak "C-H stretch (sp3)". *)
Theorem simulateIRSpectrum_sp3_stretch (smiles : string) (g : nat -> R) (n : nat)
  (Hg : valid_source g) (Hs : String.eqb smiles "CC(=O)C" = false)
  (Hc : includes smiles "C" = true) :
  exists p, In p (IRSpectrumData.peaks (fst (simulateIRSpectrum smiles g n))) /\
            IRSpectrumPeak.assignment p = "C-H stretch (sp3)".
Proof.
  assert (Hsp : hasSp3CH (analyzeMolecule smiles) = true)
    by (rewrite hasSp3CH_includes_C; exact Hc).
  destruct (irCharacteristic_sp3 smiles (analyzeMolecule smiles) Hsp g n Hg)
    as [q [Hq (Ha & Hw & Ht & Hwd)]].
  destruct (ir_plain_present smiles g n q Hg Hs (irAllPeaks_keeps smiles g n q Hg Hs Hq))
    as [p [Hp Hl]]; [lra | lra | apply dip_sp3_stretch; assumption |].
  exists p. split; [exact Hp | congruence].
Qed.

Lemma simulateIRSpectrum_sp3_stretch_witness :
  valid_source (fun _ => 0) /\ String.eqb "CCO" "CC(=O)C" = false /\
  includes "CCO" "C" = true /\
  exists p, In p (IRSpectrumData.peaks (fst (simulateIRSpectrum "CCO" (fun _ => 0) 0%nat))) /\
            IRSpectrumPeak.assignment p = "C-H stretch (sp3)".
Proof.
  assert (Hv : valid_source (fun _ => 0)) by (intro; lra).
  assert (Hs : String.eqb "CCO" "CC(=O)C" = false) by reflexivity.
  assert (Hc : includes "CCO" "C" = true) by (vm_compute; reflexivity).
  split; [exact Hv | split; [exact Hs | split; [exact Hc |]]].
  exact (simulateIRSpectrum_sp3_stretch "CCO" (fun _ => 0) 0%nat Hv Hs Hc).
Defined.
